(** * Citron launcher shell (src/main.cpp): navigation, input decoder,
      configuration store, library scanner, install workflow, launch handoff.

    A shallow embedding of the launcher's global state and of the functions
    that read and write it, followed by the properties of the launcher's
    specification.

    Conventions of the model.
    - [wchar_t] is a code unit, an integer; [std::wstring] is a list of code
      units.  A stream is the sequence of wide characters written to it; the
      narrow encoding done by the stream's locale is below the model.
    - [std::filesystem::path] is its native string; two paths are compared
      as the runtime library compares them, by root name, root directory and
      file names ([path_compare]), so that two spellings of one path are
      equal.
    - [int] is a [Z] in the 32-bit signed range and [ULONGLONG] a [Z]
      modulo 2^64, the wrap-around written out; the [WORD] of the button
      mask stays below 128.
    - The globals of main.cpp are the fields of one record, [State]; what the
      launcher only reads (controllers, clock, file system, folder picker,
      emulation engine) is the record [Env] of a tick.
    - An exception thrown where no handler encloses the call ends the
      process: the statement has the outcome [Failed UncaughtException].
      The calls [fs::exists(p)] are of the overload that throws when the
      status of [p] cannot be read.
    - Window invalidation ([InvalidateRect]) is rendering plumbing and is
      left out. *)

From Stdlib Require Import String Ascii.
From Stdlib Require Import ZArith List Bool Lia Permutation Sorted.
Import ListNotations.
Local Open Scope Z_scope.

(** ** Wide strings *)

Abbreviation wchar := Z (only parsing).
Abbreviation wstring := (list Z) (only parsing).

(** [L "text"] is the wide literal [L"text"]. *)
Definition L (s : string) : wstring :=
  map (fun a => Z.of_nat (nat_of_ascii a)) (list_ascii_of_string s).

Fixpoint wstring_eqb (a b : wstring) : bool :=
  match a, b with
  | [], [] => true
  | x :: a', y :: b' => (x =? y) && wstring_eqb a' b'
  | _, _ => false
  end.

(** Lexicographic comparison of two lists, element by element; a proper
    prefix comes first. *)
Fixpoint lex_compare {A} (cmp : A -> A -> comparison) (a b : list A) : comparison :=
  match a, b with
  | [], [] => Eq
  | [], _ :: _ => Lt
  | _ :: _, [] => Gt
  | x :: a', y :: b' => match cmp x y with Eq => lex_compare cmp a' b' | c => c end
  end.

(** [a.compare(b)] on strings, by code unit. *)
Definition wstring_compare (a b : wstring) : comparison := lex_compare Z.compare a b.

(** The four characters [Trim] strips: space, tab, CR, LF. *)
Definition is_blank (c : wchar) : bool :=
  (c =? 32) || (c =? 9) || (c =? 13) || (c =? 10).

Fixpoint drop_blank (s : wstring) : wstring :=
  match s with
  | c :: s' => if is_blank c then drop_blank s' else s
  | [] => []
  end.

(** main.cpp 110-117.  [start] runs over the leading blanks, [end] backs
    over the trailing ones of what is left. *)
Definition Trim (s : wstring) : wstring :=
  rev (drop_blank (rev (drop_blank s))).

(** [s.find(c)]: position of the first [c], [None] for [npos]. *)
Fixpoint find_char (c : wchar) (s : wstring) : option nat :=
  match s with
  | [] => None
  | x :: s' => if x =? c then Some O else option_map S (find_char c s')
  end.

(** [std::getline] in a loop: the lines of a text, each without its
    terminating LF; a last line that is not terminated is still read, an
    empty remainder is not. *)
Fixpoint getlines_from (cur : wstring) (s : wstring) : list wstring :=
  match s with
  | [] => match cur with [] => [] | _ => [rev cur] end
  | c :: s' => if c =? 10 then rev cur :: getlines_from [] s'
               else getlines_from (c :: cur) s'
  end.

Definition getlines (s : wstring) : list wstring := getlines_from [] s.

(** ** Integers as text *)

Definition INT_MAX : Z := 2147483647.
Definition INT_MIN : Z := -2147483648.

(** Conversion to [int] of a value computed in [int] arithmetic. *)
Definition wrap_int (z : Z) : Z := (z + 2147483648) mod 4294967296 - 2147483648.

Definition is_digit (c : wchar) : bool := (48 <=? c) && (c <=? 57).

Fixpoint digits_from (fuel : nat) (n : Z) (acc : wstring) : wstring :=
  match fuel with
  | O => acc
  | S f => let acc' := (48 + n mod 10) :: acc in
           if n <? 10 then acc' else digits_from f (n / 10) acc'
  end.

(** [file << n] for an [int]: decimal digits, a minus sign when negative. *)
Definition print_int (n : Z) : wstring :=
  if n <? 0 then 45 :: digits_from (S (Z.to_nat (Z.log2 (- n)))) (- n) []
  else digits_from (S (Z.to_nat (Z.log2 n))) n [].

Definition is_space (c : wchar) : bool :=
  ((9 <=? c) && (c <=? 13)) || (c =? 32).

Fixpoint drop_space (s : wstring) : wstring :=
  match s with
  | c :: s' => if is_space c then drop_space s' else s
  | [] => []
  end.

Fixpoint wtoi_digits (acc : Z) (s : wstring) : Z :=
  match s with
  | c :: s' => if is_digit c then wtoi_digits (10 * acc + (c - 48)) s' else acc
  | [] => acc
  end.

Definition saturate_int (z : Z) : Z := Z.max INT_MIN (Z.min INT_MAX z).

(** [_wtoi]: leading white space (the ASCII one), an optional sign, then
    digits up to the first character that is not one; 0 when there is no
    digit; the value is saturated to the [int] range. *)
Definition _wtoi (s : wstring) : Z :=
  match drop_space s with
  | [] => 0
  | c :: r =>
      if c =? 45 then saturate_int (- wtoi_digits 0 r)
      else if c =? 43 then saturate_int (wtoi_digits 0 r)
      else saturate_int (wtoi_digits 0 (c :: r))
  end.

(** ** Paths and the file system *)

Abbreviation path := (list Z) (only parsing).

Definition is_sep (c : wchar) : bool := (c =? 92) || (c =? 47).

(** [a / b] for a relative [b]: the preferred separator is inserted unless
    [a] is empty or already ends in one. *)
Definition path_join (a b : path) : path :=
  match rev a with
  | [] => b
  | c :: _ => if is_sep c then a ++ b else a ++ 92 :: b
  end.

Fixpoint until_sep (s : wstring) : wstring :=
  match s with
  | c :: s' => if is_sep c then [] else c :: until_sep s'
  | [] => []
  end.

(** [p.filename()]: what follows the last separator. *)
Definition filename (p : path) : wstring := rev (until_sep (rev p)).

(** Scan of the reversed file name for its last dot; a dot in first position
    does not start an extension. *)
Fixpoint ext_scan (suffix r : wstring) : wstring :=
  match r with
  | [] => []
  | c :: r' => if c =? 46
               then match r' with [] => [] | _ => 46 :: suffix end
               else ext_scan (c :: suffix) r'
  end.

(** [p.extension()]: from the last dot of the file name on, empty for the
    names [.] and [..] and for a name whose only dot is its first
    character. *)
Definition extension (p : path) : wstring :=
  let f := filename p in
  if wstring_eqb f (L "..") then [] else ext_scan [] (rev f).

(** *** Comparing paths

    [path::compare] of the runtime library, through which [operator<] and
    [operator==] on paths go: the root names are compared as strings; then
    a path without a root directory comes before one with it; then the
    file names of the two relative paths are compared one by one, each as
    a string.  Separators only delimit: a run of them counts as one, and
    the two kinds count alike.  The launcher is a Windows program: a root
    name is a drive, [X:], or the server part of a network path. *)

Definition is_drive_letter (c : wchar) : bool :=
  ((65 <=? c) && (c <=? 90)) || ((97 <=? c) && (c <=? 122)).

(** The number of code units of the root name: 2 for [X:]; 3 for the
    prefixes [\\?\], [\\.\] and [\??\]; for [\\server] everything up to
    the next separator; 0 when there is none. *)
Definition root_name_length (p : path) : nat :=
  match p with
  | c0 :: c1 :: rest =>
      if is_drive_letter c0 && (c1 =? 58) then 2%nat
      else if negb (is_sep c0) then 0%nat
      else
        match rest with
        | c2 :: c3 :: rest' =>
            if is_sep c3
               && match rest' with [] => true | c4 :: _ => negb (is_sep c4) end
               && ((is_sep c1 && ((c2 =? 63) || (c2 =? 46))) || ((c1 =? 63) && (c2 =? 63)))
            then 3%nat
            else if is_sep c1 && negb (is_sep c2)
                 then (3 + length (until_sep (c3 :: rest')))%nat
                 else 0%nat
        | [c2] => if is_sep c1 && negb (is_sep c2) then 3%nat else 0%nat
        | [] => 0%nat
        end
  | _ => 0%nat
  end.

Definition root_name (p : path) : wstring := firstn (root_name_length p) p.

Definition has_root_directory (p : path) : bool :=
  match skipn (root_name_length p) p with
  | c :: _ => is_sep c
  | [] => false
  end.

Fixpoint drop_seps (s : wstring) : wstring :=
  match s with
  | c :: s' => if is_sep c then drop_seps s' else s
  | [] => []
  end.

(** What follows the root name and the root directory. *)
Definition relative_path (p : path) : wstring := drop_seps (skipn (root_name_length p) p).

(** The file names of a relative path, split at the runs of separators;
    after a trailing separator there is an empty last file name. *)
Fixpoint elements_from (cur : wstring) (in_sep : bool) (s : wstring) : list wstring :=
  match s with
  | [] => [rev cur]
  | c :: s' =>
      if is_sep c then
        if in_sep then elements_from [] true s'
        else rev cur :: elements_from [] true s'
      else elements_from (c :: cur) false s'
  end.

Definition elements (relative : wstring) : list wstring :=
  match relative with
  | [] => []
  | _ => elements_from [] false relative
  end.

Definition path_compare (a b : path) : comparison :=
  match wstring_compare (root_name a) (root_name b) with
  | Eq =>
      match has_root_directory a, has_root_directory b with
      | false, true => Lt
      | true, false => Gt
      | _, _ => lex_compare wstring_compare (elements (relative_path a))
                                            (elements (relative_path b))
      end
  | c => c
  end.

(** [a < b] and [a == b] on paths. *)
Definition path_ltb (a b : path) : bool :=
  match path_compare a b with Lt => true | _ => false end.

Definition path_eqb (a b : path) : bool :=
  match path_compare a b with Eq => true | _ => false end.

(** [::tolower] in the C locale. *)
Definition tolower (c : wchar) : wchar :=
  if (65 <=? c) && (c <=? 90) then c + 32 else c.

(** A directory tree.  [Locked] is a directory whose listing raises an
    error when the iterator descends into it. *)
#[local] Set Warnings "-register-all".
Inductive node : Type :=
| File (name : wstring)
| Special (name : wstring)
| Dir (name : wstring) (children : list node)
| Locked (name : wstring).

(** What [fs::exists] and the iterators find at a path: nothing, something
    that is not a directory, a directory with its content, or a path whose
    status cannot be read, on which the status query fails. *)
Inductive fsobj : Type :=
| FsFile
| FsDir (children : list node)
| NoStatus.

Record dirent := { ent_path : path; is_regular_file : bool }.

(** The entries [fs::recursive_directory_iterator] yields below [parent],
    in traversal order, and whether the traversal ended without an
    exception; after an exception nothing more is yielded. *)
Fixpoint walk (parent : path) (n : node) : list dirent * bool :=
  match n with
  | File name => ([{| ent_path := path_join parent name; is_regular_file := true |}], true)
  | Special name => ([{| ent_path := path_join parent name; is_regular_file := false |}], true)
  | Locked name => ([{| ent_path := path_join parent name; is_regular_file := false |}], false)
  | Dir name children =>
      let p := path_join parent name in
      let fix walk_all (l : list node) : list dirent * bool :=
        match l with
        | [] => ([], true)
        | c :: l' =>
            let (es, ok) := walk p c in
            if ok then let (es', ok') := walk_all l' in (es ++ es', ok')
            else (es, false)
        end in
      let (es, ok) := walk_all children in
      ({| ent_path := p; is_regular_file := false |} :: es, ok)
  end.

Fixpoint walk_children (parent : path) (l : list node) : list dirent * bool :=
  match l with
  | [] => ([], true)
  | c :: l' =>
      let (es, ok) := walk parent c in
      if ok then let (es', ok') := walk_children parent l' in (es ++ es', ok')
      else (es, false)
  end.

(** ** The launcher's data *)

(** main.cpp 49-52. *)
Record Game := { name : wstring; game_path : path }.

(** main.cpp 54-55. *)
Inductive AppState := GameList | Settings | Running.
Inductive SettingsTab := General | System | Graphics | Audio | Network.

(** [(int)tab] and [(SettingsTab)t]; the code only casts values 0..4. *)
Definition tab_index (t : SettingsTab) : Z :=
  match t with General => 0 | System => 1 | Graphics => 2 | Audio => 3 | Network => 4 end.

Definition tab_of_index (i : Z) : SettingsTab :=
  match i with 0 => General | 1 => System | 2 => Graphics | 3 => Audio | _ => Network end.

(** Modelled from the spec: the enumerators of [Settings::MemoryLayout]
    that main.cpp names; their declaration (common/settings.h and what it
    includes) is not among the sources.  The specification's example stores
    the memory layout as [MemoryLayout=1], one of the two values, 0 and 1,
    of the two layouts. *)
Definition Memory_4Gb : Z := 0.
Definition Memory_6Gb : Z := 1.

(** Modelled from the spec: [Settings::RendererBackend], declared outside
    the sources; main.cpp only ever stores [D3D12]. *)
Inductive RendererBackend := D3D12 | DefaultBackend.

(** The fields of [Settings::values] that main.cpp reads or writes.  An
    enumerated setting is held as the [int] its cast gives. *)
Record SettingsValues := {
  language_index : Z;
  region_index : Z;
  custom_rtc_enabled : bool;
  use_multi_core : bool;
  memory_layout_mode : Z;
  renderer_backend : RendererBackend;
  use_disk_shader_cache : bool;
  use_asynchronous_gpu_emulation : bool
}.

(** The globals of main.cpp 69-79 and 105-106, [Settings::values], and the
    stored config.ini ([None]: no such file). *)
Record State := {
  g_IsEditingSetting : bool;
  g_AppState : AppState;
  g_CurrentTab : SettingsTab;
  g_IsInstalling : bool;
  g_InstallStatus : wstring;
  g_UserGamePaths : list path;
  g_Games : list Game;
  g_SelectedGameIndex : Z;
  g_SelectedSettingIndex : Z;
  g_NextInputTime : Z;
  g_LastInputMask : Z;
  g_EmuWindow : bool;
  g_System : bool;
  values : SettingsValues;
  config_ini : option wstring
}.

(** [XINPUT_GAMEPAD]: the button word and the left stick's vertical axis. *)
Record Gamepad := { wButtons : Z; sThumbLY : Z }.

(** What [Load] of the engine does: it returns [Success], returns another
    status, here as the [int] its cast gives, or throws. *)
Inductive EngineReply :=
| LoadSucceeded
| LoadFailed (status : Z)
| Throws (what : wstring).

(** What one tick reads from outside the launcher. *)
Record Env := {
  XInputGetState : Z -> option Gamepad;   (* [None]: slot not connected *)
  GetTickCount64 : Z;
  GetUserDirectory : path;
  fs_at : path -> option fsobj;
  config_opens : bool;                    (* the config stream can be opened *)
  picked_folder : option wstring;         (* [None]: no folder was chosen *)
  engine : EngineReply                    (* what [Load] does *)
}.

Inductive EngineCall :=
| Initialize | SetContentProvider | SetFilesystem
| LoadTitle (title : path) | GpuStart | OnGpuReady | Run.

(** What the launcher does to the outside, in order. *)
Inductive Event :=
| MessageBoxW (text caption : wstring)
| ThreadDetached (source : wstring) (dest_dir : path)
| Engine (c : EngineCall).

(** ** Field updates *)

Definition set_editing v s := {|
  g_IsEditingSetting := v; g_AppState := g_AppState s; g_CurrentTab := g_CurrentTab s;
  g_IsInstalling := g_IsInstalling s; g_InstallStatus := g_InstallStatus s;
  g_UserGamePaths := g_UserGamePaths s; g_Games := g_Games s;
  g_SelectedGameIndex := g_SelectedGameIndex s; g_SelectedSettingIndex := g_SelectedSettingIndex s;
  g_NextInputTime := g_NextInputTime s; g_LastInputMask := g_LastInputMask s;
  g_EmuWindow := g_EmuWindow s; g_System := g_System s; values := values s;
  config_ini := config_ini s |}.

Definition set_app_state v s := {|
  g_IsEditingSetting := g_IsEditingSetting s; g_AppState := v; g_CurrentTab := g_CurrentTab s;
  g_IsInstalling := g_IsInstalling s; g_InstallStatus := g_InstallStatus s;
  g_UserGamePaths := g_UserGamePaths s; g_Games := g_Games s;
  g_SelectedGameIndex := g_SelectedGameIndex s; g_SelectedSettingIndex := g_SelectedSettingIndex s;
  g_NextInputTime := g_NextInputTime s; g_LastInputMask := g_LastInputMask s;
  g_EmuWindow := g_EmuWindow s; g_System := g_System s; values := values s;
  config_ini := config_ini s |}.

Definition set_tab v s := {|
  g_IsEditingSetting := g_IsEditingSetting s; g_AppState := g_AppState s; g_CurrentTab := v;
  g_IsInstalling := g_IsInstalling s; g_InstallStatus := g_InstallStatus s;
  g_UserGamePaths := g_UserGamePaths s; g_Games := g_Games s;
  g_SelectedGameIndex := g_SelectedGameIndex s; g_SelectedSettingIndex := g_SelectedSettingIndex s;
  g_NextInputTime := g_NextInputTime s; g_LastInputMask := g_LastInputMask s;
  g_EmuWindow := g_EmuWindow s; g_System := g_System s; values := values s;
  config_ini := config_ini s |}.

Definition set_installing v s := {|
  g_IsEditingSetting := g_IsEditingSetting s; g_AppState := g_AppState s; g_CurrentTab := g_CurrentTab s;
  g_IsInstalling := v; g_InstallStatus := g_InstallStatus s;
  g_UserGamePaths := g_UserGamePaths s; g_Games := g_Games s;
  g_SelectedGameIndex := g_SelectedGameIndex s; g_SelectedSettingIndex := g_SelectedSettingIndex s;
  g_NextInputTime := g_NextInputTime s; g_LastInputMask := g_LastInputMask s;
  g_EmuWindow := g_EmuWindow s; g_System := g_System s; values := values s;
  config_ini := config_ini s |}.

Definition set_install_status v s := {|
  g_IsEditingSetting := g_IsEditingSetting s; g_AppState := g_AppState s; g_CurrentTab := g_CurrentTab s;
  g_IsInstalling := g_IsInstalling s; g_InstallStatus := v;
  g_UserGamePaths := g_UserGamePaths s; g_Games := g_Games s;
  g_SelectedGameIndex := g_SelectedGameIndex s; g_SelectedSettingIndex := g_SelectedSettingIndex s;
  g_NextInputTime := g_NextInputTime s; g_LastInputMask := g_LastInputMask s;
  g_EmuWindow := g_EmuWindow s; g_System := g_System s; values := values s;
  config_ini := config_ini s |}.

Definition set_user_game_paths v s := {|
  g_IsEditingSetting := g_IsEditingSetting s; g_AppState := g_AppState s; g_CurrentTab := g_CurrentTab s;
  g_IsInstalling := g_IsInstalling s; g_InstallStatus := g_InstallStatus s;
  g_UserGamePaths := v; g_Games := g_Games s;
  g_SelectedGameIndex := g_SelectedGameIndex s; g_SelectedSettingIndex := g_SelectedSettingIndex s;
  g_NextInputTime := g_NextInputTime s; g_LastInputMask := g_LastInputMask s;
  g_EmuWindow := g_EmuWindow s; g_System := g_System s; values := values s;
  config_ini := config_ini s |}.

Definition set_games v s := {|
  g_IsEditingSetting := g_IsEditingSetting s; g_AppState := g_AppState s; g_CurrentTab := g_CurrentTab s;
  g_IsInstalling := g_IsInstalling s; g_InstallStatus := g_InstallStatus s;
  g_UserGamePaths := g_UserGamePaths s; g_Games := v;
  g_SelectedGameIndex := g_SelectedGameIndex s; g_SelectedSettingIndex := g_SelectedSettingIndex s;
  g_NextInputTime := g_NextInputTime s; g_LastInputMask := g_LastInputMask s;
  g_EmuWindow := g_EmuWindow s; g_System := g_System s; values := values s;
  config_ini := config_ini s |}.

Definition set_game_index v s := {|
  g_IsEditingSetting := g_IsEditingSetting s; g_AppState := g_AppState s; g_CurrentTab := g_CurrentTab s;
  g_IsInstalling := g_IsInstalling s; g_InstallStatus := g_InstallStatus s;
  g_UserGamePaths := g_UserGamePaths s; g_Games := g_Games s;
  g_SelectedGameIndex := v; g_SelectedSettingIndex := g_SelectedSettingIndex s;
  g_NextInputTime := g_NextInputTime s; g_LastInputMask := g_LastInputMask s;
  g_EmuWindow := g_EmuWindow s; g_System := g_System s; values := values s;
  config_ini := config_ini s |}.

Definition set_setting_index v s := {|
  g_IsEditingSetting := g_IsEditingSetting s; g_AppState := g_AppState s; g_CurrentTab := g_CurrentTab s;
  g_IsInstalling := g_IsInstalling s; g_InstallStatus := g_InstallStatus s;
  g_UserGamePaths := g_UserGamePaths s; g_Games := g_Games s;
  g_SelectedGameIndex := g_SelectedGameIndex s; g_SelectedSettingIndex := v;
  g_NextInputTime := g_NextInputTime s; g_LastInputMask := g_LastInputMask s;
  g_EmuWindow := g_EmuWindow s; g_System := g_System s; values := values s;
  config_ini := config_ini s |}.

Definition set_next_input_time v s := {|
  g_IsEditingSetting := g_IsEditingSetting s; g_AppState := g_AppState s; g_CurrentTab := g_CurrentTab s;
  g_IsInstalling := g_IsInstalling s; g_InstallStatus := g_InstallStatus s;
  g_UserGamePaths := g_UserGamePaths s; g_Games := g_Games s;
  g_SelectedGameIndex := g_SelectedGameIndex s; g_SelectedSettingIndex := g_SelectedSettingIndex s;
  g_NextInputTime := v; g_LastInputMask := g_LastInputMask s;
  g_EmuWindow := g_EmuWindow s; g_System := g_System s; values := values s;
  config_ini := config_ini s |}.

Definition set_last_input_mask v s := {|
  g_IsEditingSetting := g_IsEditingSetting s; g_AppState := g_AppState s; g_CurrentTab := g_CurrentTab s;
  g_IsInstalling := g_IsInstalling s; g_InstallStatus := g_InstallStatus s;
  g_UserGamePaths := g_UserGamePaths s; g_Games := g_Games s;
  g_SelectedGameIndex := g_SelectedGameIndex s; g_SelectedSettingIndex := g_SelectedSettingIndex s;
  g_NextInputTime := g_NextInputTime s; g_LastInputMask := v;
  g_EmuWindow := g_EmuWindow s; g_System := g_System s; values := values s;
  config_ini := config_ini s |}.

Definition set_engine_objects s := {|
  g_IsEditingSetting := g_IsEditingSetting s; g_AppState := g_AppState s; g_CurrentTab := g_CurrentTab s;
  g_IsInstalling := g_IsInstalling s; g_InstallStatus := g_InstallStatus s;
  g_UserGamePaths := g_UserGamePaths s; g_Games := g_Games s;
  g_SelectedGameIndex := g_SelectedGameIndex s; g_SelectedSettingIndex := g_SelectedSettingIndex s;
  g_NextInputTime := g_NextInputTime s; g_LastInputMask := g_LastInputMask s;
  g_EmuWindow := true; g_System := true; values := values s;
  config_ini := config_ini s |}.

Definition set_values v s := {|
  g_IsEditingSetting := g_IsEditingSetting s; g_AppState := g_AppState s; g_CurrentTab := g_CurrentTab s;
  g_IsInstalling := g_IsInstalling s; g_InstallStatus := g_InstallStatus s;
  g_UserGamePaths := g_UserGamePaths s; g_Games := g_Games s;
  g_SelectedGameIndex := g_SelectedGameIndex s; g_SelectedSettingIndex := g_SelectedSettingIndex s;
  g_NextInputTime := g_NextInputTime s; g_LastInputMask := g_LastInputMask s;
  g_EmuWindow := g_EmuWindow s; g_System := g_System s; values := v;
  config_ini := config_ini s |}.

Definition set_config_ini v s := {|
  g_IsEditingSetting := g_IsEditingSetting s; g_AppState := g_AppState s; g_CurrentTab := g_CurrentTab s;
  g_IsInstalling := g_IsInstalling s; g_InstallStatus := g_InstallStatus s;
  g_UserGamePaths := g_UserGamePaths s; g_Games := g_Games s;
  g_SelectedGameIndex := g_SelectedGameIndex s; g_SelectedSettingIndex := g_SelectedSettingIndex s;
  g_NextInputTime := g_NextInputTime s; g_LastInputMask := g_LastInputMask s;
  g_EmuWindow := g_EmuWindow s; g_System := g_System s; values := values s;
  config_ini := v |}.

Definition with_language v (x : SettingsValues) := {|
  language_index := v; region_index := region_index x;
  custom_rtc_enabled := custom_rtc_enabled x; use_multi_core := use_multi_core x;
  memory_layout_mode := memory_layout_mode x; renderer_backend := renderer_backend x;
  use_disk_shader_cache := use_disk_shader_cache x;
  use_asynchronous_gpu_emulation := use_asynchronous_gpu_emulation x |}.

Definition with_region v (x : SettingsValues) := {|
  language_index := language_index x; region_index := v;
  custom_rtc_enabled := custom_rtc_enabled x; use_multi_core := use_multi_core x;
  memory_layout_mode := memory_layout_mode x; renderer_backend := renderer_backend x;
  use_disk_shader_cache := use_disk_shader_cache x;
  use_asynchronous_gpu_emulation := use_asynchronous_gpu_emulation x |}.

Definition with_custom_rtc v (x : SettingsValues) := {|
  language_index := language_index x; region_index := region_index x;
  custom_rtc_enabled := v; use_multi_core := use_multi_core x;
  memory_layout_mode := memory_layout_mode x; renderer_backend := renderer_backend x;
  use_disk_shader_cache := use_disk_shader_cache x;
  use_asynchronous_gpu_emulation := use_asynchronous_gpu_emulation x |}.

Definition with_multi_core v (x : SettingsValues) := {|
  language_index := language_index x; region_index := region_index x;
  custom_rtc_enabled := custom_rtc_enabled x; use_multi_core := v;
  memory_layout_mode := memory_layout_mode x; renderer_backend := renderer_backend x;
  use_disk_shader_cache := use_disk_shader_cache x;
  use_asynchronous_gpu_emulation := use_asynchronous_gpu_emulation x |}.

Definition with_memory_layout v (x : SettingsValues) := {|
  language_index := language_index x; region_index := region_index x;
  custom_rtc_enabled := custom_rtc_enabled x; use_multi_core := use_multi_core x;
  memory_layout_mode := v; renderer_backend := renderer_backend x;
  use_disk_shader_cache := use_disk_shader_cache x;
  use_asynchronous_gpu_emulation := use_asynchronous_gpu_emulation x |}.

(** main.cpp 487-489. *)
Definition with_core_configuration (x : SettingsValues) := {|
  language_index := language_index x; region_index := region_index x;
  custom_rtc_enabled := custom_rtc_enabled x; use_multi_core := use_multi_core x;
  memory_layout_mode := memory_layout_mode x; renderer_backend := D3D12;
  use_disk_shader_cache := true;
  use_asynchronous_gpu_emulation := true |}.

(** ** Statements: state, events and faults

    A statement runs on the globals and either finishes, with a result, the
    new globals and the events it caused, or faults: an access outside a
    vector's bounds or an exception nothing catches ends the process. *)

Inductive Fault := OutOfBounds | UncaughtException.

Inductive Outcome (A : Type) : Type :=
| Done (a : A) (s : State) (log : list Event)
| Failed (f : Fault).
Arguments Done {A} a s log.
Arguments Failed {A} f.

Definition M (A : Type) : Type := State -> Outcome A.

Definition ret {A} (a : A) : M A := fun s => Done a s [].

Definition bind {A B} (c : M A) (k : A -> M B) : M B :=
  fun s => match c s with
           | Done a s' log =>
               match k a s' with
               | Done b s'' log' => Done b s'' (log ++ log')
               | Failed f => Failed f
               end
           | Failed f => Failed f
           end.

Definition gets {A} (f : State -> A) : M A := fun s => Done (f s) s [].
Definition modify (f : State -> State) : M unit := fun s => Done tt (f s) [].
Definition emit (ev : Event) : M unit := fun s => Done tt s [ev].
Definition fault {A} (f : Fault) : M A := fun _ => Failed f.

(** [if (cond) body], the condition read on the globals as they are now. *)
Definition when_ (cond : State -> bool) (body : M unit) : M unit :=
  fun s => if cond s then body s else Done tt s [].

Declare Scope stmt_scope.
Delimit Scope stmt_scope with stmt.
Notation "x <- c ;; k" := (bind c (fun x => k))
  (at level 61, c at next level, right associativity) : stmt_scope.
Notation "c ;; k" := (bind c (fun _ => k))
  (at level 61, right associativity) : stmt_scope.
Local Open Scope stmt_scope.

(** ** Configuration store *)

Definition endl : wstring := [10].

Definition print_bool (b : bool) : wstring := print_int (if b then 1 else 0).

(** [std::sort] on paths, with [operator<]: [x] goes behind the paths
    smaller than it.  The library leaves the order of equal paths open;
    here they keep the order they had. *)
Fixpoint insert_path (x : path) (l : list path) : list path :=
  match l with
  | [] => [x]
  | y :: l' => if path_ltb y x then y :: insert_path x l' else x :: l
  end.

Definition sort_paths (l : list path) : list path := fold_right insert_path [] l.

(** [std::unique] followed by [erase], with [operator==] on paths: of
    each run of equal neighbours the first stays. *)
Fixpoint unique_from (kept : path) (l : list path) : list path :=
  match l with
  | [] => []
  | x :: l' => if path_eqb kept x then unique_from kept l' else x :: unique_from x l'
  end.

Definition unique (l : list path) : list path :=
  match l with
  | [] => []
  | x :: l' => x :: unique_from x l'
  end.

(** The lines main.cpp 209-224 write, each ended by [std::endl]. *)
Definition config_lines (v : SettingsValues) (paths : list path) : list wstring :=
  [ L "[System]";
    L "Language=" ++ print_int (language_index v);
    L "Region=" ++ print_int (region_index v);
    L "CustomRTC=" ++ print_bool (custom_rtc_enabled v);
    L "MultiCore=" ++ print_bool (use_multi_core v);
    L "MemoryLayout=" ++ print_int (memory_layout_mode v);
    L "";
    L "[Paths]" ] ++
  map (fun p => L "GamePath=" ++ p) paths.

Definition config_text (v : SettingsValues) (paths : list path) : wstring :=
  concat (map (fun line => line ++ endl) (config_lines v paths)).

(** main.cpp 203-226.  Nothing happens when the stream does not open;
    otherwise the path list is sorted and deduplicated in memory and the
    file is overwritten. *)
Definition SaveSettings (e : Env) (s : State) : State :=
  if config_opens e then
    let paths := unique (sort_paths (g_UserGamePaths s)) in
    set_config_ini (Some (config_text (values s) paths)) (set_user_game_paths paths s)
  else s.

(** main.cpp 245-252: the setting a key names takes the value. *)
Definition assign_setting (s : State) (key val : wstring) : State :=
  if wstring_eqb key (L "Language") then
    set_values (with_language (_wtoi val) (values s)) s
  else if wstring_eqb key (L "Region") then
    set_values (with_region (_wtoi val) (values s)) s
  else if wstring_eqb key (L "CustomRTC") then
    set_values (with_custom_rtc (negb (_wtoi val =? 0)) (values s)) s
  else if wstring_eqb key (L "MultiCore") then
    set_values (with_multi_core (negb (_wtoi val =? 0)) (values s)) s
  else if wstring_eqb key (L "MemoryLayout") then
    set_values (with_memory_layout (_wtoi val) (values s)) s
  else if wstring_eqb key (L "GamePath") then
    set_user_game_paths (g_UserGamePaths s ++ [val]) s
  else s.

(** One turn of the loop of main.cpp 236-254. *)
Definition load_line (s : State) (line : wstring) : State :=
  let line := Trim line in
  match line with
  | [] => s
  | c :: _ =>
      if c =? 91 then s else
      match find_char 61 line with
      | None => s
      | Some eq =>
          let key := Trim (firstn eq line) in
          let val := Trim (skipn (S eq) line) in
          assign_setting s key val
      end
  end.

(** What the reading stream of main.cpp 230 holds, [None] when it is not
    open. *)
Definition open_config (e : Env) (s : State) : option wstring :=
  if config_opens e then config_ini s else None.

(** main.cpp 228-256. *)
Definition LoadSettings (e : Env) (s : State) : State :=
  match open_config e s with
  | None => s
  | Some text => fold_left load_line (getlines text) (set_user_game_paths [] s)
  end.

(** ** Library scanner *)

(** [fs::exists(p)], the overload that throws: [None] when the status
    query fails and the call throws [filesystem_error]. *)
Definition fs_exists (e : Env) (p : path) : option bool :=
  match fs_at e p with
  | None => Some false
  | Some NoStatus => None
  | Some _ => Some true
  end.

(** A loop over a list whose body can throw: [None] as soon as a turn
    throws. *)
Fixpoint fold_throwing {A B} (f : A -> B -> option A) (l : list B) (a : A) : option A :=
  match l with
  | [] => Some a
  | b :: l' =>
      match f a b with
      | Some a' => fold_throwing f l' a'
      | None => None
      end
  end.

(** main.cpp 160-166, one user path. *)
Definition add_user_path (e : Env) (searchPaths : list path) (p : path)
  : option (list path) :=
  match fs_exists e p with
  | None => None
  | Some true =>
      if existsb (fun s => path_eqb s p) searchPaths then Some searchPaths
      else Some (searchPaths ++ [p])
  | Some false => Some searchPaths
  end.

(** main.cpp 169-172, one drive letter. *)
Definition add_drive (e : Env) (searchPaths : list path) (letter : wchar)
  : option (list path) :=
  let drive := [letter] ++ L ":\Games" in
  match fs_exists e drive with
  | None => None
  | Some true => Some (searchPaths ++ [drive])
  | Some false => Some searchPaths
  end.

(** The letters ['E'] to ['Z']. *)
Definition drive_letters : list wchar := map (fun i => 69 + Z.of_nat i) (seq 0 22).

(** main.cpp 156-172: the vector [searchPaths], [None] when one of the
    status queries throws. *)
Definition search_paths (e : Env) (s : State) : option (list path) :=
  let searchPaths := [L "D:\Games"] in
  match fold_throwing (add_user_path e) (g_UserGamePaths s) searchPaths with
  | None => None
  | Some searchPaths => fold_throwing (add_drive e) drive_letters searchPaths
  end.

(** main.cpp 178-184, one entry. *)
Definition scan_entry (entry : dirent) : list Game :=
  if is_regular_file entry then
    let ext := map tolower (extension (ent_path entry)) in
    if wstring_eqb ext (L ".nsp") || wstring_eqb ext (L ".xci")
    then [{| name := filename (ent_path entry); game_path := ent_path entry |}]
    else []
  else [].

(** main.cpp 176-186, what the loop over one search path adds to the
    list: an exception of the iterator, as on a path that is no directory
    or on a directory that cannot be listed, ends this path's loop and is
    swallowed, what was pushed before stays. *)
Definition scan_root (e : Env) (p : path) : list Game :=
  match fs_at e p with
  | None => []
  | Some FsFile => []
  | Some NoStatus => []
  | Some (FsDir children) => flat_map scan_entry (fst (walk_children p children))
  end.

(** main.cpp 174-187, one search path: the status query of line 175 is
    outside the [try]; a path that is not there is passed over. *)
Definition scan_path (e : Env) (games : list Game) (p : path) : option (list Game) :=
  match fs_exists e p with
  | None => None
  | Some false => Some games
  | Some true => Some (games ++ scan_root e p)
  end.

(** main.cpp 153-188.  An exception of a status query is caught by
    nothing. *)
Definition ScanGames (e : Env) : M unit :=
  fun s =>
  match search_paths e s with
  | None => Failed UncaughtException
  | Some searchPaths =>
      match fold_throwing (scan_path e) searchPaths [] with
      | None => Failed UncaughtException
      | Some games => Done tt (set_games games s) []
      end
  end.

(** ** Install workflow *)

(** main.cpp 258-276, the detached thread: what it does before the copy
    and after it ([failure] is the exception's text, if one was thrown). *)
Definition InstallFilesThread_begin (s : State) : State :=
  set_install_status (L "Copying files...") (set_installing true s).

Definition InstallFilesThread_end (failure : option wstring) : M unit :=
  match failure with
  | None =>
      modify (set_install_status (L "Done!"));;
      emit (MessageBoxW (L "Files Copied!") (L "Success"));;
      modify (set_installing false)
  | Some what =>
      modify (set_install_status (L "Error!"));;
      emit (MessageBoxW (L "Failed: " ++ what) (L "Error"));;
      modify (set_installing false)
  end.

(** main.cpp 278-311. *)
Definition InstallFiles (e : Env) (title : wstring) (subPath : path) : M unit :=
  fun s =>
  if g_IsInstalling s then Done tt s [] else
  let dest_dir := path_join (GetUserDirectory e) subPath in
  match picked_folder e with
  | None => Done tt s []
  | Some source =>
      if wstring_eqb title (L "Add Game Directory") then
        (modify (fun s => set_user_game_paths (g_UserGamePaths s ++ [source]) s);;
         modify (SaveSettings e);;
         ScanGames e;;
         emit (MessageBoxW (L "Game Directory Saved!") (L "Citron"))) s
      else emit (ThreadDetached source dest_dir) s
  end.

(** ** Launch handoff *)

Definition node_name (n : node) : wstring :=
  match n with
  | File f | Special f | Locked f => f
  | Dir d _ => d
  end.

Definition key_path (e : Env) : path := path_join (GetUserDirectory e) (L "keys/prod.keys").
Definition nand_path (e : Env) : path :=
  path_join (GetUserDirectory e) (L "nand/system/Contents/registered").

(** The messages of main.cpp 460 and 477: a literal, the path, a literal
    (code unit 10 is the literals' [\n]). *)
Definition missing_keys_message (keyPath : path) : wstring :=
  (L "prod.keys MISSING!" ++ [10] ++ L "Location:" ++ [10]) ++ keyPath ++
  ([10; 10] ++ L "Please use Settings > Install Prod Keys").

Definition missing_firmware_message (nandPath : path) : wstring :=
  (L "Firmware MISSING!" ++ [10] ++ L "Location:" ++ [10]) ++ nandPath ++
  ([10; 10] ++ L "Folder must contain .nca files." ++ [10] ++
   L "Please use Settings > Install Firmware").

(** main.cpp 467-475: whether some entry of the listing has the extension
    [.nca]. *)
Definition has_nca (nandPath : path) (children : list node) : bool :=
  existsb (fun n => wstring_eqb (extension (path_join nandPath (node_name n))) (L ".nca"))
          children.

(** main.cpp 482-517, the guarded part. *)
Definition boot (e : Env) (game : Game) : M unit :=
  modify set_engine_objects;;
  modify (fun s => set_values (with_core_configuration (values s)) s);;
  emit (Engine Initialize);;
  emit (Engine SetContentProvider);;
  emit (Engine SetFilesystem);;
  emit (Engine (LoadTitle (game_path game)));;
  match engine e with
  | Throws what => emit (MessageBoxW (L "Crash: " ++ what) (L "Critical Error"))
  | LoadFailed status =>
      emit (MessageBoxW (L "Boot Failed Error Code: " ++ print_int status) (L "Boot Error"))
  | LoadSucceeded =>
      emit (Engine GpuStart);;
      emit (Engine OnGpuReady);;
      modify (set_app_state Running);;
      emit (Engine Run)
  end.

(** main.cpp 454-518.  The two status queries and the listing of the
    firmware folder are outside the [try]: when a query fails, or when the
    path is there but is no directory, the exception is caught by
    nothing. *)
Definition StartGame (e : Env) (game : Game) : M unit :=
  let keyPath := key_path e in
  match fs_exists e keyPath with
  | None => fault UncaughtException
  | Some false => emit (MessageBoxW (missing_keys_message keyPath) (L "Missing Files"))
  | Some true =>
      let nandPath := nand_path e in
      match fs_at e nandPath with
      | Some NoStatus => fault UncaughtException
      | Some FsFile => fault UncaughtException
      | found =>
          let hasFirmware :=
            match found with
            | Some (FsDir children) => has_nca nandPath children
            | _ => false
            end in
          if negb hasFirmware then
            emit (MessageBoxW (missing_firmware_message nandPath) (L "Missing Files"))
          else boot e game
      end
  end.

(** ** Input decoder and navigation *)

Definition MAX_CONTROLLERS : Z := 4.
Definition INPUT_DEADZONE : Z := 8000.

(** Button bits of [XINPUT_GAMEPAD.wButtons] (xinput.h of the Windows
    SDK). *)
Definition XINPUT_GAMEPAD_DPAD_UP : Z := 0x0001.
Definition XINPUT_GAMEPAD_DPAD_DOWN : Z := 0x0002.
Definition XINPUT_GAMEPAD_START : Z := 0x0010.
Definition XINPUT_GAMEPAD_LEFT_SHOULDER : Z := 0x0100.
Definition XINPUT_GAMEPAD_RIGHT_SHOULDER : Z := 0x0200.
Definition XINPUT_GAMEPAD_A : Z := 0x1000.
Definition XINPUT_GAMEPAD_B : Z := 0x2000.

(** The locals of main.cpp 523-524. *)
Record Buttons := {
  up : bool; down : bool; lb : bool; rb : bool;
  a_btn : bool; b_btn : bool; start : bool;
  any_connected : bool
}.

Definition no_buttons : Buttons :=
  {| up := false; down := false; lb := false; rb := false;
     a_btn := false; b_btn := false; start := false; any_connected := false |}.

Definition pressed (btns bit : Z) : bool := negb (Z.land btns bit =? 0).

(** main.cpp 527-538, one controller slot. *)
Definition poll_slot (e : Env) (b : Buttons) (i : Z) : Buttons :=
  match XInputGetState e i with
  | None => b
  | Some state =>
      let ly := sThumbLY state in
      let btns := wButtons state in
      {| up := up b || (pressed btns XINPUT_GAMEPAD_DPAD_UP || (ly >? INPUT_DEADZONE));
         down := down b || (pressed btns XINPUT_GAMEPAD_DPAD_DOWN || (ly <? - INPUT_DEADZONE));
         lb := lb b || pressed btns XINPUT_GAMEPAD_LEFT_SHOULDER;
         rb := rb b || pressed btns XINPUT_GAMEPAD_RIGHT_SHOULDER;
         a_btn := a_btn b || pressed btns XINPUT_GAMEPAD_A;
         b_btn := b_btn b || pressed btns XINPUT_GAMEPAD_B;
         start := start b || pressed btns XINPUT_GAMEPAD_START;
         any_connected := true |}
  end.

Definition poll (e : Env) : Buttons :=
  fold_left (poll_slot e) (map Z.of_nat (seq 0 (Z.to_nat MAX_CONTROLLERS))) no_buttons.

Definition or_bit (c : bool) (bit mask : Z) : Z := if c then Z.lor mask bit else mask.

(** main.cpp 541-548. *)
Definition mask_of (b : Buttons) : Z :=
  or_bit (start b) 64 (or_bit (b_btn b) 32 (or_bit (a_btn b) 16 (or_bit (rb b) 8
    (or_bit (lb b) 4 (or_bit (down b) 2 (or_bit (up b) 1 0)))))).

Definition wrap_u64 (z : Z) : Z := z mod 2 ^ 64.

(** main.cpp 550-560: whether this tick executes, and the decoder's two
    globals after it. *)
Definition decode (currentMask currentTime : Z) (s : State) : bool * State :=
  let '(execute, s) :=
    if negb (currentMask =? 0) then
      if negb (currentMask =? g_LastInputMask s) then
        (true, set_next_input_time (wrap_u64 (currentTime + 400)) s)
      else if g_NextInputTime s <=? currentTime then
        (true, set_next_input_time (wrap_u64 (currentTime + 50)) s)
      else (false, s)
    else (false, s) in
  (execute, set_last_input_mask currentMask s).

Definition games_size (s : State) : Z := wrap_int (Z.of_nat (length (g_Games s))).

(** [g_Games[g_SelectedGameIndex]]: outside the vector the access is
    undefined. *)
Definition selected_game : M Game :=
  fun s =>
    if g_SelectedGameIndex s <? 0 then Failed OutOfBounds else
    match nth_error (g_Games s) (Z.to_nat (g_SelectedGameIndex s)) with
    | Some g => Done g s []
    | None => Failed OutOfBounds
    end.

(** main.cpp 566-576. *)
Definition on_game_list (e : Env) (b : Buttons) : M unit :=
  when_ (fun _ => start b)
    (modify (set_app_state Settings);;
     modify (set_tab General);;
     modify (set_setting_index 0));;
  when_ (fun s => negb (match g_Games s with [] => true | _ => false end))
    (when_ (fun s => up b && (g_SelectedGameIndex s >? 0))
       (modify (fun s => set_game_index (g_SelectedGameIndex s - 1) s));;
     when_ (fun s => down b && (g_SelectedGameIndex s <? games_size s - 1))
       (modify (fun s => set_game_index (g_SelectedGameIndex s + 1) s));;
     when_ (fun s => a_btn b && (g_SelectedGameIndex s >=? 0))
       (game <- selected_game;; StartGame e game)).

(** main.cpp 593. *)
Definition limit (tab : SettingsTab) : Z :=
  match tab with System => 8 | General => 5 | _ => 0 end.

Definition editable_row (i : Z) : bool :=
  (i =? 0) || (i =? 1) || (i =? 4) || (i =? 6) || (i =? 7).

(** main.cpp 579-607, settings screen outside edit mode. *)
Definition on_settings (e : Env) (b : Buttons) : M unit :=
  when_ (fun _ => b_btn b || start b)
    (modify (set_app_state GameList);;
     modify (SaveSettings e));;
  when_ (fun _ => lb b)
    (modify (fun s =>
       let t := tab_index (g_CurrentTab s) - 1 in
       let t := if t <? 0 then 4 else t in
       set_tab (tab_of_index t) s);;
     modify (set_setting_index 0));;
  when_ (fun _ => rb b)
    (modify (fun s =>
       let t := tab_index (g_CurrentTab s) + 1 in
       let t := if t >? 4 then 0 else t in
       set_tab (tab_of_index t) s);;
     modify (set_setting_index 0));;
  when_ (fun s => up b && (g_SelectedSettingIndex s >? 0))
    (modify (fun s => set_setting_index (g_SelectedSettingIndex s - 1) s));;
  when_ (fun s => down b && (g_SelectedSettingIndex s <? limit (g_CurrentTab s) - 1))
    (modify (fun s => set_setting_index (g_SelectedSettingIndex s + 1) s));;
  when_ (fun _ => a_btn b)
    (tab <- gets g_CurrentTab;;
     match tab with
     | General =>
         when_ (fun s => g_SelectedSettingIndex s =? 0)
           (InstallFiles e (L "Select Keys Folder") (L "keys"));;
         when_ (fun s => g_SelectedSettingIndex s =? 1)
           (InstallFiles e (L "Select Firmware Folder") (L "nand/system/Contents/registered"));;
         when_ (fun s => g_SelectedSettingIndex s =? 2)
           (InstallFiles e (L "Add Game Directory") (L ""))
     | System =>
         when_ (fun s => editable_row (g_SelectedSettingIndex s))
           (modify (set_editing true))
     | _ => ret tt
     end).

(** main.cpp 611-631, the setting bound to the selected row. *)
Definition edit_value (b : Buttons) (s : State) : State :=
  let v := values s in
  match g_SelectedSettingIndex s with
  | 0 =>
      let lang := language_index v in
      let lang := Z.rem (wrap_int (wrap_int (lang + (if up b then 1 else -1)) + 18)) 18 in
      set_values (with_language lang v) s
  | 1 =>
      let reg := region_index v in
      let reg := Z.rem (wrap_int (wrap_int (reg + (if up b then 1 else -1)) + 6)) 6 in
      set_values (with_region reg v) s
  | 4 => set_values (with_custom_rtc (negb (custom_rtc_enabled v)) v) s
  | 6 => set_values (with_multi_core (negb (use_multi_core v)) v) s
  | 7 =>
      let c := memory_layout_mode v in
      set_values (with_memory_layout (if c =? Memory_4Gb then Memory_6Gb else Memory_4Gb) v) s
  | _ => s
  end.

(** main.cpp 609-633, settings screen in edit mode. *)
Definition on_editing (b : Buttons) : M unit :=
  when_ (fun _ => b_btn b || a_btn b) (modify (set_editing false));;
  when_ (fun _ => up b || down b || lb b || rb b) (modify (edit_value b)).

(** main.cpp 520-637. *)
Definition HandleInput (e : Env) : M unit :=
  fun s =>
  let currentTime := GetTickCount64 e in
  let b := poll e in
  let currentMask := mask_of b in
  let '(execute, s) := decode currentMask currentTime s in
  if negb execute then Done tt s [] else
  if any_connected b then
    match g_AppState s with
    | GameList => on_game_list e b s
    | Settings =>
        if negb (g_IsEditingSetting s) then on_settings e b s
        else on_editing b s
    | Running => Done tt s []
    end
  else Done tt s [].

(** The values of the globals at their definition, main.cpp 69-79; the
    settings are the ones the engine starts with. *)
Definition initial_state (v : SettingsValues) (stored : option wstring) : State := {|
  g_IsEditingSetting := false; g_AppState := GameList; g_CurrentTab := General;
  g_IsInstalling := false; g_InstallStatus := L "";
  g_UserGamePaths := []; g_Games := [];
  g_SelectedGameIndex := 0; g_SelectedSettingIndex := 0;
  g_NextInputTime := 0; g_LastInputMask := 0;
  g_EmuWindow := false; g_System := false; values := v;
  config_ini := stored |}.

(** main.cpp 692-693: the start of the process, up to the message loop. *)
Definition startup (e : Env) (v : SettingsValues) (stored : option wstring) : Outcome unit :=
  ScanGames e (LoadSettings e (initial_state v stored)).

(** The message loop calling [HandleInput] tick after tick, each with what
    the outside shows at that tick; a fault ends the run. *)
Fixpoint run (ticks : list Env) (s : State) : Outcome unit :=
  match ticks with
  | [] => Done tt s []
  | e :: rest =>
      match HandleInput e s with
      | Done _ s' log =>
          match run rest s' with
          | Done _ s'' log' => Done tt s'' (log ++ log')
          | Failed f => Failed f
          end
      | Failed f => Failed f
      end
  end.

(** ** Notions the properties are stated with *)

(** The decoder alone, run over the ticks' masks and clock readings: for
    each tick, whether it executes. *)
Fixpoint fires (ticks : list (Z * Z)) (s : State) : list bool :=
  match ticks with
  | [] => []
  | (currentMask, currentTime) :: rest =>
      let (execute, s') := decode currentMask currentTime s in
      execute :: fires rest s'
  end.

(** A clock reading to which the decoder can add its delay without
    wrapping around. *)
Definition clock_ok (t : Z) : Prop := 0 <= t /\ t + 400 < 2 ^ 64.

(** Whether the tick executes in state [s]. *)
Definition executes (e : Env) (s : State) : bool :=
  fst (decode (mask_of (poll e)) (GetTickCount64 e) s).

(** The selected row is one of the rows of the current tab. *)
Definition row_in_range (s : State) : Prop :=
  0 <= g_SelectedSettingIndex s < limit (g_CurrentTab s).

(** The selected row is one of the rows of the current tab, or row 0 when
    the tab has none. *)
Definition row_settled (s : State) : Prop :=
  0 <= g_SelectedSettingIndex s < Z.max 1 (limit (g_CurrentTab s)).

(** With a non-empty library, the selected index is one of its entries. *)
Definition index_in_range (s : State) : Prop :=
  g_Games s <> [] -> 0 <= g_SelectedGameIndex s < Z.of_nat (length (g_Games s)).

(** No tick of the run makes the game list so much shorter that it ends at
    or before the selected index. *)
Fixpoint index_survives (ticks : list Env) (s : State) : Prop :=
  match ticks with
  | [] => True
  | e :: rest =>
      match HandleInput e s with
      | Done _ s' _ =>
          ((length (g_Games s) <= length (g_Games s'))%nat \/
           g_SelectedGameIndex s' < Z.of_nat (length (g_Games s'))) /\
          index_survives rest s'
      | Failed _ => True
      end
  end.

(** A tree the iterator walks without an exception. *)
Fixpoint readable (n : node) : bool :=
  match n with
  | Locked _ => false
  | Dir _ children => forallb readable children
  | _ => true
  end.

(** [regular_file_in parent children p]: [p] is the path of a regular file
    of the tree [children] standing at [parent], at any depth. *)
Inductive regular_file_in : path -> list node -> path -> Prop :=
| file_here parent children f :
    In (File f) children ->
    regular_file_in parent children (path_join parent f)
| file_below parent children d sub p :
    In (Dir d sub) children ->
    regular_file_in (path_join parent d) sub p ->
    regular_file_in parent children p.

(** Equality of two characters up to the case of an ASCII letter, and of
    two strings character by character. *)
Definition same_letter (a b : wchar) : Prop :=
  a = b \/ (65 <= a <= 90 /\ b = a + 32) \/ (65 <= b <= 90 /\ a = b + 32).

Definition equal_ignoring_case (s t : wstring) : Prop := Forall2 same_letter s t.

Definition recognized_extension (ext : wstring) : Prop :=
  equal_ignoring_case ext (L ".nsp") \/ equal_ignoring_case ext (L ".xci").

(** The firmware folder is absent, or is a directory none of whose entries
    has the extension [.nca]. *)
Definition no_firmware (e : Env) : Prop :=
  fs_at e (nand_path e) = None \/
  exists children,
    fs_at e (nand_path e) = Some (FsDir children) /\
    Forall (fun n => extension (path_join (nand_path e) (node_name n)) <> L ".nca") children.

(** [infix_of p m]: the text [m] contains [p]. *)
Definition infix_of (p m : wstring) : Prop := exists pre post, m = pre ++ p ++ post.

Definition fits_int (z : Z) : Prop := INT_MIN <= z <= INT_MAX.

(** A search path the configuration file can hold on a line of its own:
    no line feed in it, no blank at either end. *)
Definition storable (p : path) : Prop := ~ In 10 p /\ Trim p = p.

(** A state as a fresh process has it before [LoadSettings]: the globals at
    their initial values, the settings at the defaults [v0], and the file a
    save left. *)
Definition fresh_state (v0 : SettingsValues) (saved : State) : State :=
  initial_state v0 (config_ini saved).

(** ** Notions the proofs are organised with *)

(** [triple F I c]: from a state in [I], [c] ends in [I] or faults with a
    fault in [F]. *)
Definition triple (F : Fault -> Prop) (I : State -> Prop) {A} (c : M A) : Prop :=
  forall s, I s -> match c s with Done _ s' _ => I s' | Failed f => F f end.

Definition no_out_of_bounds (f : Fault) : Prop := f <> OutOfBounds.

(** The globals after the engine objects are made and the core options
    set, main.cpp 483-489. *)
Definition booted (s : State) : State :=
  set_values (with_core_configuration (values s)) (set_engine_objects s).

(** The game list is [G] and the selected index is on one of its entries,
    or is 0. *)
Definition index_within (G : list Game) (s : State) : Prop :=
  g_Games s = G /\ 0 <= g_SelectedGameIndex s /\
  (g_SelectedGameIndex s = 0 \/ g_SelectedGameIndex s < Z.of_nat (length G)).

(** A string that is empty or does not start with a blank. *)
Definition starts_clean (s : wstring) : Prop :=
  match s with
  | [] => True
  | c :: _ => is_blank c = false
  end.

(** The accumulation of [wtoi_digits] over a string of digits. *)
Definition digits_value (acc : Z) (ds : wstring) : Z :=
  fold_left (fun a c => 10 * a + (c - 48)) ds acc.

(** ** Sample data *)

Definition default_values : SettingsValues := {|
  language_index := 1; region_index := 1;
  custom_rtc_enabled := false; use_multi_core := true;
  memory_layout_mode := Memory_4Gb; renderer_backend := DefaultBackend;
  use_disk_shader_cache := false; use_asynchronous_gpu_emulation := false |}.

(** One controller in slot 0 with the given button word, stick centred. *)
Definition one_pad (btns : Z) : Z -> option Gamepad :=
  fun i => if i =? 0 then Some {| wButtons := btns; sThumbLY := 0 |} else None.

Definition user_root : path := L "C:\Users\u\AppData\Local\Citron\user".

(** The tree of the specification's scan example. *)
Definition sample_tree : list node :=
  [File (L "a.nsp"); File (L "b.NSP"); File (L "c.txt"); Dir (L "sub") [File (L "d.xci")]].

(** A file system with [D:\Games] and nothing else. *)
Definition fs_of (games : list node) (p : path) : option fsobj :=
  if wstring_eqb p (L "D:\Games") then Some (FsDir games) else None.

(** A tick: buttons, clock, the content of [D:\Games], the folder the
    picker returns. *)
Definition tick (btns time : Z) (games : list node) (picked : option wstring) : Env := {|
  XInputGetState := one_pad btns;
  GetTickCount64 := time;
  GetUserDirectory := user_root;
  fs_at := fs_of games;
  config_opens := true;
  picked_folder := picked;
  engine := LoadSucceeded |}.

(** A tick of a machine that has the key file and an empty firmware
    folder. *)
Definition fs_with_keys (p : path) : option fsobj :=
  if wstring_eqb p (path_join user_root (L "keys/prod.keys")) then Some FsFile
  else if wstring_eqb p (path_join user_root (L "nand/system/Contents/registered"))
       then Some (FsDir [])
  else fs_of sample_tree p.

Definition tick_with_keys (btns time : Z) : Env := {|
  XInputGetState := one_pad btns;
  GetTickCount64 := time;
  GetUserDirectory := user_root;
  fs_at := fs_with_keys;
  config_opens := true;
  picked_folder := None;
  engine := LoadSucceeded |}.

(** A tick of a machine whose configuration file cannot be opened. *)
Definition tick_locked_config : Env := {|
  XInputGetState := one_pad 0;
  GetTickCount64 := 0;
  GetUserDirectory := user_root;
  fs_at := fs_of sample_tree;
  config_opens := false;
  picked_folder := None;
  engine := LoadSucceeded |}.

(** The state the samples start from, and the state after some ticks. *)
Definition sample_start : State :=
  match startup (tick 0 0 sample_tree None) default_values None with
  | Done _ s _ => s
  | Failed _ => initial_state default_values None
  end.

Definition state_after (ticks : list Env) : State :=
  match run ticks sample_start with
  | Done _ s _ => s
  | Failed _ => sample_start
  end.

(** Menu, TabNext, Confirm: the System tab, row 0, in edit mode. *)
Definition editing_language : State :=
  state_after [tick 0x10 1000 sample_tree None; tick 0x200 2000 sample_tree None;
               tick 0x1000 3000 sample_tree None].



(** Menu, then MoveDown three times: the General tab, row 3. *)
Definition general_row_3 : State :=
  state_after [tick 0x10 1000 sample_tree None; tick 0x2 2000 sample_tree None;
               tick 0x2 3000 sample_tree None; tick 0x2 4000 sample_tree None].

(** Settings and search paths to save: multicore on, the second memory
    layout, one path twice. *)
Definition sample_settings : State :=
  set_user_game_paths [L "E:\Roms"; L "C:\My Games"; L "E:\Roms"]
    (set_values (with_memory_layout Memory_6Gb (with_multi_core true default_values))
       sample_start).

(** A search path that ends with a space. *)
Definition sample_padded_path : State := set_user_game_paths [L "E:\Roms "] sample_start.

(** ** Drawing the library

    main.cpp 347-349: the window of the game list that is drawn, for a
    client area [height] pixels high. *)
Definition visibleItems (height : Z) : Z := Z.quot (wrap_int (height - 100)) 40.

Definition startIdx (height : Z) (s : State) : Z :=
  Z.max 0 (wrap_int (g_SelectedGameIndex s - Z.quot (visibleItems height) 2)).

Definition endIdx (height : Z) (s : State) : Z :=
  Z.min (games_size s) (wrap_int (startIdx height s + visibleItems height)).

(** A row of the list as drawn: its text, and whether it is drawn with
    the brushes of the selected row. *)
Record Row := { row_text : wstring; row_selected : bool }.

(** main.cpp 355-365, [n] turns of the loop from index [i]: the rows
    drawn, top to bottom; [None] when [g_Games[i]] is read outside the
    vector. *)
Fixpoint draw_rows (n : nat) (i : Z) (s : State) : option (list Row) :=
  match n with
  | O => Some []
  | S n' =>
      if i <? 0 then None else
      match nth_error (g_Games s) (Z.to_nat i) with
      | None => None
      | Some g =>
          match draw_rows n' (i + 1) s with
          | None => None
          | Some rows =>
              Some ({| row_text := name g; row_selected := i =? g_SelectedGameIndex s |} :: rows)
          end
      end
  end.

(** The loop runs from [startIdx] while [i < endIdx]. *)
Definition draw_game_list (height : Z) (s : State) : option (list Row) :=
  draw_rows (Z.to_nat (endIdx height s - startIdx height s)) (startIdx height s) s.

(** ** Window procedure

    main.cpp 639-660.  The messages the procedure tells apart; painting
    draws from the globals and changes none. *)
Inductive Message := WM_PAINT | WM_ERASEBKGND | WM_DESTROY | OtherMessage (uMsg : Z).

(** The globals after the message, the procedure's result ([None]: what
    [DefWindowProc] returns) and whether [PostQuitMessage] was called. *)
Record Handled := { globals : State; result : option Z; quit_posted : bool }.

Definition WindowProc (e : Env) (uMsg : Message) (s : State) : Handled :=
  match uMsg with
  | WM_PAINT => {| globals := s; result := Some 0; quit_posted := false |}
  | WM_ERASEBKGND => {| globals := s; result := Some 1; quit_posted := false |}
  | WM_DESTROY => {| globals := SaveSettings e s; result := Some 0; quit_posted := true |}
  | OtherMessage _ => {| globals := s; result := None; quit_posted := false |}
  end.

(** ** Further notions the properties are stated with *)

(** [a < b], [a <= b] and [a == b] on paths, as [std::sort] and
    [std::unique] compare them. *)
Definition path_lt (a b : path) : Prop := path_compare a b = Lt.
Definition path_le (a b : path) : Prop := path_compare b a <> Lt.
Definition path_eq (a b : path) : Prop := path_compare a b = Eq.

(** No two entries of the list are equal paths. *)
Definition distinct_paths (l : list path) : Prop :=
  ForallOrdPairs (fun p q => ~ path_eq p q) l.

(** Every status query of the tick is answered. *)
Definition statuses_known (e : Env) : Prop := forall p, fs_at e p <> Some NoStatus.

(** [s'] differs from [s] at most in the five stored settings and the
    list of search paths. *)
Definition only_settings_differ (s s' : State) : Prop :=
  g_IsEditingSetting s' = g_IsEditingSetting s /\ g_AppState s' = g_AppState s /\
  g_CurrentTab s' = g_CurrentTab s /\ g_IsInstalling s' = g_IsInstalling s /\
  g_InstallStatus s' = g_InstallStatus s /\ g_Games s' = g_Games s /\
  g_SelectedGameIndex s' = g_SelectedGameIndex s /\
  g_SelectedSettingIndex s' = g_SelectedSettingIndex s /\
  g_NextInputTime s' = g_NextInputTime s /\ g_LastInputMask s' = g_LastInputMask s /\
  g_EmuWindow s' = g_EmuWindow s /\ g_System s' = g_System s /\
  config_ini s' = config_ini s /\
  renderer_backend (values s') = renderer_backend (values s) /\
  use_disk_shader_cache (values s') = use_disk_shader_cache (values s) /\
  use_asynchronous_gpu_emulation (values s') = use_asynchronous_gpu_emulation (values s).

(** The folder [X:\Games] of a drive letter, main.cpp 170. *)
Definition drive_root (letter : wchar) : path := [letter] ++ L ":\Games".

(** The paths whose status a scan asks for, main.cpp 161, 171 and 175:
    [D:\Games], the user's paths, and the folder of every drive letter
    from E to Z. *)
Definition queried (s : State) (p : path) : Prop :=
  p = L "D:\Games" \/ In p (g_UserGamePaths s) \/
  exists letter, 69 <= letter <= 90 /\ p = drive_root letter.

(** The globals after the decoder's part of a tick, main.cpp 550-560. *)
Definition decoded (e : Env) (s : State) : State :=
  snd (decode (mask_of (poll e)) (GetTickCount64 e) s).

(** ** The statements of the two screens, one by one *)

(** The moves of main.cpp 579-595 on the settings screen, one statement
    each, and the globals after all of them, before Confirm is looked at. *)
Definition leave_settings (e : Env) (b : Buttons) (s : State) : State :=
  if b_btn b || start b then SaveSettings e (set_app_state GameList s) else s.

Definition tab_left (b : Buttons) (s : State) : State :=
  if lb b then
    set_setting_index 0
      (set_tab (tab_of_index (let t := tab_index (g_CurrentTab s) - 1 in
                              if t <? 0 then 4 else t)) s)
  else s.

Definition tab_right (b : Buttons) (s : State) : State :=
  if rb b then
    set_setting_index 0
      (set_tab (tab_of_index (let t := tab_index (g_CurrentTab s) + 1 in
                              if t >? 4 then 0 else t)) s)
  else s.

Definition row_up (b : Buttons) (s : State) : State :=
  if up b && (g_SelectedSettingIndex s >? 0)
  then set_setting_index (g_SelectedSettingIndex s - 1) s else s.

Definition row_down (b : Buttons) (s : State) : State :=
  if down b && (g_SelectedSettingIndex s <? limit (g_CurrentTab s) - 1)
  then set_setting_index (g_SelectedSettingIndex s + 1) s else s.

Definition settings_moves (e : Env) (b : Buttons) (s : State) : State :=
  row_down b (row_up b (tab_right b (tab_left b (leave_settings e b s)))).

(** main.cpp 598-606: what Confirm does on the settings screen. *)
Definition settings_confirm (e : Env) : M unit :=
  tab <- gets g_CurrentTab;;
  match tab with
  | General =>
      when_ (fun s => g_SelectedSettingIndex s =? 0)
        (InstallFiles e (L "Select Keys Folder") (L "keys"));;
      when_ (fun s => g_SelectedSettingIndex s =? 1)
        (InstallFiles e (L "Select Firmware Folder") (L "nand/system/Contents/registered"));;
      when_ (fun s => g_SelectedSettingIndex s =? 2)
        (InstallFiles e (L "Add Game Directory") (L ""))
  | System =>
      when_ (fun s => editable_row (g_SelectedSettingIndex s))
        (modify (set_editing true))
  | _ => ret tt
  end.

(** The moves of main.cpp 566-574 on the library screen, and the globals
    after them, before Confirm is looked at. *)
Definition open_settings (b : Buttons) (s : State) : State :=
  if start b then set_setting_index 0 (set_tab General (set_app_state Settings s)) else s.

Definition game_up (b : Buttons) (s : State) : State :=
  if up b && (g_SelectedGameIndex s >? 0)
  then set_game_index (g_SelectedGameIndex s - 1) s else s.

Definition game_down (b : Buttons) (s : State) : State :=
  if down b && (g_SelectedGameIndex s <? games_size s - 1)
  then set_game_index (g_SelectedGameIndex s + 1) s else s.

Definition library_moves (b : Buttons) (s : State) : State :=
  let s := open_settings b s in
  match g_Games s with
  | [] => s
  | _ => game_down b (game_up b s)
  end.

(** main.cpp 575: Confirm on the library screen. *)
Definition library_confirm (e : Env) (b : Buttons) : M unit :=
  when_ (fun s => negb (match g_Games s with [] => true | _ => false end))
    (when_ (fun s => a_btn b && (g_SelectedGameIndex s >=? 0))
       (game <- selected_game;; StartGame e game)).

(** ** Further sample data *)

(** A machine whose only games folder is [E:\Games]: one game, then a
    directory that cannot be listed, then another game. *)
Definition fs_drive_E (p : path) : option fsobj :=
  if wstring_eqb p (L "E:\Games")
  then Some (FsDir [File (L "a.nsp"); Locked (L "System Volume Information"); File (L "b.nsp")])
  else None.

Definition tick_drive_E : Env := {|
  XInputGetState := one_pad 0;
  GetTickCount64 := 0;
  GetUserDirectory := user_root;
  fs_at := fs_drive_E;
  config_opens := true;
  picked_folder := None;
  engine := LoadSucceeded |}.

(** The sample machine with a drive F whose status cannot be read, as
    with a card reader that has no card in it. *)
Definition fs_drive_F_fails (p : path) : option fsobj :=
  if wstring_eqb (firstn 2 p) (L "F:") then Some NoStatus else fs_of sample_tree p.

Definition tick_drive_F_fails (btns time : Z) (picked : option wstring) : Env := {|
  XInputGetState := one_pad btns;
  GetTickCount64 := time;
  GetUserDirectory := user_root;
  fs_at := fs_drive_F_fails;
  config_opens := true;
  picked_folder := picked;
  engine := LoadSucceeded |}.

(** * Properties *)

(** ** Input decoder *)

Lemma wrap_u64_small z : 0 <= z < 2 ^ 64 -> wrap_u64 z = z.
Proof. intros H. unfold wrap_u64. now apply Z.mod_small. Qed.

Lemma decode_last_mask m t s : g_LastInputMask (snd (decode m t s)) = m.
Proof.
  unfold decode.
  destruct (negb (m =? 0)); [destruct (negb (m =? g_LastInputMask s));
    [|destruct (g_NextInputTime s <=? t)]|]; reflexivity.
Qed.

Lemma decode_zero_mask t s : fst (decode 0 t s) = false.
Proof. reflexivity. Qed.

(** A tick whose mask differs from the last one executes and arms the long
    delay. *)
Lemma decode_fresh m t s :
  m <> 0 -> g_LastInputMask s <> m ->
  fst (decode m t s) = true /\
  (clock_ok t -> g_NextInputTime (snd (decode m t s)) = t + 400).
Proof.
  intros Hm Hl. unfold decode.
  destruct (Z.eqb_spec m 0) as [|_]; [contradiction|].
  destruct (Z.eqb_spec m (g_LastInputMask s)) as [E|_]; [congruence|].
  cbn. split; [reflexivity|]. intros [H0 H1]. apply wrap_u64_small. lia.
Qed.

(** A tick whose mask is the last one executes exactly when the armed time
    has come, and then arms the short delay. *)
Lemma decode_held m t s :
  m <> 0 -> g_LastInputMask s = m -> clock_ok t ->
  (fst (decode m t s) = true ->
     g_NextInputTime s <= t /\ g_NextInputTime (snd (decode m t s)) = t + 50) /\
  (fst (decode m t s) = false ->
     g_NextInputTime (snd (decode m t s)) = g_NextInputTime s).
Proof.
  intros Hm Hl [H0 H1]. unfold decode.
  destruct (Z.eqb_spec m 0) as [|_]; [contradiction|].
  destruct (Z.eqb_spec m (g_LastInputMask s)) as [_|N]; [|congruence].
  cbn. destruct (Z.leb_spec (g_NextInputTime s) t); cbn.
  - split; [intros _|discriminate]. split; [lia|]. apply wrap_u64_small. lia.
  - split; [discriminate|reflexivity].
Qed.

Lemma fires_cons m t rest s :
  fires ((m, t) :: rest) s = fst (decode m t s) :: fires rest (snd (decode m t s)).
Proof. cbn [fires]. destruct (decode m t s); reflexivity. Qed.

Lemma fires_app l1 : forall l2 s,
  exists s', fires (l1 ++ l2) s = fires l1 s ++ fires l2 s'.
Proof.
  induction l1 as [|[m t] l1 IH]; intros l2 s.
  - exists s. reflexivity.
  - destruct (IH l2 (snd (decode m t s))) as [s' E]. exists s'.
    rewrite <- app_comm_cons, !fires_cons, E. reflexivity.
Qed.

Lemma fires_length l : forall s, length (fires l s) = length l.
Proof.
  induction l as [|[m t] l IH]; intros s; [reflexivity|].
  rewrite fires_cons. cbn. now rewrite IH.
Qed.

(** While a mask is held, no tick executes before the armed time. *)
Lemma held_not_before m : forall ts s j,
  m <> 0 -> g_LastInputMask s = m -> Forall clock_ok ts ->
  nth j (fires (map (fun t => (m, t)) ts) s) false = true ->
  g_NextInputTime s <= nth j ts 0.
Proof.
  induction ts as [|t ts IH]; intros s j Hm Hl Hts Hf.
  - destruct j; discriminate.
  - cbn [map] in Hf. rewrite fires_cons in Hf.
    pose proof (Forall_inv Hts) as Ht. pose proof (Forall_inv_tail Hts) as Hts'.
    destruct (decode_held m t s Hm Hl Ht) as [Hyes Hno].
    destruct j as [|j]; cbn [nth] in *.
    + now apply Hyes.
    + specialize (IH (snd (decode m t s)) j Hm (decode_last_mask m t s) Hts' Hf).
      destruct (fst (decode m t s)) eqn:E.
      * destruct (Hyes eq_refl) as [? En]. rewrite En in IH.
        pose proof (IH). lia.
      * rewrite (Hno eq_refl) in IH. exact IH.
Qed.

(** While a mask is held, two executing ticks are 50 ms apart or more. *)
Lemma held_spacing m : forall ts s i j,
  m <> 0 -> g_LastInputMask s = m -> Forall clock_ok ts -> (i < j)%nat ->
  nth i (fires (map (fun t => (m, t)) ts) s) false = true ->
  nth j (fires (map (fun t => (m, t)) ts) s) false = true ->
  nth i ts 0 + 50 <= nth j ts 0.
Proof.
  induction ts as [|t ts IH]; intros s i j Hm Hl Hts Hij Hi Hj.
  - destruct i; discriminate.
  - cbn [map] in Hi, Hj. rewrite fires_cons in Hi, Hj.
    pose proof (Forall_inv Hts) as Ht. pose proof (Forall_inv_tail Hts) as Hts'.
    destruct j as [|j]; [lia|]. cbn [nth] in Hj |- *.
    destruct i as [|i]; cbn [nth] in Hi |- *.
    + destruct (decode_held m t s Hm Hl Ht) as [Hyes _].
      destruct (Hyes Hi) as [_ En].
      pose proof (held_not_before m ts _ j Hm (decode_last_mask m t s) Hts' Hj) as B.
      rewrite En in B. exact B.
    + apply (IH (snd (decode m t s)) i j); auto using decode_last_mask. lia.
Qed.

Lemma fires_zero_mask : forall ticks s k t,
  nth_error ticks k = Some (0, t) -> nth k (fires ticks s) true = false.
Proof.
  induction ticks as [|[m t'] ticks IH]; intros s k t Hk.
  - destruct k; discriminate.
  - rewrite fires_cons. destruct k as [|k]; cbn in Hk |- *.
    + injection Hk as -> _. reflexivity.
    + eauto.
Qed.

(** A tick whose mask is the last one executes exactly when the armed time
    has come. *)
Lemma decode_held_exact m t s :
  m <> 0 -> g_LastInputMask s = m ->
  fst (decode m t s) = (g_NextInputTime s <=? t).
Proof.
  intros Hm Hl. unfold decode.
  destruct (Z.eqb_spec m 0) as [|_]; [contradiction|].
  destruct (Z.eqb_spec m (g_LastInputMask s)) as [_|N]; [|congruence].
  cbn. destruct (g_NextInputTime s <=? t); reflexivity.
Qed.

(** While a mask is held and no tick has executed since the time was
    armed, the next tick executes exactly when that time has come. *)
Lemma held_exact m : forall ts s j,
  m <> 0 -> g_LastInputMask s = m -> Forall clock_ok ts -> (j < length ts)%nat ->
  (forall k, (k < j)%nat -> nth k (fires (map (fun t => (m, t)) ts) s) false = false) ->
  nth j (fires (map (fun t => (m, t)) ts) s) false = (g_NextInputTime s <=? nth j ts 0).
Proof.
  induction ts as [|t ts IH]; intros s j Hm Hl Hts Hj Hq; [cbn in Hj; lia|].
  cbn [map] in *. rewrite fires_cons in *.
  pose proof (Forall_inv Hts) as Ht. pose proof (Forall_inv_tail Hts) as Hts'.
  destruct j as [|j]; cbn [nth].
  - now apply decode_held_exact.
  - destruct (decode_held m t s Hm Hl Ht) as [_ Hno].
    rewrite <- (Hno (Hq 0%nat ltac:(lia))).
    apply IH; auto using decode_last_mask; [cbn in Hj; lia|].
    intros k Hk. apply (Hq (S k)). lia.
Qed.

(** While a mask is held, after an executing tick the next tick to execute
    is the first one 50 ms later or more. *)
Lemma held_next m : forall ts s i j,
  m <> 0 -> g_LastInputMask s = m -> Forall clock_ok ts ->
  (i < j)%nat -> (j < length ts)%nat ->
  nth i (fires (map (fun t => (m, t)) ts) s) false = true ->
  (forall k, (i < k < j)%nat -> nth k (fires (map (fun t => (m, t)) ts) s) false = false) ->
  nth j (fires (map (fun t => (m, t)) ts) s) false = (nth i ts 0 + 50 <=? nth j ts 0).
Proof.
  induction ts as [|t ts IH]; intros s i j Hm Hl Hts Hij Hj Hi Hq; [cbn in Hj; lia|].
  cbn [map] in *. rewrite fires_cons in *.
  pose proof (Forall_inv Hts) as Ht. pose proof (Forall_inv_tail Hts) as Hts'.
  destruct j as [|j]; [lia|]. cbn [length] in Hj. cbn [nth].
  destruct i as [|i]; cbn [nth] in Hi |- *.
  - destruct (decode_held m t s Hm Hl Ht) as [Hyes _].
    destruct (Hyes Hi) as [_ En]. rewrite <- En.
    apply held_exact; auto using decode_last_mask; [lia|].
    intros k Hk. apply (Hq (S k)). lia.
  - apply IH; auto using decode_last_mask; [lia|lia|].
    intros k Hk. apply (Hq (S k)). lia.
Qed.

(** While a mask is held, a tick executes at the armed time at the
    latest: by the first tick that reads it or a later time. *)
Lemma held_fires_by m : forall ts s j,
  m <> 0 -> g_LastInputMask s = m -> Forall clock_ok ts -> (j < length ts)%nat ->
  g_NextInputTime s <= nth j ts 0 ->
  exists k, (k <= j)%nat /\ nth k (fires (map (fun t => (m, t)) ts) s) false = true.
Proof.
  induction ts as [|t ts IH]; intros s j Hm Hl Hts Hj Hn; [cbn in Hj; lia|].
  cbn [map]. rewrite fires_cons.
  pose proof (Forall_inv Hts) as Ht. pose proof (Forall_inv_tail Hts) as Hts'.
  destruct (fst (decode m t s)) eqn:E.
  - exists 0%nat. split; [lia|reflexivity].
  - destruct j as [|j]; cbn [nth length] in *.
    + rewrite (decode_held_exact m t s Hm Hl) in E.
      apply Z.leb_gt in E. lia.
    + destruct (decode_held m t s Hm Hl Ht) as [_ Hno].
      destruct (IH (snd (decode m t s)) j) as (k & Hk & Hf);
        auto using decode_last_mask; [lia|rewrite (Hno E); exact Hn|].
      exists (S k). split; [lia|exact Hf].
Qed.

(** While a mask is held, an executing tick is followed by another one 50
    ms later at the latest. *)
Lemma held_fires_again m : forall ts s i j,
  m <> 0 -> g_LastInputMask s = m -> Forall clock_ok ts ->
  (i < j)%nat -> (j < length ts)%nat ->
  nth i (fires (map (fun t => (m, t)) ts) s) false = true ->
  nth i ts 0 + 50 <= nth j ts 0 ->
  exists k, (i < k <= j)%nat /\ nth k (fires (map (fun t => (m, t)) ts) s) false = true.
Proof.
  induction ts as [|t ts IH]; intros s i j Hm Hl Hts Hij Hj Hi Hn; [cbn in Hj; lia|].
  cbn [map] in *. rewrite fires_cons in *.
  pose proof (Forall_inv Hts) as Ht. pose proof (Forall_inv_tail Hts) as Hts'.
  destruct j as [|j]; [lia|]. cbn [length] in Hj. cbn [nth] in Hn.
  destruct i as [|i]; cbn [nth] in Hi, Hn.
  - destruct (decode_held m t s Hm Hl Ht) as [Hyes _].
    destruct (Hyes Hi) as [_ En].
    destruct (held_fires_by m ts (snd (decode m t s)) j) as (k & Hk & Hf);
      auto using decode_last_mask; [lia|rewrite En; exact Hn|].
    exists (S k). split; [lia|exact Hf].
  - destruct (IH (snd (decode m t s)) i j) as (k & Hk & Hf);
      auto using decode_last_mask; [lia|lia|].
    exists (S k). split; [lia|exact Hf].
Qed.

(** C3. A button mask that becomes non-zero at tick 0 and is then held:
    tick 0 executes.  No later tick executes before 400 ms have passed
    since tick 0, and the held mask does execute again: the first later
    tick executes exactly if it reads 400 ms or more after tick 0, and so
    does every later tick before which none has executed again, so that
    a tick has executed again by the time one reads 400 ms or more.
    Two later executing ticks are at least 50 ms apart, and the repeats go
    on: after an executing tick, the next tick executes exactly if it
    reads 50 ms or more after that one, and so does every tick up to the
    next one that executes, so that a tick has executed again by the time
    one reads 50 ms or more after it.  Whatever ticks follow, one whose
    mask is zero does not execute.  For the two delays the clock readings
    are those to which a delay can be added without wrapping the 64-bit
    counter around. *)
Theorem held_button_repeats :
  forall (m t0 : Z) (later : list Z) (after : list (Z * Z)) (s : State),
    m <> 0 -> g_LastInputMask s = 0 ->
    let times := t0 :: later in
    let held := map (fun t => (m, t)) times in
    let fs := fires (held ++ after) s in
    nth 0 fs false = true /\
    (Forall clock_ok times ->
       (forall i, (0 < i < length times)%nat -> nth i fs false = true ->
          t0 + 400 <= nth i times 0) /\
       (forall i j, (0 < i < j)%nat -> (j < length times)%nat ->
          nth i fs false = true -> nth j fs false = true ->
          nth i times 0 + 50 <= nth j times 0) /\
       (forall i, (0 < i < length times)%nat ->
          (forall k, (0 < k < i)%nat -> nth k fs false = false) ->
          nth i fs false = (t0 + 400 <=? nth i times 0)) /\
       (forall i, (0 < i < length times)%nat -> t0 + 400 <= nth i times 0 ->
          exists k, (0 < k <= i)%nat /\ nth k fs false = true) /\
       (forall i j, (0 < i < j)%nat -> (j < length times)%nat ->
          nth i fs false = true ->
          (forall k, (i < k < j)%nat -> nth k fs false = false) ->
          nth j fs false = (nth i times 0 + 50 <=? nth j times 0)) /\
       (forall i j, (0 < i < j)%nat -> (j < length times)%nat ->
          nth i fs false = true -> nth i times 0 + 50 <= nth j times 0 ->
          exists k, (i < k <= j)%nat /\ nth k fs false = true)) /\
    (forall k t, nth_error (held ++ after) k = Some (0, t) -> nth k fs true = false).
Proof.
  intros m t0 later after s Hm Hl times held fs.
  assert (Hfs : forall i, (i < length times)%nat ->
             nth i fs false = nth i (fires held s) false).
  { intros i Hi. subst fs. destruct (fires_app held after s) as [s' ->].
    apply app_nth1. rewrite fires_length. subst held. now rewrite length_map. }
  assert (Hne : g_LastInputMask s <> m) by congruence.
  destruct (decode_fresh m t0 s Hm Hne) as [Hfire Hnext].
  pose proof (decode_last_mask m t0 s) as Hlast.
  assert (Hheld : fires held s = true :: fires (map (fun t => (m, t)) later) (snd (decode m t0 s))).
  { subst held times. cbn [map]. rewrite fires_cons, Hfire. reflexivity. }
  assert (Hlen : length times = S (length later)) by reflexivity.
  split; [|split].
  - rewrite Hfs by (cbn; lia). now rewrite Hheld.
  - intros Hts.
    pose proof (Forall_inv Hts) as Ht0. pose proof (Forall_inv_tail Hts) as Hlater.
    specialize (Hnext Ht0). repeat apply conj.
    + intros i [Hi0 Hi] Hf. rewrite Hfs in Hf by exact Hi. rewrite Hheld in Hf.
      destruct i as [|i]; [lia|]. cbn [nth] in Hf |- *.
      rewrite <- Hnext. now apply (held_not_before m later _ i).
    + intros i j [Hi0 Hij] Hj Hfi Hfj.
      rewrite Hfs in Hfi by lia. rewrite Hfs in Hfj by lia.
      rewrite Hheld in Hfi, Hfj.
      destruct i as [|i]; [lia|]. destruct j as [|j]; [lia|]. cbn [nth] in *.
      apply (held_spacing m later (snd (decode m t0 s)) i j); auto. lia.
    + intros i [Hi0 Hi] Hq. rewrite Hfs by exact Hi. rewrite Hheld.
      destruct i as [|i]; [lia|]. cbn [nth]. rewrite <- Hnext.
      apply (held_exact m later (snd (decode m t0 s)) i); auto; [lia|].
      intros k Hk. specialize (Hq (S k) ltac:(lia)).
      rewrite Hfs in Hq by lia. rewrite Hheld in Hq. exact Hq.
    + intros i [Hi0 Hi] Hn. destruct i as [|i]; [lia|]. cbn [nth] in Hn.
      destruct (held_fires_by m later (snd (decode m t0 s)) i) as (k & Hk & Hf);
        auto; [lia|rewrite Hnext; exact Hn|].
      exists (S k). split; [lia|]. rewrite Hfs by lia. rewrite Hheld. exact Hf.
    + intros i j [Hi0 Hij] Hj Hfi Hq.
      rewrite Hfs in Hfi by lia. rewrite Hfs by lia. rewrite Hheld in Hfi |- *.
      destruct i as [|i]; [lia|]. destruct j as [|j]; [lia|]. cbn [nth] in *.
      apply (held_next m later (snd (decode m t0 s)) i j); auto; [lia|lia|].
      intros k Hk. specialize (Hq (S k) ltac:(lia)).
      rewrite Hfs in Hq by lia. rewrite Hheld in Hq. exact Hq.
    + intros i j [Hi0 Hij] Hj Hfi Hn.
      rewrite Hfs in Hfi by lia. rewrite Hheld in Hfi.
      destruct i as [|i]; [lia|]. destruct j as [|j]; [lia|]. cbn [nth] in *.
      destruct (held_fires_again m later (snd (decode m t0 s)) i j) as (k & Hk & Hf);
        auto; [lia|lia|].
      exists (S k). split; [lia|]. rewrite Hfs by lia. rewrite Hheld. exact Hf.
  - intros k t Hk. subst fs. now apply (fires_zero_mask _ s k t).
Qed.

Lemma held_button_repeats_witness :
  let times := [1000; 1016; 1400; 1416; 1450; 1466] in
  let fs := fires (map (fun t => (2, t)) times ++ [(0, 1482)])
                  (initial_state default_values None) in
  fs = [true; false; true; false; true; false; false] /\
  1000 + 400 <= nth 2 times 0 /\ nth 2 times 0 + 50 <= nth 4 times 0 /\
  nth 2 fs false = (1000 + 400 <=? nth 2 times 0) /\
  (exists k, (2 < k <= 4)%nat /\ nth k fs false = true).
Proof.
  intros times fs. split; [reflexivity|].
  destruct (held_button_repeats 2 1000 [1016; 1400; 1416; 1450; 1466] [(0, 1482)]
              (initial_state default_values None)) as (_ & H & _).
  - lia.
  - reflexivity.
  - destruct H as (H400 & H50 & Hfirst & _ & _ & Hagain).
    + repeat constructor; unfold clock_ok; cbn; lia.
    + repeat apply conj.
      * apply H400; [cbn; lia|reflexivity].
      * apply H50; [lia|cbn; lia|reflexivity|reflexivity].
      * apply Hfirst; [cbn; lia|].
        intros k Hk. assert (k = 1%nat) as -> by lia. reflexivity.
      * apply Hagain; [lia|cbn; lia|reflexivity|cbn; lia].
Defined.

(** ** Reasoning about statements *)

Section Triples.
Variable F : Fault -> Prop.
Variable I : State -> Prop.

Lemma triple_ret {A} (a : A) : triple F I (ret a).
Proof. intros s H. exact H. Qed.

Lemma triple_gets {A} (f : State -> A) : triple F I (gets f).
Proof. intros s H. exact H. Qed.

Lemma triple_emit ev : triple F I (emit ev).
Proof. intros s H. exact H. Qed.

Lemma triple_modify f : (forall s, I s -> I (f s)) -> triple F I (modify f).
Proof. intros Hf s H. now apply Hf. Qed.

Lemma triple_bind {A B} (c : M A) (k : A -> M B) :
  triple F I c -> (forall a, triple F I (k a)) -> triple F I (bind c k).
Proof.
  intros Hc Hk s H. unfold bind. specialize (Hc s H).
  destruct (c s) as [a s' log|f]; [|exact Hc].
  specialize (Hk a s' Hc). destruct (k a s'); exact Hk.
Qed.

Lemma triple_when cond body :
  triple F (fun s => I s /\ cond s = true) body ->
  (forall s, I s /\ cond s = true -> I s) ->
  triple F I (when_ cond body).
Proof.
  intros Hb _ s H. unfold when_. destruct (cond s) eqn:E; [|exact H].
  specialize (Hb s (conj H E)). destruct (body s); [apply Hb|exact Hb].
Qed.

Lemma triple_when_modify cond f :
  (forall s, I s -> cond s = true -> I (f s)) -> triple F I (when_ cond (modify f)).
Proof.
  intros Hf s H. unfold when_, modify. destruct (cond s) eqn:E; [now apply Hf|exact H].
Qed.

Lemma triple_when_inv cond body : triple F I body -> triple F I (when_ cond body).
Proof.
  intros Hb s H. unfold when_. destruct (cond s); [now apply Hb|exact H].
Qed.
End Triples.

(** The scan ends by an exception no one catches, or replaces the list of
    games and nothing else. *)
Lemma ScanGames_cases e s :
  ScanGames e s = Failed UncaughtException \/
  (exists games, ScanGames e s = Done tt (set_games games s) []).
Proof.
  unfold ScanGames. destruct (search_paths e s) as [paths|]; [|now left].
  destruct (fold_throwing (scan_path e) paths []) as [games|]; [|now left].
  right. now exists games.
Qed.

(** The outcomes of the two statements that leave [HandleInput]. *)
Lemma InstallFiles_cases e title subPath s :
  InstallFiles e title subPath s = Done tt s [] \/
  (exists source dest, InstallFiles e title subPath s = Done tt s [ThreadDetached source dest]) \/
  (exists source,
     let saved := SaveSettings e (set_user_game_paths (g_UserGamePaths s ++ [source]) s) in
     (InstallFiles e title subPath s = Failed UncaughtException /\
      ScanGames e saved = Failed UncaughtException) \/
     (exists games,
        ScanGames e saved = Done tt (set_games games saved) [] /\
        InstallFiles e title subPath s =
        Done tt (set_games games saved)
             [MessageBoxW (L "Game Directory Saved!") (L "Citron")])).
Proof.
  unfold InstallFiles. destruct (g_IsInstalling s); [now left|].
  destruct (picked_folder e) as [source|]; [|now left].
  destruct (wstring_eqb title (L "Add Game Directory")).
  - right; right. exists source. cbv zeta. unfold bind, modify, emit.
    destruct (ScanGames_cases e
                (SaveSettings e (set_user_game_paths (g_UserGamePaths s ++ [source]) s)))
      as [E|[games E]]; rewrite E.
    + left. now split.
    + right. exists games. now split.
  - right; left. eexists _, _. reflexivity.
Qed.

Lemma StartGame_cases e game s :
  (exists msg, StartGame e game s = Done tt s [MessageBoxW msg (L "Missing Files")]) \/
  StartGame e game s = Failed UncaughtException \/
  (exists log, StartGame e game s = Done tt (booted s) log) \/
  (exists log, StartGame e game s = Done tt (set_app_state Running (booted s)) log).
Proof.
  unfold StartGame. destruct (fs_exists e (key_path e)) as [[|]|].
  2:{ left. eexists. reflexivity. }
  2:{ right; left. reflexivity. }
  assert (B : (exists log, boot e game s = Done tt (booted s) log) \/
              (exists log, boot e game s = Done tt (set_app_state Running (booted s)) log)).
  { unfold boot. destruct (engine e) as [|status|what].
    - right. unfold bind, modify, emit. cbn. eexists. reflexivity.
    - left. unfold bind, modify, emit. cbn. eexists. reflexivity.
    - left. unfold bind, modify, emit. cbn. eexists. reflexivity. }
  destruct (fs_at e (nand_path e)) as [[|children|]|].
  - right; left. reflexivity.
  - destruct (has_nca (nand_path e) children); cbn [negb].
    + right; right. exact B.
    + left. eexists. reflexivity.
  - right; left. reflexivity.
  - left. eexists. reflexivity.
Qed.

Lemma triple_InstallFiles (F : Fault -> Prop) (I : State -> Prop) e title subPath :
  F UncaughtException ->
  (forall s p games,
     I s ->
     let saved := SaveSettings e (set_user_game_paths (g_UserGamePaths s ++ [p]) s) in
     ScanGames e saved = Done tt (set_games games saved) [] ->
     I (set_games games saved)) ->
  triple F I (InstallFiles e title subPath).
Proof.
  intros HF H s Hs.
  destruct (InstallFiles_cases e title subPath s)
    as [E|[(x & y & E)|(x & [[E _]|(games & Eg & E)])]]; rewrite E; auto.
Qed.

Lemma triple_StartGame (F : Fault -> Prop) (I : State -> Prop) e game :
  F UncaughtException ->
  (forall s, I s -> I (booted s)) ->
  (forall s, I s -> I (set_app_state Running (booted s))) ->
  triple F I (StartGame e game).
Proof.
  intros HF H1 H2 s Hs.
  destruct (StartGame_cases e game s) as [(x & E)|[E|[(x & E)|(x & E)]]];
    rewrite E; auto.
Qed.

(** Fields the configuration store and the scanner leave alone. *)
Lemma SaveSettings_fields e s :
  let s' := SaveSettings e s in
  g_IsEditingSetting s' = g_IsEditingSetting s /\ g_AppState s' = g_AppState s /\
  g_CurrentTab s' = g_CurrentTab s /\ g_IsInstalling s' = g_IsInstalling s /\
  g_InstallStatus s' = g_InstallStatus s /\ g_Games s' = g_Games s /\
  g_SelectedGameIndex s' = g_SelectedGameIndex s /\
  g_SelectedSettingIndex s' = g_SelectedSettingIndex s /\
  g_NextInputTime s' = g_NextInputTime s /\ g_LastInputMask s' = g_LastInputMask s /\
  values s' = values s.
Proof. unfold SaveSettings. destruct (config_opens e); cbn; repeat split. Qed.

Lemma ScanGames_fields games s :
  let s' := set_games games s in
  g_IsEditingSetting s' = g_IsEditingSetting s /\ g_AppState s' = g_AppState s /\
  g_CurrentTab s' = g_CurrentTab s /\ g_IsInstalling s' = g_IsInstalling s /\
  g_InstallStatus s' = g_InstallStatus s /\ g_UserGamePaths s' = g_UserGamePaths s /\
  g_SelectedGameIndex s' = g_SelectedGameIndex s /\
  g_SelectedSettingIndex s' = g_SelectedSettingIndex s /\
  g_NextInputTime s' = g_NextInputTime s /\ g_LastInputMask s' = g_LastInputMask s /\
  values s' = values s /\ config_ini s' = config_ini s.
Proof. cbn. repeat split. Qed.

(** Rewrites a goal about the state after a save or a scan to one about the
    state before. *)
Ltac through_store :=
  repeat match goal with
  | |- context [set_games ?g (SaveSettings ?e ?s)] =>
      let H := fresh in
      pose proof (ScanGames_fields g (SaveSettings e s)) as H; cbv zeta in H;
      decompose [and] H; clear H;
      repeat match goal with
             | E : _ (set_games g (SaveSettings e s)) = _ |- _ => rewrite E; clear E
             end
  | |- context [SaveSettings ?e ?s] =>
      let H := fresh in
      pose proof (SaveSettings_fields e s) as H; cbv zeta in H;
      decompose [and] H; clear H;
      repeat match goal with E : _ (SaveSettings e s) = _ |- _ => rewrite E; clear E end
  end.

(** ** Selection bounds *)

#[local] Arguments L : simpl never.

Lemma decode_fields m t s :
  let s' := snd (decode m t s) in
  g_IsEditingSetting s' = g_IsEditingSetting s /\ g_AppState s' = g_AppState s /\
  g_CurrentTab s' = g_CurrentTab s /\ g_IsInstalling s' = g_IsInstalling s /\
  g_InstallStatus s' = g_InstallStatus s /\ g_UserGamePaths s' = g_UserGamePaths s /\
  g_Games s' = g_Games s /\ g_SelectedGameIndex s' = g_SelectedGameIndex s /\
  g_SelectedSettingIndex s' = g_SelectedSettingIndex s /\
  values s' = values s /\ config_ini s' = config_ini s.
Proof.
  unfold decode.
  destruct (negb (m =? 0)); [destruct (negb (m =? g_LastInputMask s));
    [|destruct (g_NextInputTime s <=? t)]|]; cbn; repeat split.
Qed.

(** [HandleInput] is the decoder followed by the handler of the screen. *)
Lemma HandleInput_unfold e s :
  HandleInput e s =
  let s1 := snd (decode (mask_of (poll e)) (GetTickCount64 e) s) in
  if negb (executes e s) then Done tt s1 [] else
  if any_connected (poll e) then
    match g_AppState s with
    | GameList => on_game_list e (poll e) s1
    | Settings => if negb (g_IsEditingSetting s) then on_settings e (poll e) s1
                  else on_editing (poll e) s1
    | Running => Done tt s1 []
    end
  else Done tt s1 [].
Proof.
  unfold HandleInput, executes.
  pose proof (decode_fields (mask_of (poll e)) (GetTickCount64 e) s) as H.
  destruct (decode (mask_of (poll e)) (GetTickCount64 e) s) as [x s1].
  cbn [fst snd] in *. destruct H as (He & Ha & _). rewrite He, Ha. reflexivity.
Qed.

Lemma row_settled_fields s s' :
  g_CurrentTab s' = g_CurrentTab s ->
  g_SelectedSettingIndex s' = g_SelectedSettingIndex s ->
  row_settled s -> row_settled s'.
Proof. unfold row_settled. intros -> ->. auto. Qed.

Lemma row_settled_store e s p games :
  row_settled s ->
  row_settled (set_games games
                 (SaveSettings e (set_user_game_paths (g_UserGamePaths s ++ [p]) s))).
Proof. apply row_settled_fields; through_store; reflexivity. Qed.

Lemma limit_nonneg t : 0 <= limit t.
Proof. destruct t; cbn; lia. Qed.

Lemma rows_selected_game F : F OutOfBounds -> triple F row_settled selected_game.
Proof.
  intros HF s H. unfold selected_game.
  destruct (g_SelectedGameIndex s <? 0); [exact HF|].
  destruct (nth_error _ _); [exact H|exact HF].
Qed.

Lemma rows_on_game_list F e b :
  F OutOfBounds -> F UncaughtException -> triple F row_settled (on_game_list e b).
Proof.
  intros HO HU. unfold on_game_list. apply triple_bind; [|intros _].
  - intros s H. unfold when_, bind, modify. destruct (start b); [|exact H].
    cbn. unfold row_settled. cbn. lia.
  - apply triple_when_inv. apply triple_bind; [|intros _; apply triple_bind; [|intros _]].
    + apply triple_when_modify. intros s H _. exact H.
    + apply triple_when_modify. intros s H _. exact H.
    + apply triple_when_inv. apply triple_bind; [now apply rows_selected_game|].
      intros game. apply triple_StartGame; auto.
Qed.

Lemma rows_on_settings (F : Fault -> Prop) e b :
  F UncaughtException -> triple F row_settled (on_settings e b).
Proof.
  intros HU. unfold on_settings.
  repeat (apply triple_bind; [|intros _]).
  - apply triple_when_inv. apply triple_bind; [|intros _]; apply triple_modify.
    + intros s H. exact H.
    + intros s. apply row_settled_fields; through_store; reflexivity.
  - intros s H. unfold when_, bind, modify. destruct (lb b); [|exact H].
    cbn. unfold row_settled. cbn.
    pose proof (limit_nonneg (tab_of_index
      (if tab_index (g_CurrentTab s) - 1 <? 0 then 4 else tab_index (g_CurrentTab s) - 1))).
    lia.
  - intros s H. unfold when_, bind, modify. destruct (rb b); [|exact H].
    cbn. unfold row_settled. cbn.
    pose proof (limit_nonneg (tab_of_index
      (if tab_index (g_CurrentTab s) + 1 >? 4 then 0 else tab_index (g_CurrentTab s) + 1))).
    lia.
  - apply triple_when_modify. unfold row_settled. intros s H C. cbn.
    apply andb_prop in C. destruct C as [_ C]. lia.
  - apply triple_when_modify. unfold row_settled. intros s H C. cbn.
    apply andb_prop in C. destruct C as [_ C]. lia.
  - apply triple_when_inv. apply triple_bind; [apply triple_gets|].
    intros [| | | |]; try apply triple_ret.
    + repeat (apply triple_bind; [|intros _]);
        apply triple_when_inv; apply triple_InstallFiles; auto;
        intros s p games H; cbv zeta; intros _; now apply row_settled_store.
    + apply triple_when_modify. intros s H _. exact H.
Qed.

Lemma edit_value_fields b s :
  let s' := edit_value b s in
  g_CurrentTab s' = g_CurrentTab s /\
  g_SelectedSettingIndex s' = g_SelectedSettingIndex s /\
  g_IsEditingSetting s' = g_IsEditingSetting s /\ g_AppState s' = g_AppState s /\
  g_Games s' = g_Games s /\ g_SelectedGameIndex s' = g_SelectedGameIndex s /\
  g_UserGamePaths s' = g_UserGamePaths s /\
  g_NextInputTime s' = g_NextInputTime s /\ g_LastInputMask s' = g_LastInputMask s.
Proof.
  unfold edit_value.
  destruct (g_SelectedSettingIndex s)
    as [|[[[p|p|]|[p|p|]|]|[[p|p|]|[p|p|]|]|]|p] eqn:E; cbn; rewrite ?E; repeat split.
Qed.

Lemma rows_on_editing F b : triple F row_settled (on_editing b).
Proof.
  unfold on_editing. apply triple_bind; [|intros _]; apply triple_when_modify.
  - intros s H _. exact H.
  - intros s H _. revert H. apply row_settled_fields; apply edit_value_fields.
Qed.

(** Every tick keeps the selected row on a row of the current tab, or on
    row 0 when the tab has none. *)
Lemma rows_HandleInput e : triple (fun _ => True) row_settled (HandleInput e).
Proof.
  intros s H. rewrite HandleInput_unfold. cbv zeta.
  set (s1 := snd (decode _ _ s)).
  assert (H1 : row_settled s1).
  { revert H. apply row_settled_fields; apply decode_fields. }
  destruct (negb (executes e s)); [exact H1|].
  destruct (any_connected (poll e)); [|exact H1].
  destruct (g_AppState s); [| |exact H1].
  - now apply (rows_on_game_list (fun _ => True)).
  - destruct (negb (g_IsEditingSetting s)).
    + now apply (rows_on_settings (fun _ => True) e (poll e) Logic.I).
    + now apply (rows_on_editing (fun _ => True)).
Qed.

Lemma wrap_int_le z : 0 <= z -> wrap_int z <= z.
Proof.
  intros H. unfold wrap_int.
  pose proof (Z.mod_le (z + 2147483648) 4294967296). lia.
Qed.

Lemma index_selected_game G : triple no_out_of_bounds
  (fun s => index_within G s /\
            negb (match g_Games s with [] => true | _ => false end) = true) selected_game.
Proof.
  intros s [(HG & H0 & H1) Hne]. unfold selected_game.
  destruct (Z.ltb_spec (g_SelectedGameIndex s) 0) as [|_]; [lia|].
  destruct (nth_error (g_Games s) (Z.to_nat (g_SelectedGameIndex s))) eqn:E.
  - repeat split; auto.
  - exfalso. apply nth_error_None in E. rewrite HG in *.
    destruct G as [|g G]; [discriminate|]. cbn [length] in *. lia.
Qed.

Lemma index_on_game_list G e b : triple no_out_of_bounds (index_within G) (on_game_list e b).
Proof.
  unfold on_game_list. apply triple_bind; [|intros _].
  - apply triple_when_inv. repeat (apply triple_bind; [|intros _]); apply triple_modify;
      intros s H; exact H.
  - apply triple_when; [|tauto].
    apply triple_bind; [|intros _; apply triple_bind; [|intros _]].
    + apply triple_when_modify. intros s [(HG & H0 & H1) Hne] C.
      apply andb_prop in C. destruct C as [_ C].
      split; [|exact Hne]. unfold index_within. cbn. repeat split; auto; lia.
    + apply triple_when_modify. intros s [(HG & H0 & H1) Hne] C.
      apply andb_prop in C. destruct C as [_ C]. unfold games_size in C. rewrite HG in C.
      pose proof (wrap_int_le (Z.of_nat (length G)) ltac:(lia)).
      split; [|exact Hne]. unfold index_within. cbn. repeat split; auto; lia.
    + apply triple_when_inv. apply triple_bind; [apply index_selected_game|].
      intros game. apply triple_StartGame.
      * discriminate.
      * intros s H. exact H.
      * intros s H. exact H.
Qed.

Lemma index_on_settings (F : Fault -> Prop) c e b :
  F UncaughtException ->
  triple F (fun s => g_SelectedGameIndex s = c) (on_settings e b).
Proof.
  intros HU. unfold on_settings.
  repeat (apply triple_bind; [|intros _]).
  - apply triple_when_inv. apply triple_bind; [|intros _]; apply triple_modify.
    + intros s H. exact H.
    + intros s <-. through_store. reflexivity.
  - apply triple_when_inv. apply triple_bind; [|intros _]; apply triple_modify; auto.
  - apply triple_when_inv. apply triple_bind; [|intros _]; apply triple_modify; auto.
  - apply triple_when_modify. auto.
  - apply triple_when_modify. auto.
  - apply triple_when_inv. apply triple_bind; [apply triple_gets|].
    intros [| | | |]; try apply triple_ret.
    + repeat (apply triple_bind; [|intros _]);
        apply triple_when_inv; apply triple_InstallFiles; auto;
        intros s p games <-; cbv zeta; intros _; through_store; reflexivity.
    + apply triple_when_modify. auto.
Qed.

Lemma index_on_editing F G b : triple F (index_within G) (on_editing b).
Proof.
  unfold on_editing. apply triple_bind; [|intros _]; apply triple_when_modify.
  - intros s H _. exact H.
  - intros s H _. unfold index_within in *.
    destruct (edit_value_fields b s) as (_ & _ & _ & _ & -> & -> & _). exact H.
Qed.

(** A tick never selects a negative index, keeps the index on an entry (or
    on 0) unless it leaves a list that ends at or before the index, and
    reads the selected entry inside the list. *)
Lemma index_HandleInput e s :
  0 <= g_SelectedGameIndex s ->
  g_SelectedGameIndex s = 0 \/ g_SelectedGameIndex s < Z.of_nat (length (g_Games s)) ->
  match HandleInput e s with
  | Done _ s' _ =>
      0 <= g_SelectedGameIndex s' /\
      ((length (g_Games s) <= length (g_Games s'))%nat \/
       g_SelectedGameIndex s' < Z.of_nat (length (g_Games s')) ->
       g_SelectedGameIndex s' = 0 \/ g_SelectedGameIndex s' < Z.of_nat (length (g_Games s')))
  | Failed f => f <> OutOfBounds
  end.
Proof.
  intros H0 H1. rewrite HandleInput_unfold. cbv zeta.
  pose proof (decode_fields (mask_of (poll e)) (GetTickCount64 e) s) as D. cbv zeta in D.
  set (s1 := snd (decode _ _ s)) in *.
  destruct D as (_ & _ & _ & _ & _ & _ & DG & DI & _).
  assert (W : index_within (g_Games s) s1).
  { unfold index_within. rewrite DG, DI. auto. }
  assert (K : 0 <= g_SelectedGameIndex s1 /\
    ((length (g_Games s) <= length (g_Games s1))%nat \/
     g_SelectedGameIndex s1 < Z.of_nat (length (g_Games s1)) ->
      g_SelectedGameIndex s1 = 0 \/ g_SelectedGameIndex s1 < Z.of_nat (length (g_Games s1)))).
  { rewrite DG, DI. auto. }
  assert (Fin : forall s', index_within (g_Games s) s' ->
    0 <= g_SelectedGameIndex s' /\
    ((length (g_Games s) <= length (g_Games s'))%nat \/
     g_SelectedGameIndex s' < Z.of_nat (length (g_Games s')) ->
      g_SelectedGameIndex s' = 0 \/ g_SelectedGameIndex s' < Z.of_nat (length (g_Games s')))).
  { intros s' (-> & A & B). auto. }
  destruct (negb (executes e s)); [exact K|].
  destruct (any_connected (poll e)); [|exact K].
  destruct (g_AppState s); [| |exact K].
  - pose proof (index_on_game_list (g_Games s) e (poll e) s1 W) as T.
    destruct (on_game_list e (poll e) s1); [now apply Fin|exact T].
  - destruct (negb (g_IsEditingSetting s)).
    + pose proof (index_on_settings no_out_of_bounds (g_SelectedGameIndex s) e (poll e)
                    ltac:(discriminate) s1 DI) as T.
      destruct (on_settings e (poll e) s1) as [a s' log|f]; [|exact T].
      rewrite T. split; [exact H0|]. intros [Len|Lt]; [lia|right; exact Lt].
    + pose proof (index_on_editing no_out_of_bounds (g_Games s) (poll e) s1 W) as T.
      destruct (on_editing (poll e) s1); [now apply Fin|exact T].
Qed.

Lemma startup_fields e v stored s log :
  startup e v stored = Done tt s log ->
  g_SelectedGameIndex s = 0 /\ g_SelectedSettingIndex s = 0 /\ g_CurrentTab s = General /\
  g_AppState s = GameList /\ g_IsEditingSetting s = false.
Proof.
  unfold startup. intros E.
  destruct (ScanGames_cases e (LoadSettings e (initial_state v stored))) as [N|[games N]];
    rewrite N in E; [discriminate|].
  injection E as <- _. cbn [g_SelectedGameIndex g_SelectedSettingIndex g_CurrentTab
                            g_AppState g_IsEditingSetting set_games].
  unfold LoadSettings.
  destruct (open_config e (initial_state v stored)) as [text|]; [|cbn; auto].
  set (s0 := set_user_game_paths [] (initial_state v stored)).
  assert (H : g_SelectedGameIndex s0 = 0 /\ g_SelectedSettingIndex s0 = 0 /\
              g_CurrentTab s0 = General /\ g_AppState s0 = GameList /\
              g_IsEditingSetting s0 = false) by (cbn; auto).
  revert H. generalize s0. induction (getlines text) as [|line ls IH]; intros s H; [exact H|].
  cbn [fold_left]. apply IH. unfold load_line.
  destruct (Trim line) as [|c r]; [exact H|].
  destruct (c =? 91); [exact H|].
  destruct (find_char 61 (c :: r)); [|exact H].
  unfold assign_setting.
  repeat match goal with |- context [if ?x then _ else _] => destruct x; [exact H|] end.
  exact H.
Qed.

Lemma index_eq_on_editing F c b :
  triple F (fun s => g_SelectedGameIndex s = c) (on_editing b).
Proof.
  unfold on_editing. apply triple_bind; [|intros _]; apply triple_when_modify.
  - intros s H _. exact H.
  - intros s H _. destruct (edit_value_fields b s) as (_ & _ & _ & _ & _ & -> & _). exact H.
Qed.

Lemma nonneg_on_game_list e b :
  triple (fun _ => True) (fun s => 0 <= g_SelectedGameIndex s) (on_game_list e b).
Proof.
  unfold on_game_list. apply triple_bind; [|intros _].
  - apply triple_when_inv. repeat (apply triple_bind; [|intros _]); apply triple_modify;
      intros s H; exact H.
  - apply triple_when_inv.
    apply triple_bind; [|intros _; apply triple_bind; [|intros _]].
    + apply triple_when_modify. intros s H C. apply andb_prop in C. cbn. lia.
    + apply triple_when_modify. intros s H C. cbn. lia.
    + apply triple_when_inv. apply triple_bind.
      * intros s H. unfold selected_game.
        destruct (g_SelectedGameIndex s <? 0); [exact Logic.I|].
        destruct (nth_error _ _); [exact H|exact Logic.I].
      * intros game. apply triple_StartGame; auto.
Qed.

Lemma nonneg_HandleInput e :
  triple (fun _ => True) (fun s => 0 <= g_SelectedGameIndex s) (HandleInput e).
Proof.
  intros s H. rewrite HandleInput_unfold. cbv zeta.
  pose proof (decode_fields (mask_of (poll e)) (GetTickCount64 e) s) as D. cbv zeta in D.
  set (s1 := snd (decode _ _ s)) in *.
  destruct D as (_ & _ & _ & _ & _ & _ & DG & DI & _).
  assert (H1 : 0 <= g_SelectedGameIndex s1) by (rewrite DI; exact H).
  destruct (negb (executes e s)); [exact H1|].
  destruct (any_connected (poll e)); [|exact H1].
  destruct (g_AppState s); [| |exact H1].
  - now apply nonneg_on_game_list.
  - destruct (negb (g_IsEditingSetting s)).
    + pose proof (index_on_settings (fun _ => True) (g_SelectedGameIndex s1) e (poll e)
                    Logic.I s1 eq_refl) as T.
      destruct (on_settings e (poll e) s1); [|exact Logic.I]. now rewrite T.
    + pose proof (index_eq_on_editing (fun _ => True) (g_SelectedGameIndex s1) (poll e) s1 eq_refl) as T.
      destruct (on_editing (poll e) s1); [|exact Logic.I]. now rewrite T.
Qed.

Lemma run_rows_nonneg : forall ticks s0 s log,
  run ticks s0 = Done tt s log ->
  row_settled s0 -> 0 <= g_SelectedGameIndex s0 ->
  row_settled s /\ 0 <= g_SelectedGameIndex s.
Proof.
  induction ticks as [|e ticks IH]; intros s0 s log Hrun R N.
  - cbn in Hrun. injection Hrun as -> _. auto.
  - cbn [run] in Hrun.
    pose proof (rows_HandleInput e s0 R) as T1.
    pose proof (nonneg_HandleInput e s0 N) as T2.
    destruct (HandleInput e s0) as [a s1 log1|f]; [|discriminate].
    destruct (run ticks s1) as [[] s2 log2|f] eqn:E2; [|discriminate].
    injection Hrun as -> _. now apply (IH s1 s log2).
Qed.

Lemma run_index : forall ticks s0 s log,
  run ticks s0 = Done tt s log -> index_survives ticks s0 ->
  0 <= g_SelectedGameIndex s0 ->
  g_SelectedGameIndex s0 = 0 \/ g_SelectedGameIndex s0 < Z.of_nat (length (g_Games s0)) ->
  g_SelectedGameIndex s = 0 \/ g_SelectedGameIndex s < Z.of_nat (length (g_Games s)).
Proof.
  induction ticks as [|e ticks IH]; intros s0 s log Hrun Hn I0 I1.
  - cbn in Hrun. injection Hrun as -> _. auto.
  - cbn [run index_survives] in Hrun, Hn.
    pose proof (index_HandleInput e s0 I0 I1) as T.
    destruct (HandleInput e s0) as [a s1 log1|f]; [|discriminate].
    destruct (run ticks s1) as [[] s2 log2|f] eqn:E2; [|discriminate].
    injection Hrun as -> _. destruct Hn as [Len Hn]. destruct T as [J0 J1].
    apply (IH s1 s log2); auto.
Qed.

(** What the code does keep of the selection.  From the state the message
    loop starts in and for every sequence of ticks that runs to its end:
    the selected settings row is a row of the current tab on the tabs that
    have rows and is 0 on the tabs that have none; the selected library
    index is not negative; and when no tick of the sequence leaves a game
    list that ends at or before the selected index, the selected index is
    within a non-empty list and the next tick does not read the game
    vector out of bounds. *)
Lemma selection_in_range_while_the_list_covers_it :
  forall (e0 : Env) (v : SettingsValues) (stored : option wstring)
         (ticks : list Env) (s0 s : State) (log0 log : list Event),
    startup e0 v stored = Done tt s0 log0 ->
    run ticks s0 = Done tt s log ->
    row_settled s /\ 0 <= g_SelectedGameIndex s /\
    (index_survives ticks s0 ->
       index_in_range s /\ forall e, HandleInput e s <> Failed OutOfBounds).
Proof.
  intros e0 v stored ticks s0 s log0 log Hstart Hrun.
  destruct (startup_fields e0 v stored s0 log0 Hstart) as (Hi & Hr & Ht & _).
  assert (R : row_settled s0).
  { unfold row_settled. rewrite Hr, Ht. cbn. lia. }
  destruct (run_rows_nonneg ticks _ s log Hrun R ltac:(lia)) as [Rs Ns].
  split; [exact Rs|]. split; [exact Ns|]. intros Hn.
  assert (I1 : g_SelectedGameIndex s = 0 \/
               g_SelectedGameIndex s < Z.of_nat (length (g_Games s))).
  { apply (run_index ticks _ s log Hrun Hn); [lia|auto]. }
  split.
  - intros Hne. destruct I1 as [E|Lt]; [|lia].
    destruct (g_Games s); [contradiction|]. cbn [length]. lia.
  - intros e E. pose proof (index_HandleInput e s Ns I1) as T.
    rewrite E in T. now apply T.
Qed.

(** C1.  The library index leaves the list, and the launch reads the game
    vector out of bounds.  The launcher starts with three games under
    [D:\Games]; two ticks with Down select index 2; Menu opens the
    settings and two more ticks with Down select Add Game Directory;
    Confirm, with the folder [D:\Games] picked while only one game is left
    in it, rescans: the list has one entry and the index is still 2; Back
    returns to the library, where the state has index 2 in a list of length
    1; the next Confirm indexes the vector at 2.  The scan of main.cpp 153-188
    replaces the list and leaves the index as it is, and line 575 tests the
    index against 0 only, while the drawing of lines 346-348 does cut its
    window at the end of the list. *)
Theorem rescan_leaves_the_selection_behind_the_list :
  exists s0 s log,
    startup (tick 0 0 sample_tree None) default_values None = Done tt s0 [] /\
    length (g_Games s0) = 3%nat /\ g_SelectedGameIndex s0 = 0 /\
    run [tick 2 1000 sample_tree None; tick 2 2000 sample_tree None;
         tick 0x10 3000 sample_tree None;
         tick 2 4000 sample_tree None; tick 2 5000 sample_tree None;
         tick 0x1000 6000 [File (L "a.nsp")] (Some (L "D:\Games"));
         tick 0x2000 7000 [File (L "a.nsp")] None] s0 = Done tt s log /\
    g_AppState s = GameList /\
    length (g_Games s) = 1%nat /\ g_SelectedGameIndex s = 2 /\
    ~ index_in_range s /\
    HandleInput (tick 0x1000 8000 [File (L "a.nsp")] None) s = Failed OutOfBounds /\
    endIdx 720 s = 1.
Proof.
  eexists _, _, _. split; [vm_compute; reflexivity|].
  split; [reflexivity|]. split; [reflexivity|].
  split; [vm_compute; reflexivity|].
  split; [reflexivity|]. split; [reflexivity|]. split; [reflexivity|].
  split; [|split; vm_compute; reflexivity].
  unfold index_in_range. cbn. intros H.
  assert (N : 0 <= 2 < 1) by (apply H; discriminate). lia.
Qed.

(** ** Single ticks *)

#[local] Arguments poll : simpl never.

Lemma poll_slot_connected e b i :
  any_connected b = true -> any_connected (poll_slot e b i) = true.
Proof. intros H. unfold poll_slot. destruct (XInputGetState e i); auto. Qed.

Lemma poll_slot_idle e b i :
  any_connected (poll_slot e b i) = false -> poll_slot e b i = b.
Proof. unfold poll_slot. destruct (XInputGetState e i); [discriminate|reflexivity]. Qed.

(** With no controller connected no button is seen. *)
Lemma poll_not_connected e : any_connected (poll e) = false -> poll e = no_buttons.
Proof.
  unfold poll. generalize (map Z.of_nat (seq 0 (Z.to_nat MAX_CONTROLLERS))) as slots.
  assert (G : forall slots b, any_connected (fold_left (poll_slot e) slots b) = false ->
                              fold_left (poll_slot e) slots b = b).
  { induction slots as [|i slots IH]; intros b H; [reflexivity|]. cbn [fold_left] in *.
    destruct (any_connected (poll_slot e b i)) eqn:C.
    - exfalso. clear IH. revert H. generalize (poll_slot e b i) C.
      induction slots as [|j slots IH]; intros b' C' H; cbn in H; [congruence|].
      apply (IH (poll_slot e b' j)); auto using poll_slot_connected.
    - rewrite (IH _ H). now apply poll_slot_idle. }
  intros slots. apply G.
Qed.

(** A non-zero mask comes from a connected controller. *)
Lemma mask_connected e : mask_of (poll e) <> 0 -> any_connected (poll e) = true.
Proof.
  intros H. destruct (any_connected (poll e)) eqn:C; [reflexivity|].
  rewrite (poll_not_connected e C) in H. now contradiction H.
Qed.

Lemma executes_connected e s : executes e s = true -> any_connected (poll e) = true.
Proof.
  intros H. apply mask_connected. intros Z. unfold executes in H.
  rewrite Z in H. discriminate.
Qed.

(** The state an executing tick hands to the screen's handler. *)
Lemma HandleInput_executes e s :
  executes e s = true ->
  HandleInput e s =
  let s1 := snd (decode (mask_of (poll e)) (GetTickCount64 e) s) in
  match g_AppState s with
  | GameList => on_game_list e (poll e) s1
  | Settings => if negb (g_IsEditingSetting s) then on_settings e (poll e) s1
                else on_editing (poll e) s1
  | Running => Done tt s1 []
  end.
Proof.
  intros H. rewrite HandleInput_unfold, H, (executes_connected e s H). reflexivity.
Qed.

Lemma wrap_int_small z : INT_MIN <= z <= INT_MAX -> wrap_int z = z.
Proof.
  unfold INT_MIN, INT_MAX, wrap_int. intros H.
  rewrite Z.mod_small by lia. lia.
Qed.





(** An executing tick on the settings screen in edit mode. *)
Lemma HandleInput_editing e s :
  g_AppState s = Settings -> g_IsEditingSetting s = true -> executes e s = true ->
  exists s1,
    values s1 = values s /\ g_SelectedSettingIndex s1 = g_SelectedSettingIndex s /\
    HandleInput e s =
    Done tt (let s2 := if b_btn (poll e) || a_btn (poll e) then set_editing false s1 else s1 in
             if up (poll e) || down (poll e) || lb (poll e) || rb (poll e)
             then edit_value (poll e) s2 else s2) [].
Proof.
  intros A E X. rewrite (HandleInput_executes e s X), A, E. cbv zeta. cbn [negb].
  pose proof (decode_fields (mask_of (poll e)) (GetTickCount64 e) s) as D. cbv zeta in D.
  set (s1 := snd (decode _ _ s)) in *. clearbody s1.
  destruct D as (_ & _ & _ & _ & _ & _ & _ & _ & DR & DV & _).
  exists s1. split; [exact DV|]. split; [exact DR|].
  unfold on_editing, when_, bind, modify.
  destruct (b_btn (poll e) || a_btn (poll e)),
    (up (poll e) || down (poll e) || lb (poll e) || rb (poll e)); reflexivity.
Qed.




(** C9, as amended.  On the settings screen in edit mode, an executing tick
    with Confirm or Back held ends with the edit flag false; when none of
    MoveUp, MoveDown, TabPrev and TabNext is held with it, every setting
    keeps its value. *)
Theorem confirm_or_back_leaves_edit_mode :
  forall (e : Env) (s : State),
    g_AppState s = Settings -> g_IsEditingSetting s = true -> executes e s = true ->
    a_btn (poll e) || b_btn (poll e) = true ->
    exists s',
      HandleInput e s = Done tt s' [] /\
      g_IsEditingSetting s' = false /\
      (up (poll e) || down (poll e) || lb (poll e) || rb (poll e) = false ->
       values s' = values s).
Proof.
  intros e s A E X C.
  destruct (HandleInput_editing e s A E X) as (s1 & DV & DR & H).
  rewrite orb_comm in C. rewrite C in H. cbv zeta in H.
  eexists. split; [exact H|]. split.
  - destruct (up (poll e) || down (poll e) || lb (poll e) || rb (poll e)); [|reflexivity].
    now destruct (edit_value_fields (poll e) (set_editing false s1)) as (_ & _ & -> & _).
  - intros ->. exact DV.
Qed.

Lemma confirm_or_back_leaves_edit_mode_witness :
  exists s',
    HandleInput (tick 0x2000 4000 sample_tree None) editing_language = Done tt s' [] /\
    g_IsEditingSetting s' = false /\ values s' = values editing_language.
Proof.
  destruct (confirm_or_back_leaves_edit_mode (tick 0x2000 4000 sample_tree None) editing_language)
    as (s' & H & F & K); try reflexivity.
  exists s'. split; [exact H|]. split; [exact F|]. apply K. reflexivity.
Defined.

(** C9 as stated does not hold.  In edit mode on the language row, a tick
    with Confirm and MoveUp held leaves edit mode and changes the language
    from 1 to 2. *)
Lemma confirm_keeps_values_claim_fails :
  g_AppState editing_language = Settings /\
  g_IsEditingSetting editing_language = true /\
  a_btn (poll (tick 0x1001 4000 sample_tree None)) = true /\
  exists s',
    HandleInput (tick 0x1001 4000 sample_tree None) editing_language = Done tt s' [] /\
    g_IsEditingSetting s' = false /\
    language_index (values editing_language) = 1 /\
    language_index (values s') = 2.
Proof.
  repeat split. eexists. split; [vm_compute; reflexivity|]. repeat split.
Qed.

(** ** Launch handoff, install workflow, configuration store *)

Lemma wstring_eqb_eq a : forall b, wstring_eqb a b = true <-> a = b.
Proof.
  induction a as [|x a IH]; intros [|y b]; cbn; split; try congruence; try discriminate.
  - intros H. apply andb_prop in H. destruct H as [H1 H2].
    apply Z.eqb_eq in H1. apply IH in H2. congruence.
  - intros H. injection H as -> ->. rewrite Z.eqb_refl. now apply IH.
Qed.

Lemma has_nca_none nandPath children :
  Forall (fun n => extension (path_join nandPath (node_name n)) <> L ".nca") children ->
  has_nca nandPath children = false.
Proof.
  unfold has_nca. induction 1 as [|n l Hn Hl IH]; [reflexivity|].
  cbn [existsb]. rewrite IH, orb_false_r.
  destruct (wstring_eqb _ _) eqn:E; [|reflexivity].
  apply wstring_eqb_eq in E. contradiction.
Qed.

(** C7.  [StartGame] without the key file shows a message that names the
    key file's path and returns with the state as it was; with the key file
    but with the firmware folder absent, empty, or without an entry of
    extension [.nca], it shows another message, which names the firmware
    folder's path, and returns with the state as it was. *)
Theorem launch_blocked_without_keys_or_firmware :
  forall (e : Env) (game : Game) (s : State),
    (fs_exists e (key_path e) = Some false ->
       StartGame e game s =
       Done tt s [MessageBoxW (missing_keys_message (key_path e)) (L "Missing Files")]) /\
    (fs_exists e (key_path e) = Some true -> no_firmware e ->
       StartGame e game s =
       Done tt s [MessageBoxW (missing_firmware_message (nand_path e)) (L "Missing Files")]) /\
    infix_of (key_path e) (missing_keys_message (key_path e)) /\
    infix_of (nand_path e) (missing_firmware_message (nand_path e)) /\
    missing_keys_message (key_path e) <> missing_firmware_message (nand_path e).
Proof.
  intros e game s. repeat split.
  - intros K. unfold StartGame. rewrite K. reflexivity.
  - intros K N. unfold StartGame. rewrite K. cbn [negb].
    destruct N as [N|(children & N & F)]; rewrite N; [reflexivity|].
    rewrite (has_nca_none _ _ F). reflexivity.
  - eexists _, _. reflexivity.
  - eexists _, _. reflexivity.
  - intros H. apply (f_equal (hd 0)) in H. vm_compute in H. discriminate.
Qed.

Lemma launch_blocked_without_keys_or_firmware_witness :
  let game := {| name := L "a.nsp"; game_path := L "D:\Games\a.nsp" |} in
  StartGame (tick 0x1000 1000 sample_tree None) game sample_start =
    Done tt sample_start
      [MessageBoxW (missing_keys_message (path_join user_root (L "keys/prod.keys")))
         (L "Missing Files")] /\
  StartGame (tick_with_keys 0x1000 1000) game sample_start =
    Done tt sample_start
      [MessageBoxW
         (missing_firmware_message (path_join user_root (L "nand/system/Contents/registered")))
         (L "Missing Files")].
Proof.
  intros game. split.
  - apply (launch_blocked_without_keys_or_firmware
             (tick 0x1000 1000 sample_tree None) game sample_start).
    reflexivity.
  - apply (launch_blocked_without_keys_or_firmware
             (tick_with_keys 0x1000 1000) game sample_start).
    + reflexivity.
    + right. exists []. split; [reflexivity|constructor].
Defined.

(** While an install is in flight, Confirm on a row of the General tab
    does nothing beyond the decoder's bookkeeping. *)
Lemma confirm_while_installing e s :
  g_IsInstalling s = true ->
  g_AppState s = Settings -> g_IsEditingSetting s = false -> g_CurrentTab s = General ->
  executes e s = true ->
  mask_of (poll e) = 16 ->
  HandleInput e s = Done tt (snd (decode (mask_of (poll e)) (GetTickCount64 e) s)) [].
Proof.
  intros Hi Ha He Ht X Hm. rewrite (HandleInput_executes e s X), Ha, He. cbv zeta. cbn [negb].
  pose proof (decode_fields (mask_of (poll e)) (GetTickCount64 e) s) as D. cbv zeta in D.
  set (s1 := snd (decode _ _ s)) in *. clearbody s1.
  destruct D as (_ & _ & DT & DI & _).
  rewrite <- DI in Hi. rewrite <- DT in Ht. clear DI DT.
  assert (B : up (poll e) = false /\ down (poll e) = false /\ lb (poll e) = false /\
              rb (poll e) = false /\ a_btn (poll e) = true /\ b_btn (poll e) = false /\
              start (poll e) = false).
  { revert Hm. unfold mask_of, or_bit.
    destruct (up (poll e)), (down (poll e)), (lb (poll e)), (rb (poll e)),
      (a_btn (poll e)), (b_btn (poll e)), (start (poll e)); cbn; intros; try discriminate;
      repeat split. }
  destruct B as (B1 & B2 & B3 & B4 & B5 & B6 & B7).
  unfold on_settings, when_, bind, gets. rewrite B1, B2, B3, B4, B5, B6, B7.
  cbn [orb andb]. rewrite Ht.
  assert (N : forall title subPath, InstallFiles e title subPath s1 = Done tt s1 []).
  { intros title subPath. unfold InstallFiles. now rewrite Hi. }
  cbn [orb andb]. cbv beta iota.
  destruct (g_SelectedSettingIndex s1 =? 0); rewrite ?N; cbv beta iota;
    destruct (g_SelectedSettingIndex s1 =? 1); rewrite ?N; cbv beta iota;
    destruct (g_SelectedSettingIndex s1 =? 2); rewrite ?N; reflexivity.
Qed.

(** C8.  With the in-flight flag set, an install request returns at once:
    the state is the one it was called in, nothing is shown and no thread
    is started.  So a tick that confirms a row of the General tab while an
    install is in flight ends in the state the decoder left, with no
    event. *)
Theorem install_request_in_flight_is_noop :
  (forall (e : Env) (title : wstring) (subPath : path) (s : State),
     g_IsInstalling s = true ->
     InstallFiles e title subPath s = Done tt s []) /\
  (forall (e : Env) (s : State),
     g_IsInstalling s = true ->
     g_AppState s = Settings -> g_IsEditingSetting s = false -> g_CurrentTab s = General ->
     executes e s = true -> mask_of (poll e) = 16 ->
     exists s',
       HandleInput e s = Done tt s' [] /\
       g_IsInstalling s' = true /\ g_InstallStatus s' = g_InstallStatus s /\
       g_UserGamePaths s' = g_UserGamePaths s /\ g_Games s' = g_Games s /\
       g_AppState s' = g_AppState s /\ g_CurrentTab s' = g_CurrentTab s /\
       g_SelectedSettingIndex s' = g_SelectedSettingIndex s /\
       values s' = values s /\ config_ini s' = config_ini s).
Proof.
  split.
  - intros e title subPath s H. unfold InstallFiles.
    destruct (g_IsInstalling s); [reflexivity|discriminate].
  - intros e s Hi Ha He Ht X Hm. eexists. split.
    + now apply confirm_while_installing.
    + pose proof (decode_fields (mask_of (poll e)) (GetTickCount64 e) s) as D.
      cbv zeta in D. destruct D as (_ & D2 & D3 & D4 & D5 & D6 & D7 & _ & D9 & D10 & D11).
      rewrite D2, D3, D4, D5, D6, D7, D9, D10, D11. repeat split. exact Hi.
Qed.

Lemma install_request_in_flight_is_noop_witness :
  let s := InstallFilesThread_begin (state_after [tick 0x10 1000 sample_tree None]) in
  let e := tick 0x1000 2000 sample_tree (Some (L "E:\keys")) in
  InstallFiles e (L "Select Keys Folder") (L "keys") s = Done tt s [] /\
  exists s', HandleInput e s = Done tt s' [] /\ g_IsInstalling s' = true.
Proof.
  intros s e. split.
  - apply (proj1 install_request_in_flight_is_noop). reflexivity.
  - destruct (proj2 install_request_in_flight_is_noop e s) as (s' & H & I & _);
      try reflexivity.
    exists s'. split; [exact H|exact I].
Defined.

(** Without the flag the same request starts the copy thread. *)
Lemma install_request_starts_thread :
  InstallFiles (tick 0x1000 1000 sample_tree (Some (L "E:\keys")))
               (L "Select Keys Folder") (L "keys") sample_start =
  Done tt sample_start [ThreadDetached (L "E:\keys") (path_join user_root (L "keys"))].
Proof. reflexivity. Qed.

(** C10.  When the configuration stream does not open, [LoadSettings]
    returns the state it was given, search paths included.  The list is
    emptied once the stream is open: a file without a [GamePath] line leaves
    it empty, and what is loaded does not depend on the list held before. *)
Theorem load_without_file_changes_nothing :
  forall (e : Env) (s : State),
    (open_config e s = None -> LoadSettings e s = s) /\
    (open_config e s = Some [] -> g_UserGamePaths (LoadSettings e s) = []) /\
    (forall text before,
       open_config e s = Some text ->
       LoadSettings e (set_user_game_paths before s) = LoadSettings e s).
Proof.
  intros e s. unfold LoadSettings. split; [|split].
  - intros ->. reflexivity.
  - intros ->. reflexivity.
  - intros text before H.
    change (open_config e (set_user_game_paths before s)) with (open_config e s).
    rewrite H. reflexivity.
Qed.

Lemma load_without_file_changes_nothing_witness :
  let s := set_user_game_paths [L "E:\Roms"] sample_start in
  let e := tick 0 0 sample_tree None in
  let saved := SaveSettings e sample_settings in
  LoadSettings tick_locked_config s = s /\
  g_UserGamePaths (LoadSettings e (set_config_ini (Some []) s)) = [] /\
  LoadSettings e (set_user_game_paths [L "F:\Old"] saved) = LoadSettings e saved.
Proof.
  intros s e saved. split; [|split].
  - apply (load_without_file_changes_nothing tick_locked_config s). reflexivity.
  - apply (load_without_file_changes_nothing e (set_config_ini (Some []) s)). reflexivity.
  - destruct (load_without_file_changes_nothing e saved) as (_ & _ & H).
    apply (H (config_text (values sample_settings) [L "C:\My Games"; L "E:\Roms"])).
    reflexivity.
Defined.

(** ** Library scanner *)

(** Induction on a directory tree, with the hypothesis for every child of
    a directory. *)
Lemma node_tree_ind (P : node -> Prop) :
  (forall f, P (File f)) -> (forall f, P (Special f)) ->
  (forall d children, Forall P children -> P (Dir d children)) ->
  (forall d, P (Locked d)) ->
  forall n, P n.
Proof.
  intros HF HS HD HL.
  refine (fix IH (n : node) : P n :=
            match n with
            | File f => HF f
            | Special f => HS f
            | Dir d children =>
                HD d children
                  ((fix all (l : list node) : Forall P l :=
                      match l with
                      | [] => Forall_nil P
                      | c :: l' => Forall_cons c (IH c) (all l')
                      end) children)
            | Locked d => HL d
            end).
Qed.

Lemma walk_Dir parent d children :
  walk parent (Dir d children) =
  let (es, ok) := walk_children (path_join parent d) children in
  ({| ent_path := path_join parent d; is_regular_file := false |} :: es, ok).
Proof.
  cbn [walk].
  match goal with |- (let (_, _) := ?f children in _) = _ =>
    assert (E : forall l, f l = walk_children (path_join parent d) l) end.
  { induction l as [|c l IHl]; [reflexivity|]. cbn [walk_children]. now rewrite IHl. }
  now rewrite E.
Qed.

Lemma regular_file_in_incl parent l l' q :
  (forall n, In n l -> In n l') -> regular_file_in parent l q -> regular_file_in parent l' q.
Proof.
  intros Hsub H. destruct H as [parent children f Hin|parent children d sub p Hin Hp].
  - apply file_here. auto.
  - eapply file_below; eauto.
Qed.

Lemma regular_file_in_nil parent q : ~ regular_file_in parent [] q.
Proof. intros H. inversion H as [? ? ? Hin|? ? ? ? ? Hin _]; destruct Hin. Qed.

Lemma regular_file_in_cons parent c l q :
  regular_file_in parent (c :: l) q <->
  regular_file_in parent [c] q \/ regular_file_in parent l q.
Proof.
  split.
  - intros H. inversion H as [? ? f Hin|? ? d sub p Hin Hp]; subst; destruct Hin as [E|Hin].
    + left. apply file_here. left. exact E.
    + right. now apply file_here.
    + left. eapply file_below; [left; exact E|exact Hp].
    + right. eapply file_below; [exact Hin|exact Hp].
  - intros [H|H]; revert H; apply regular_file_in_incl; intros n Hn.
    + destruct Hn as [<-|[]]. now left.
    + now right.
Qed.

Lemma regular_file_in_single parent n q :
  regular_file_in parent [n] q <->
  match n with
  | File f => q = path_join parent f
  | Dir d sub => regular_file_in (path_join parent d) sub q
  | _ => False
  end.
Proof.
  split.
  - intros H. inversion H as [? ? f Hin|? ? d sub p Hin Hp]; subst;
      destruct Hin as [->|[]]; auto.
  - destruct n as [f|f|d sub|d]; intros H; try contradiction.
    + subst q. apply file_here. now left.
    + eapply file_below; [now left|exact H].
Qed.

(** The walk of a readable tree ends without an exception and yields, as
    regular files, the regular files of the tree. *)
Lemma walk_readable n :
  forall parent, readable n = true ->
    snd (walk parent n) = true /\
    forall q, In {| ent_path := q; is_regular_file := true |} (fst (walk parent n)) <->
              regular_file_in parent [n] q.
Proof.
  induction n as [f|f|d children IH|d] using node_tree_ind; intros parent R.
  - split; [reflexivity|]. intros q. rewrite regular_file_in_single. cbn. split.
    + intros [E|[]]. now injection E.
    + intros ->. now left.
  - split; [reflexivity|]. intros q. rewrite regular_file_in_single. cbn. split.
    + intros [E|[]]. discriminate.
    + tauto.
  - rewrite walk_Dir. cbn [readable] in R.
    assert (K : snd (walk_children (path_join parent d) children) = true /\
                forall q, In {| ent_path := q; is_regular_file := true |}
                            (fst (walk_children (path_join parent d) children)) <->
                          regular_file_in (path_join parent d) children q).
    { induction children as [|c children IHc].
      - split; [reflexivity|]. intros q. cbn. split; [tauto|].
        apply regular_file_in_nil.
      - cbn [forallb] in R. apply andb_prop in R. destruct R as [Rc Rl].
        pose proof (Forall_inv IH (path_join parent d) Rc) as [Okc Inc].
        specialize (IHc (Forall_inv_tail IH) Rl). destruct IHc as [Okl Inl].
        cbn [walk_children].
        destruct (walk (path_join parent d) c) as [es ok] eqn:Ec.
        cbn [fst snd] in Okc, Inc. subst ok.
        destruct (walk_children (path_join parent d) children) as [es' ok'] eqn:El.
        cbn [fst snd] in *. split; [exact Okl|].
        intros q. rewrite in_app_iff, Inc, Inl. symmetry. apply regular_file_in_cons. }
    destruct K as [Ok In_]. destruct (walk_children (path_join parent d) children) as [es ok].
    cbn [fst snd] in *. split; [exact Ok|]. intros q.
    rewrite regular_file_in_single. cbn [In]. rewrite In_. split.
    + intros [E|H]; [discriminate|exact H].
    + intros H. now right.
  - discriminate.
Qed.

Lemma walk_children_readable children : forall parent,
  forallb readable children = true ->
  forall q, In {| ent_path := q; is_regular_file := true |}
              (fst (walk_children parent children)) <->
            regular_file_in parent children q.
Proof.
  induction children as [|c children IH]; intros parent R q.
  - cbn. split; [tauto|apply regular_file_in_nil].
  - cbn [forallb] in R. apply andb_prop in R. destruct R as [Rc Rl].
    destruct (walk_readable c parent Rc) as [Ok Inc].
    cbn [walk_children]. destruct (walk parent c) as [es ok]. cbn [fst snd] in *. subst ok.
    specialize (IH parent Rl q).
    destruct (walk_children parent children) as [es' ok']. cbn [fst snd] in *.
    rewrite in_app_iff, Inc, IH. symmetry. apply regular_file_in_cons.
Qed.

Lemma tolower_same_letter a b :
  ~ 65 <= b <= 90 -> (tolower a = b <-> same_letter a b).
Proof.
  intros Hb. unfold tolower, same_letter.
  destruct (Z.leb_spec 65 a), (Z.leb_spec a 90); cbn; lia.
Qed.

(** Lower-casing gives a string without capitals exactly when the two are
    equal up to case. *)
Lemma map_tolower_ignoring_case t : Forall (fun b => ~ 65 <= b <= 90) t ->
  forall s, map tolower s = t <-> equal_ignoring_case s t.
Proof.
  unfold equal_ignoring_case.
  induction 1 as [|b t Hb Ht IH]; intros [|a s]; cbn [map]; split; intros H.
  - constructor.
  - reflexivity.
  - discriminate.
  - inversion H.
  - discriminate.
  - inversion H.
  - injection H as H1 H2. constructor; [now apply tolower_same_letter|now apply IH].
  - inversion H as [|? ? ? ? Hab Hst]; subst.
    f_equal; [now apply tolower_same_letter|now apply IH].
Qed.

Lemma recognized_extension_test ext :
  wstring_eqb (map tolower ext) (L ".nsp") || wstring_eqb (map tolower ext) (L ".xci") = true
  <-> recognized_extension ext.
Proof.
  unfold recognized_extension.
  rewrite orb_true_iff, !wstring_eqb_eq.
  rewrite !map_tolower_ignoring_case; [reflexivity| |];
    repeat constructor; cbn; lia.
Qed.

Lemma in_scan_entry g entry :
  In g (scan_entry entry) <->
  is_regular_file entry = true /\ recognized_extension (extension (ent_path entry)) /\
  g = {| name := filename (ent_path entry); game_path := ent_path entry |}.
Proof.
  unfold scan_entry. rewrite <- recognized_extension_test.
  destruct (is_regular_file entry); [|cbn; intuition discriminate].
  destruct (_ || _); cbn; intuition (try discriminate; auto).
Qed.



(** ** Configuration round trip *)

Lemma drop_blank_clean s : starts_clean s <-> drop_blank s = s.
Proof.
  destruct s as [|c s]; cbn; [tauto|].
  destruct (is_blank c) eqn:E; split; try congruence; try reflexivity.
  intros H. exfalso.
  assert (L1 : forall t, (length (drop_blank t) <= length t)%nat).
  { induction t as [|x t IH]; cbn; [lia|]. destruct (is_blank x); cbn; lia. }
  specialize (L1 s). rewrite H in L1. cbn in L1. lia.
Qed.

Lemma drop_blank_length s : (length (drop_blank s) <= length s)%nat.
Proof. induction s as [|x t IH]; cbn; [lia|]. destruct (is_blank x); cbn; lia. Qed.

Lemma drop_blank_same_length s : length (drop_blank s) = length s -> drop_blank s = s.
Proof.
  destruct s as [|c s]; cbn; [reflexivity|].
  destruct (is_blank c); [|reflexivity].
  intros H. pose proof (drop_blank_length s). lia.
Qed.

(** [Trim] leaves a string alone exactly when it has no blank at either
    end. *)
Lemma Trim_fixed s : Trim s = s <-> starts_clean s /\ starts_clean (rev s).
Proof.
  unfold Trim. rewrite !drop_blank_clean. split.
  - intros H.
    assert (Len : length (drop_blank (rev (drop_blank s))) = length s).
    { rewrite <- (length_rev (drop_blank (rev (drop_blank s)))), H. reflexivity. }
    pose proof (drop_blank_length (rev (drop_blank s))) as L1.
    pose proof (drop_blank_length s) as L2. rewrite length_rev in L1.
    assert (E : drop_blank s = s) by (apply drop_blank_same_length; lia).
    split; [exact E|]. rewrite E in Len. apply drop_blank_same_length.
    now rewrite length_rev.
  - intros [-> ->]. apply rev_involutive.
Qed.

Lemma starts_clean_app a b :
  starts_clean a -> (a = [] -> starts_clean b) -> starts_clean (a ++ b).
Proof. destruct a as [|c a]; cbn; auto. Qed.

Lemma find_char_app c key rest :
  ~ In c key -> find_char c (key ++ c :: rest) = Some (length key).
Proof.
  induction key as [|x key IH]; cbn [app find_char length]; intros H.
  - now rewrite Z.eqb_refl.
  - destruct (Z.eqb_spec x c) as [->|_]; [exfalso; apply H; now left|].
    rewrite IH; [reflexivity|]. intros K. apply H. now right.
Qed.

Lemma skipn_past {A} (a : list A) x b : skipn (S (length a)) (a ++ x :: b) = b.
Proof. induction a as [|y a IH]; [reflexivity|exact IH]. Qed.

(** A line [key=val] whose key and value have no blank at either end, the
    key having no [=] and not starting with a bracket, assigns [val] to the
    setting [key] names. *)
Lemma load_line_key_value s key val :
  Trim key = key -> Trim val = val -> ~ In 61 key -> hd 0 key <> 91 ->
  load_line s (key ++ 61 :: val) = assign_setting s key val.
Proof.
  intros Tk Tv Hk Hb. unfold load_line.
  assert (Tl : Trim (key ++ 61 :: val) = key ++ 61 :: val).
  { apply Trim_fixed. apply Trim_fixed in Tk, Tv. destruct Tk as [K1 K2], Tv as [V1 V2]. split.
    - apply starts_clean_app; [exact K1|]. intros _. reflexivity.
    - rewrite rev_app_distr. cbn [rev]. rewrite <- app_assoc.
      apply starts_clean_app; [exact V2|]. intros _. reflexivity. }
  rewrite Tl.
  destruct (key ++ 61 :: val) as [|c r] eqn:E; [now destruct key|].
  assert (Hc : (c =? 91) = false).
  { apply Z.eqb_neq. destruct key as [|k key]; cbn in E; injection E as <- _; [lia|exact Hb]. }
  rewrite Hc, <- E, (find_char_app 61 key val Hk).
  rewrite firstn_app, Nat.sub_diag, firstn_all, app_nil_r.
  rewrite skipn_past. now rewrite Tk, Tv.
Qed.

Lemma getlines_from_line l : ~ In 10 l -> forall cur rest,
  getlines_from cur (l ++ 10 :: rest) = (rev cur ++ l) :: getlines_from [] rest.
Proof.
  induction l as [|c l IH]; intros H cur rest; cbn [app getlines_from].
  - now rewrite app_nil_r.
  - destruct (Z.eqb_spec c 10) as [->|_]; [exfalso; apply H; now left|].
    rewrite IH by (intros K; apply H; now right). cbn [rev]. now rewrite <- app_assoc.
Qed.

(** Reading back the lines that were written, each ended by a line feed. *)
Lemma getlines_of_lines ls : Forall (fun l => ~ In 10 l) ls ->
  getlines (concat (map (fun line => line ++ endl) ls)) = ls.
Proof.
  unfold getlines. induction 1 as [|l ls Hl Hls IH]; [reflexivity|].
  cbn [map concat]. unfold endl at 1. rewrite <- app_assoc. cbn [app].
  now rewrite (getlines_from_line l Hl), IH.
Qed.

(** *** Printing and reading an [int] *)

Lemma digits_from_spec f : forall n acc,
  0 <= n < 2 ^ Z.of_nat (S f) ->
  exists ds,
    digits_from (S f) n acc = ds ++ acc /\ ds <> [] /\
    Forall (fun c => 48 <= c <= 57) ds /\
    forall a, digits_value a ds = a * 10 ^ Z.of_nat (length ds) + n.
Proof.
  induction f as [|f IH]; intros n acc Hn; cbn [digits_from].
  - assert (n < 10) by (change (2 ^ Z.of_nat 1) with 2 in Hn; lia).
    destruct (Z.ltb_spec n 10); [|lia]. exists [48 + n mod 10].
    rewrite Z.mod_small by lia. repeat split; [discriminate|repeat constructor; lia|].
    intros a. unfold digits_value. cbn [fold_left length].
    change (Z.of_nat 1) with 1. rewrite Z.pow_1_r. lia.
  - destruct (Z.ltb_spec n 10) as [Small|Big].
    + exists [48 + n mod 10].
      rewrite Z.mod_small by lia. repeat split; [discriminate|repeat constructor; lia|].
      intros a. unfold digits_value. cbn [fold_left length].
    change (Z.of_nat 1) with 1. rewrite Z.pow_1_r. lia.
    + assert (Hq : 0 <= n / 10 < 2 ^ Z.of_nat (S f)).
      { split; [apply Z.div_pos; lia|].
        apply Z.div_lt_upper_bound; [lia|].
        rewrite Nat2Z.inj_succ, Z.pow_succ_r in Hn by lia.
        pose proof (Z.pow_pos_nonneg 2 (Z.of_nat (S f)) ltac:(lia) ltac:(lia)). lia. }
      destruct (IH (n / 10) ((48 + n mod 10) :: acc) Hq) as (ds & E & Ne & Dig & Val).
      exists (ds ++ [48 + n mod 10]). rewrite <- app_assoc. cbn [app].
      split; [exact E|]. split; [now destruct ds|]. split.
      * apply Forall_app. split; [exact Dig|]. constructor; [|constructor].
        pose proof (Z.mod_pos_bound n 10 ltac:(lia)). lia.
      * intros a. unfold digits_value in *. rewrite fold_left_app, Val. cbn [fold_left].
        rewrite length_app. cbn [length]. rewrite Nat.add_1_r, Nat2Z.inj_succ, Z.pow_succ_r by lia.
        pose proof (Z.div_mod n 10 ltac:(lia)). lia.
Qed.

Lemma wtoi_digits_value ds : Forall (fun c => 48 <= c <= 57) ds ->
  forall a, wtoi_digits a ds = digits_value a ds.
Proof.
  unfold digits_value. induction 1 as [|c ds Hc Hds IH]; intros a; [reflexivity|].
  cbn [wtoi_digits fold_left]. unfold is_digit.
  destruct (Z.leb_spec 48 c), (Z.leb_spec c 57); try lia. cbn. apply IH.
Qed.

Lemma log2_fuel n : 0 <= n -> 0 <= n < 2 ^ Z.of_nat (S (Z.to_nat (Z.log2 n))).
Proof.
  intros H. split; [exact H|].
  rewrite Nat2Z.inj_succ, Z2Nat.id by apply Z.log2_nonneg.
  destruct (Z.eq_dec n 0) as [->|N]; [reflexivity|].
  apply Z.log2_spec. lia.
Qed.

(** What [print_int] writes: an optional minus sign and a non-empty string
    of digits whose value is the number's magnitude. *)
Lemma print_int_spec n :
  exists ds,
    ds <> [] /\ Forall (fun c => 48 <= c <= 57) ds /\ digits_value 0 ds = Z.abs n /\
    print_int n = if n <? 0 then 45 :: ds else ds.
Proof.
  unfold print_int. destruct (Z.ltb_spec n 0).
  - destruct (digits_from_spec _ (- n) [] (log2_fuel (- n) ltac:(lia))) as (ds & E & Ne & Dig & Val).
    exists ds. rewrite E, app_nil_r, Val. repeat split; auto. lia.
  - destruct (digits_from_spec _ n [] (log2_fuel n ltac:(lia))) as (ds & E & Ne & Dig & Val).
    exists ds. rewrite E, app_nil_r, Val. repeat split; auto. lia.
Qed.

Lemma saturate_int_fits z : fits_int z -> saturate_int z = z.
Proof.
  unfold fits_int, saturate_int. intros [Lo Hi].
  rewrite Z.min_r by exact Hi. now apply Z.max_r.
Qed.

Lemma wtoi_print_int n : fits_int n -> _wtoi (print_int n) = n.
Proof.
  intros Fit.
  destruct (print_int_spec n) as (ds & Ne & Dig & Val & ->).
  destruct ds as [|d ds]; [contradiction|].
  assert (Hd : 48 <= d <= 57) by exact (Forall_inv Dig).
  unfold _wtoi.
  destruct (Z.ltb_spec n 0).
  - cbn [drop_space]. change (is_space 45) with false. cbv iota.
    change (45 =? 45) with true. cbv iota.
    rewrite wtoi_digits_value by exact Dig. rewrite Val.
    replace (- Z.abs n) with n by lia. now apply saturate_int_fits.
  - assert (Sp : is_space d = false).
    { unfold is_space. destruct (Z.leb_spec 9 d), (Z.leb_spec d 13), (Z.eqb_spec d 32);
        cbn; try reflexivity; lia. }
    cbn [drop_space]. rewrite Sp.
    destruct (Z.eqb_spec d 45) as [|_]; [lia|]. destruct (Z.eqb_spec d 43) as [|_]; [lia|].
    rewrite wtoi_digits_value by exact Dig. rewrite Val.
    replace (Z.abs n) with n by lia. now apply saturate_int_fits.
Qed.

Lemma print_int_chars n : Forall (fun c => 45 <= c <= 57) (print_int n) /\ print_int n <> [].
Proof.
  destruct (print_int_spec n) as (ds & Ne & Dig & _ & ->).
  assert (D : Forall (fun c => 45 <= c <= 57) ds).
  { eapply Forall_impl; [|exact Dig]. cbn. lia. }
  destruct (n <? 0); split; auto; [constructor; [lia|exact D]|discriminate].
Qed.

Lemma not_blank_chars s : Forall (fun c => 45 <= c <= 57) s ->
  Trim s = s /\ ~ In 10 s.
Proof.
  intros H. split.
  - apply Trim_fixed. split.
    + destruct H as [|c s Hc _]; cbn; [auto|].
      unfold is_blank.
      destruct (Z.eqb_spec c 32), (Z.eqb_spec c 9), (Z.eqb_spec c 13), (Z.eqb_spec c 10);
        try lia; reflexivity.
    + apply Forall_rev in H. destruct H as [|c s' Hc _]; cbn; [auto|].
      unfold is_blank.
      destruct (Z.eqb_spec c 32), (Z.eqb_spec c 9), (Z.eqb_spec c 13), (Z.eqb_spec c 10);
        try lia; reflexivity.
  - intros K. rewrite Forall_forall in H. specialize (H 10 K). lia.
Qed.

(** *** Comparing paths *)

Section LexCompare.
Context {A : Type} (cmp : A -> A -> comparison).
Hypothesis cmp_refl : forall x, cmp x x = Eq.
Hypothesis cmp_eq : forall x y, cmp x y = Eq -> x = y.
Hypothesis cmp_antisym : forall x y, cmp y x = CompOpp (cmp x y).
Hypothesis cmp_trans : forall x y z, cmp x y = Lt -> cmp y z = Lt -> cmp x z = Lt.

Lemma lex_compare_refl a : lex_compare cmp a a = Eq.
Proof. induction a as [|x a IH]; [reflexivity|]. cbn. now rewrite cmp_refl. Qed.

Lemma lex_compare_eq a : forall b, lex_compare cmp a b = Eq -> a = b.
Proof.
  induction a as [|x a IH]; intros [|y b] H; cbn in H; try discriminate; [reflexivity|].
  destruct (cmp x y) eqn:E; try discriminate.
  apply cmp_eq in E. apply IH in H. congruence.
Qed.

Lemma lex_compare_antisym a : forall b,
  lex_compare cmp b a = CompOpp (lex_compare cmp a b).
Proof.
  induction a as [|x a IH]; intros [|y b]; cbn; try reflexivity.
  rewrite (cmp_antisym x y). destruct (cmp x y); cbn; auto.
Qed.

Lemma lex_compare_trans a : forall b c,
  lex_compare cmp a b = Lt -> lex_compare cmp b c = Lt -> lex_compare cmp a c = Lt.
Proof.
  induction a as [|x a IH]; intros [|y b] [|z c] H1 H2; cbn in *;
    try discriminate; try reflexivity.
  destruct (cmp x y) eqn:Exy; try discriminate;
    destruct (cmp y z) eqn:Eyz; try discriminate.
  - apply cmp_eq in Exy, Eyz. subst. rewrite cmp_refl. eauto.
  - apply cmp_eq in Exy. subst. now rewrite Eyz.
  - apply cmp_eq in Eyz. subst. now rewrite Exy.
  - now rewrite (cmp_trans _ _ _ Exy Eyz).
Qed.
End LexCompare.

Lemma Z_compare_trans x y z : (x ?= y) = Lt -> (y ?= z) = Lt -> (x ?= z) = Lt.
Proof. rewrite !Z.compare_lt_iff. lia. Qed.

Lemma wstring_compare_refl a : wstring_compare a a = Eq.
Proof. apply lex_compare_refl, Z.compare_refl. Qed.

Lemma wstring_compare_eq a b : wstring_compare a b = Eq -> a = b.
Proof. apply lex_compare_eq, Z.compare_eq. Qed.

Lemma wstring_compare_antisym a b : wstring_compare b a = CompOpp (wstring_compare a b).
Proof. apply lex_compare_antisym. intros x y. apply Z.compare_antisym. Qed.

Lemma wstring_compare_trans a b c :
  wstring_compare a b = Lt -> wstring_compare b c = Lt -> wstring_compare a c = Lt.
Proof.
  apply lex_compare_trans; [apply Z.compare_refl|apply Z.compare_eq|apply Z_compare_trans].
Qed.

(** Two paths are equal exactly when they have the same root name, both
    or neither a root directory, and the same file names. *)
Lemma path_compare_Eq a b :
  path_compare a b = Eq <->
  root_name a = root_name b /\ has_root_directory a = has_root_directory b /\
  elements (relative_path a) = elements (relative_path b).
Proof.
  unfold path_compare. split.
  - intros H. destruct (wstring_compare (root_name a) (root_name b)) eqn:R; try discriminate.
    apply wstring_compare_eq in R. split; [exact R|].
    destruct (has_root_directory a), (has_root_directory b); try discriminate;
      (split; [reflexivity|]);
      revert H; apply lex_compare_eq, wstring_compare_eq.
  - intros (-> & -> & ->). rewrite wstring_compare_refl.
    rewrite (lex_compare_refl wstring_compare wstring_compare_refl).
    now destruct (has_root_directory b).
Qed.

Lemma path_compare_refl a : path_compare a a = Eq.
Proof. now apply path_compare_Eq. Qed.

Lemma path_compare_antisym a b : path_compare b a = CompOpp (path_compare a b).
Proof.
  unfold path_compare. rewrite (wstring_compare_antisym (root_name a) (root_name b)).
  destruct (wstring_compare (root_name a) (root_name b)); cbn; try reflexivity.
  destruct (has_root_directory a), (has_root_directory b); try reflexivity;
    apply lex_compare_antisym, wstring_compare_antisym.
Qed.

(** Equal paths compare alike with every path. *)
Lemma path_compare_Eq_l a b c : path_compare a b = Eq -> path_compare a c = path_compare b c.
Proof.
  intros H. apply path_compare_Eq in H. destruct H as (R & D & E).
  unfold path_compare. now rewrite R, D, E.
Qed.

Lemma path_compare_Eq_r a b c : path_compare a b = Eq -> path_compare c a = path_compare c b.
Proof.
  intros H. rewrite (path_compare_antisym a c), (path_compare_antisym b c).
  f_equal. now apply path_compare_Eq_l.
Qed.

Lemma path_compare_trans a b c :
  path_compare a b = Lt -> path_compare b c = Lt -> path_compare a c = Lt.
Proof.
  unfold path_compare. intros H1 H2.
  destruct (wstring_compare (root_name a) (root_name b)) eqn:Rab; try discriminate;
    destruct (wstring_compare (root_name b) (root_name c)) eqn:Rbc; try discriminate.
  - apply wstring_compare_eq in Rab, Rbc. rewrite Rab, Rbc, wstring_compare_refl.
    destruct (has_root_directory a), (has_root_directory b), (has_root_directory c);
      try discriminate; try reflexivity;
      revert H1 H2;
      apply (lex_compare_trans wstring_compare wstring_compare_refl wstring_compare_eq
               wstring_compare_trans).
  - apply wstring_compare_eq in Rab. now rewrite Rab, Rbc.
  - apply wstring_compare_eq in Rbc. now rewrite <- Rbc, Rab.
  - now rewrite (wstring_compare_trans _ _ _ Rab Rbc).
Qed.

Lemma path_eq_refl a : path_eq a a.
Proof. apply path_compare_refl. Qed.

Lemma path_eq_sym a b : path_eq a b -> path_eq b a.
Proof. unfold path_eq. intros H. now rewrite path_compare_antisym, H. Qed.

Lemma path_eq_trans a b c : path_eq a b -> path_eq b c -> path_eq a c.
Proof. unfold path_eq. intros H1 H2. now rewrite (path_compare_Eq_l a b c H1). Qed.

Lemma path_eqb_eq a b : path_eqb a b = true <-> path_eq a b.
Proof. unfold path_eqb, path_eq. destruct (path_compare a b); split; congruence. Qed.

Lemma path_ltb_lt a b : path_ltb a b = true <-> path_lt a b.
Proof. unfold path_ltb, path_lt. destruct (path_compare a b); split; congruence. Qed.

Lemma path_lt_irrefl a : ~ path_lt a a.
Proof. unfold path_lt. now rewrite path_compare_refl. Qed.

Lemma path_lt_trans a b c : path_lt a b -> path_lt b c -> path_lt a c.
Proof. apply path_compare_trans. Qed.

Lemma path_lt_le a b : path_lt a b -> path_le a b.
Proof.
  unfold path_lt, path_le. intros H. rewrite path_compare_antisym, H. discriminate.
Qed.

Lemma path_le_cases a b : path_le a b <-> path_lt a b \/ path_eq a b.
Proof.
  unfold path_le, path_lt, path_eq. rewrite (path_compare_antisym a b).
  destruct (path_compare a b); cbn; split; intros H; auto;
    try (destruct H; discriminate); try discriminate; now contradiction H.
Qed.

Lemma path_le_total a b : path_le a b \/ path_lt b a.
Proof. unfold path_le, path_lt. destruct (path_compare b a); auto; left; discriminate. Qed.

Lemma path_le_trans a b c : path_le a b -> path_le b c -> path_le a c.
Proof.
  rewrite !path_le_cases. unfold path_lt, path_eq. intros [H1|H1] [H2|H2].
  - left. eapply path_compare_trans; eauto.
  - left. now rewrite <- (path_compare_Eq_r b c a H2).
  - left. now rewrite (path_compare_Eq_l a b c H1).
  - right. eapply path_eq_trans; eauto.
Qed.

Lemma path_lt_le_trans a b c : path_lt a b -> path_le b c -> path_lt a c.
Proof.
  rewrite path_le_cases. unfold path_lt, path_eq. intros H1 [H2|H2].
  - eapply path_compare_trans; eauto.
  - now rewrite <- (path_compare_Eq_r b c a H2).
Qed.

(** *** Sorting and deduplicating the search paths *)

Lemma insert_path_perm x l : Permutation (insert_path x l) (x :: l).
Proof.
  induction l as [|y l IH]; cbn [insert_path]; [reflexivity|].
  destruct (path_ltb y x); [|reflexivity].
  rewrite IH. apply perm_swap.
Qed.

Lemma sort_paths_perm l : Permutation (sort_paths l) l.
Proof.
  induction l as [|x l IH]; [reflexivity|]. cbn [sort_paths fold_right].
  rewrite insert_path_perm. now constructor.
Qed.

Lemma insert_path_sorted x l :
  StronglySorted path_le l -> StronglySorted path_le (insert_path x l).
Proof.
  induction l as [|y l IH]; intros S; cbn.
  - repeat constructor.
  - inversion S as [|? ? S' F]; subst.
    destruct (path_ltb y x) eqn:E.
    + apply path_ltb_lt in E. constructor; [auto|].
      apply Forall_forall. intros z Hz.
      apply (Permutation_in _ (insert_path_perm x l)) in Hz.
      destruct Hz as [<-|Hz]; [now apply path_lt_le|].
      rewrite Forall_forall in F. auto.
    + assert (Hxy : path_le x y).
      { destruct (path_le_total x y) as [H|H]; [exact H|].
        apply path_ltb_lt in H. congruence. }
      constructor; [exact S|]. constructor; [exact Hxy|].
      eapply Forall_impl; [|exact F]. intros z Hz. eapply path_le_trans; eauto.
Qed.

Lemma sort_paths_sorted l : StronglySorted path_le (sort_paths l).
Proof.
  induction l as [|x l IH]; cbn; [constructor|]. now apply insert_path_sorted.
Qed.

Lemma unique_from_sorted l : forall kept,
  StronglySorted path_le (kept :: l) ->
  StronglySorted path_lt (kept :: unique_from kept l).
Proof.
  induction l as [|x l IH]; intros kept S; cbn.
  - repeat constructor.
  - inversion S as [|? ? S' F]; subst.
    inversion S' as [|? ? S'' F']; subst.
    inversion F as [|? ? Hkx Fk]; subst.
    destruct (path_eqb kept x) eqn:E.
    + apply IH. constructor; assumption.
    + assert (Lt : path_lt kept x).
      { apply path_le_cases in Hkx. destruct Hkx as [H|H]; [exact H|].
        apply path_eqb_eq in H. congruence. }
      pose proof (IH x S') as Sx.
      constructor; [exact Sx|].
      constructor; [exact Lt|].
      inversion Sx as [|? ? _ Fx]; subst.
      eapply Forall_impl; [|exact Fx]. intros z Hz.
      eapply path_lt_trans; eauto.
Qed.

Lemma unique_sorted l : StronglySorted path_le l -> StronglySorted path_lt (unique l).
Proof.
  destruct l as [|x l]; cbn; [constructor|]. apply unique_from_sorted.
Qed.

(** What [std::unique] keeps was there. *)
Lemma unique_from_incl l : forall kept x, In x (unique_from kept l) -> In x l.
Proof.
  induction l as [|y l IH]; intros kept x H; [exact H|]. cbn [unique_from] in H.
  destruct (path_eqb kept y).
  - right. eapply IH; eauto.
  - destruct H as [H|H]; [now left|right; eapply IH; eauto].
Qed.

Lemma unique_incl l x : In x (unique l) -> In x l.
Proof.
  destruct l as [|y l]; [auto|]. intros [H|H]; [now left|].
  right. eapply unique_from_incl; eauto.
Qed.

(** Of every path that was there, an equal one is kept. *)
Lemma unique_from_covers l : forall kept x,
  In x (kept :: l) -> exists q, In q (kept :: unique_from kept l) /\ path_eq q x.
Proof.
  induction l as [|y l IH]; intros kept x H.
  - destruct H as [<-|[]]. exists kept. split; [now left|apply path_eq_refl].
  - cbn [unique_from]. destruct (path_eqb kept y) eqn:E.
    + apply path_eqb_eq in E. destruct H as [<-|[<-|H]].
      * exists kept. split; [now left|apply path_eq_refl].
      * exists kept. split; [now left|exact E].
      * apply IH. now right.
    + destruct H as [<-|H].
      * exists kept. split; [now left|apply path_eq_refl].
      * destruct (IH y x H) as (q & Hq & Eq). exists q. split; [now right|exact Eq].
Qed.

Lemma unique_covers l x : In x l -> exists q, In q (unique l) /\ path_eq q x.
Proof. destruct l as [|y l]; [intros []|]. apply unique_from_covers. Qed.

(** Saving keeps search paths that were there, and of every path that was
    there an equal one. *)
Lemma saved_paths_incl l x : In x (unique (sort_paths l)) -> In x l.
Proof.
  intros H. apply unique_incl in H. revert H. apply Permutation_in, sort_paths_perm.
Qed.

Lemma saved_paths_cover l x :
  In x l -> exists q, In q (unique (sort_paths l)) /\ path_eq q x.
Proof.
  intros H. apply unique_covers. revert H. apply Permutation_in.
  symmetry. apply sort_paths_perm.
Qed.

Lemma sorted_lt_NoDup l : StronglySorted path_lt l -> NoDup l.
Proof.
  induction 1 as [|x l S IH F]; constructor; [|exact IH].
  intros Hin. rewrite Forall_forall in F. specialize (F _ Hin).
  now apply path_lt_irrefl in F.
Qed.

(** In a strictly ascending list no two entries are equal paths. *)
Lemma sorted_lt_distinct l : StronglySorted path_lt l ->
  forall i j p q, nth_error l i = Some p -> nth_error l j = Some q ->
                  path_eq p q -> i = j.
Proof.
  induction 1 as [|x l S IH F]; intros i j p q Hi Hj E.
  - destruct i; discriminate.
  - rewrite Forall_forall in F.
    destruct i as [|i], j as [|j]; cbn in Hi, Hj.
    + reflexivity.
    + injection Hi as <-. apply nth_error_In in Hj. specialize (F _ Hj).
      unfold path_lt, path_eq in *. congruence.
    + injection Hj as <-. apply nth_error_In in Hi. specialize (F _ Hi).
      apply path_eq_sym in E. unfold path_lt, path_eq in *. congruence.
    + f_equal. eauto.
Qed.

Lemma sorted_lt_fixed l :
  StronglySorted path_lt l -> unique (sort_paths l) = l.
Proof.
  intros S.
  assert (E : sort_paths l = l).
  { induction S as [|x l S IH F]; [reflexivity|].
    change (insert_path x (sort_paths l) = x :: l). rewrite IH.
    destruct l as [|y l]; [reflexivity|]. cbn.
    inversion F as [|? ? Hxy _]; subst.
    destruct (path_ltb y x) eqn:Eyx; [|reflexivity].
    apply path_ltb_lt in Eyx. exfalso.
    apply (path_lt_irrefl x). eapply path_lt_trans; eauto. }
  rewrite E. clear E.
  destruct l as [|x l]; [reflexivity|]. cbn. f_equal.
  revert x S. induction l as [|y l IH]; intros x S; [reflexivity|]. cbn.
  inversion S as [|? ? S' F]; subst. inversion F as [|? ? Hxy _]; subst.
  destruct (path_eqb x y) eqn:Exy.
  - apply path_eqb_eq in Exy. unfold path_lt, path_eq in *. congruence.
  - f_equal. now apply IH.
Qed.

Lemma save_sorted e s :
  config_opens e = true ->
  StronglySorted path_lt (g_UserGamePaths (SaveSettings e s)) /\
  config_ini (SaveSettings e s) =
    Some (config_text (values s) (g_UserGamePaths (SaveSettings e s))).
Proof.
  intros He. unfold SaveSettings. rewrite He. cbn.
  split; [apply unique_sorted, sort_paths_sorted|reflexivity].
Qed.

(** *** Reading the lines [SaveSettings] writes *)

Lemma print_int_clean n : Trim (print_int n) = print_int n /\ ~ In 10 (print_int n).
Proof. apply not_blank_chars, print_int_chars. Qed.

Ltac key_value_line :=
  rewrite load_line_key_value;
  [ reflexivity
  | vm_compute; reflexivity
  | apply print_int_clean
  | vm_compute; intuition discriminate
  | vm_compute; discriminate ].

Lemma load_Language s n : fits_int n ->
  load_line s (L "Language=" ++ print_int n) = set_values (with_language n (values s)) s.
Proof.
  intros H. rewrite <- (wtoi_print_int n H) at 2.
  change (L "Language=" ++ print_int n) with (L "Language" ++ 61 :: print_int n).
  key_value_line.
Qed.

Lemma load_Region s n : fits_int n ->
  load_line s (L "Region=" ++ print_int n) = set_values (with_region n (values s)) s.
Proof.
  intros H. rewrite <- (wtoi_print_int n H) at 2.
  change (L "Region=" ++ print_int n) with (L "Region" ++ 61 :: print_int n).
  key_value_line.
Qed.

Lemma load_MemoryLayout s n : fits_int n ->
  load_line s (L "MemoryLayout=" ++ print_int n) =
  set_values (with_memory_layout n (values s)) s.
Proof.
  intros H. rewrite <- (wtoi_print_int n H) at 2.
  change (L "MemoryLayout=" ++ print_int n) with (L "MemoryLayout" ++ 61 :: print_int n).
  key_value_line.
Qed.

Lemma load_CustomRTC s b :
  load_line s (L "CustomRTC=" ++ print_bool b) = set_values (with_custom_rtc b (values s)) s.
Proof. destruct b; vm_compute; reflexivity. Qed.

Lemma load_MultiCore s b :
  load_line s (L "MultiCore=" ++ print_bool b) = set_values (with_multi_core b (values s)) s.
Proof. destruct b; vm_compute; reflexivity. Qed.

Lemma load_GamePath s p : Trim p = p ->
  load_line s (L "GamePath=" ++ p) = set_user_game_paths (g_UserGamePaths s ++ [p]) s.
Proof.
  intros H. change (L "GamePath=" ++ p) with (L "GamePath" ++ 61 :: p).
  rewrite load_line_key_value;
    [ reflexivity | vm_compute; reflexivity | exact H
    | vm_compute; intuition discriminate | vm_compute; discriminate ].
Qed.

Lemma load_GamePaths paths : forall s, Forall storable paths ->
  let s' := fold_left load_line (map (fun p => L "GamePath=" ++ p) paths) s in
  g_UserGamePaths s' = g_UserGamePaths s ++ paths /\ values s' = values s.
Proof.
  induction paths as [|p paths IH]; intros s H; cbn [map fold_left].
  - now rewrite app_nil_r.
  - pose proof (Forall_inv H) as [_ Hp]. rewrite (load_GamePath s p Hp).
    destruct (IH (set_user_game_paths (g_UserGamePaths s ++ [p]) s) (Forall_inv_tail H))
      as [E1 E2].
    cbv zeta. rewrite E1, E2. cbn. now rewrite <- app_assoc.
Qed.

Lemma config_lines_no_newline v paths :
  Forall (fun p => ~ In 10 p) paths ->
  Forall (fun l => ~ In 10 l) (config_lines v paths).
Proof.
  intros H. unfold config_lines. apply Forall_app. split.
  - assert (P : forall key n, ~ In 10 key -> ~ In 10 (key ++ print_int n)).
    { intros key n K I. apply in_app_or in I. destruct I as [I|I]; [auto|].
      now apply (proj2 (print_int_clean n)). }
    repeat constructor; try apply P; try (vm_compute; intuition discriminate).
  - apply Forall_map. eapply Forall_impl; [|exact H]. intros p Hp I.
    apply in_app_or in I. destruct I as [I|I]; [|auto].
    vm_compute in I. intuition discriminate.
Qed.

(** C4, as amended.  For settings whose values are [int]s and search paths
    that have no line feed in them and no blank at either end, when the
    configuration stream opens for the save and for the load: saving and then
    loading into the state of a fresh process gives back the language, the
    region, the custom-clock flag, the multicore flag and the memory layout
    that were saved, and the list of search paths the save left in memory
    and wrote.  That list is in strictly ascending order of paths, so no
    two of its entries are equal paths; each of its entries is one of the
    paths that were saved; and every path that was saved is, as a path,
    equal to one of its entries: one spelling stays of paths that are
    spelled differently and compare equal. *)
Theorem save_then_load_round_trip :
  forall (e e' : Env) (s : State) (v0 : SettingsValues),
    config_opens e = true -> config_opens e' = true ->
    fits_int (language_index (values s)) -> fits_int (region_index (values s)) ->
    fits_int (memory_layout_mode (values s)) ->
    Forall storable (g_UserGamePaths s) ->
    let saved := SaveSettings e s in
    let loaded := LoadSettings e' (fresh_state v0 saved) in
    language_index (values loaded) = language_index (values s) /\
    region_index (values loaded) = region_index (values s) /\
    custom_rtc_enabled (values loaded) = custom_rtc_enabled (values s) /\
    use_multi_core (values loaded) = use_multi_core (values s) /\
    memory_layout_mode (values loaded) = memory_layout_mode (values s) /\
    g_UserGamePaths loaded = g_UserGamePaths saved /\
    StronglySorted path_lt (g_UserGamePaths loaded) /\
    (forall p, In p (g_UserGamePaths loaded) -> In p (g_UserGamePaths s)) /\
    (forall p, In p (g_UserGamePaths s) ->
               exists q, In q (g_UserGamePaths loaded) /\ path_eq q p).
Proof.
  intros e e' s v0 He He' Fl Fr Fm Fp saved loaded.
  set (paths := unique (sort_paths (g_UserGamePaths s))).
  assert (Sp : Forall storable paths).
  { apply Forall_forall. intros p Hp. unfold paths in Hp. apply saved_paths_incl in Hp.
    exact (proj1 (Forall_forall _ _) Fp p Hp). }
  assert (Np : Forall (fun p => ~ In 10 p) paths).
  { eapply Forall_impl; [|exact Sp]. intros p [H _]. exact H. }
  assert (Ef : config_ini saved = Some (config_text (values s) paths)).
  { subst saved. unfold SaveSettings. rewrite He. reflexivity. }
  assert (Em : g_UserGamePaths saved = paths).
  { subst saved. unfold SaveSettings. rewrite He. reflexivity. }
  assert (El : loaded = fold_left load_line (config_lines (values s) paths)
                          (set_user_game_paths [] (fresh_state v0 saved))).
  { subst loaded. unfold LoadSettings, open_config. rewrite He'.
    unfold fresh_state at 1. cbn [config_ini initial_state]. rewrite Ef.
    unfold config_text. rewrite getlines_of_lines by now apply config_lines_no_newline.
    reflexivity. }
  unfold config_lines in El. rewrite fold_left_app in El. cbn [fold_left] in El.
  change (load_line ?x (L "[System]")) with x in El.
  rewrite load_Language, load_Region, load_CustomRTC, load_MultiCore, load_MemoryLayout
    in El by assumption.
  change (load_line ?x (L "")) with x in El.
  change (load_line ?x (L "[Paths]")) with x in El.
  match type of El with _ = fold_left _ _ ?s1 =>
    destruct (load_GamePaths paths s1 Sp) as [Ep Ev] end.
  cbv zeta in Ep, Ev. rewrite <- El in Ep, Ev. rewrite Ev, Ep, Em.
  cbn [g_UserGamePaths set_user_game_paths app values set_values language_index
       region_index custom_rtc_enabled use_multi_core memory_layout_mode
       with_language with_region with_custom_rtc with_multi_core with_memory_layout].
  repeat apply conj; try reflexivity.
  - apply unique_sorted, sort_paths_sorted.
  - intros p. apply saved_paths_incl.
  - intros p. apply saved_paths_cover.
Qed.

Lemma save_then_load_round_trip_witness :
  let e := tick 0 0 sample_tree None in
  let loaded := LoadSettings e (fresh_state default_values (SaveSettings e sample_settings)) in
  use_multi_core (values loaded) = true /\
  memory_layout_mode (values loaded) = 1 /\
  g_UserGamePaths loaded = [L "C:\My Games"; L "E:\Roms"] /\
  StronglySorted path_lt (g_UserGamePaths loaded).
Proof.
  intros e loaded.
  destruct (save_then_load_round_trip e e sample_settings default_values)
    as (_ & _ & _ & Hm & Hl & Hp & Hs & _);
    try reflexivity; try (vm_compute; split; discriminate).
  - repeat constructor; try (vm_compute; intuition discriminate).
  - cbv zeta in Hm, Hl, Hp, Hs. subst loaded e. rewrite Hm, Hl.
    split; [reflexivity|]. split; [reflexivity|]. split; [rewrite Hp; reflexivity|exact Hs].
Defined.

(** C4 as stated does not hold.  A search path that ends with a space is
    written as it is and read back without the space: after a save and a
    load into fresh defaults the list holds [E:\Roms] where [E:\Roms ] was
    saved, and the two are different paths. *)
Lemma round_trip_claim_fails :
  let e := tick 0 0 sample_tree None in
  let loaded := LoadSettings e (fresh_state default_values (SaveSettings e sample_padded_path)) in
  g_UserGamePaths sample_padded_path = [L "E:\Roms "] /\
  g_UserGamePaths loaded = [L "E:\Roms"] /\
  ~ path_eq (L "E:\Roms") (L "E:\Roms ") /\
  ~ (forall p, In p (g_UserGamePaths loaded) <-> In p (g_UserGamePaths sample_padded_path)) /\
  ~ (forall p, In p (g_UserGamePaths sample_padded_path) ->
               exists q, In q (g_UserGamePaths loaded) /\ path_eq q p).
Proof.
  intros e loaded. split; [reflexivity|]. split; [reflexivity|].
  split; [vm_compute; discriminate|]. split.
  - intros H. assert (K : In (L "E:\Roms ") (g_UserGamePaths loaded)) by (apply H; now left).
    vm_compute in K. intuition discriminate.
  - intros H. destruct (H (L "E:\Roms ")) as (q & Hq & E); [now left|].
    destruct Hq as [<-|[]]. vm_compute in E. discriminate.
Qed.

(** ** The decoder inside [HandleInput] *)

Lemma decoder_fields_store e s p games :
  let s' := set_games games (SaveSettings e (set_user_game_paths p s)) in
  g_LastInputMask s' = g_LastInputMask s /\ g_NextInputTime s' = g_NextInputTime s.
Proof. cbv zeta. through_store. split; reflexivity. Qed.

(** The handlers of the screens leave the decoder's two globals alone. *)
Lemma decoder_fields_kept m t e b :
  let I := fun s => g_LastInputMask s = m /\ g_NextInputTime s = t in
  triple (fun _ => True) I (on_game_list e b) /\
  triple (fun _ => True) I (on_settings e b) /\
  triple (fun _ => True) I (on_editing b).
Proof.
  cbv zeta. split; [|split].
  - unfold on_game_list. apply triple_bind; [|intros _].
    + apply triple_when_inv. repeat (apply triple_bind; [|intros _]); apply triple_modify; auto.
    + apply triple_when_inv. repeat (apply triple_bind; [|intros _]).
      * apply triple_when_modify. auto.
      * apply triple_when_modify. auto.
      * apply triple_when_inv. apply triple_bind.
        -- intros s H. unfold selected_game.
           destruct (g_SelectedGameIndex s <? 0); [exact Logic.I|].
           destruct (nth_error _ _); [exact H|exact Logic.I].
        -- intros game. apply triple_StartGame; auto.
  - unfold on_settings. repeat (apply triple_bind; [|intros _]).
    + apply triple_when_inv. apply triple_bind; [|intros _]; apply triple_modify; auto.
      intros s [<- <-]. through_store. split; reflexivity.
    + apply triple_when_inv. apply triple_bind; [|intros _]; apply triple_modify; auto.
    + apply triple_when_inv. apply triple_bind; [|intros _]; apply triple_modify; auto.
    + apply triple_when_modify. auto.
    + apply triple_when_modify. auto.
    + apply triple_when_inv. apply triple_bind; [apply triple_gets|].
      intros [| | | |]; try apply triple_ret.
      * repeat (apply triple_bind; [|intros _]);
          apply triple_when_inv; apply triple_InstallFiles; auto;
          intros s p games [<- <-]; cbv zeta; intros _; apply decoder_fields_store.
      * apply triple_when_modify. auto.
  - unfold on_editing. apply triple_bind; [|intros _]; apply triple_when_modify; auto.
    intros s [<- <-] _.
    destruct (edit_value_fields b s) as (_ & _ & _ & _ & _ & _ & _ & -> & ->). auto.
Qed.

(** After a tick the decoder's globals are the ones [decode] computed: the
    sequence of executing ticks of [HandleInput] is the one [fires]
    gives. *)
Lemma HandleInput_decoder e s s' log :
  HandleInput e s = Done tt s' log ->
  let d := snd (decode (mask_of (poll e)) (GetTickCount64 e) s) in
  g_LastInputMask s' = g_LastInputMask d /\ g_NextInputTime s' = g_NextInputTime d.
Proof.
  intros H. rewrite HandleInput_unfold in H. cbv zeta in *.
  set (d := snd (decode _ _ s)) in *.
  destruct (decoder_fields_kept (g_LastInputMask d) (g_NextInputTime d) e (poll e))
    as (T1 & T2 & T3). cbv zeta in T1, T2, T3.
  specialize (T1 d (conj eq_refl eq_refl)). specialize (T2 d (conj eq_refl eq_refl)).
  specialize (T3 d (conj eq_refl eq_refl)).
  destruct (negb (executes e s)); [injection H as <- _; auto|].
  destruct (any_connected (poll e)); [|injection H as <- _; auto].
  destruct (g_AppState s); [| |injection H as <- _; auto].
  - rewrite H in T1. exact T1.
  - destruct (negb (g_IsEditingSetting s)).
    + rewrite H in T2. exact T2.
    + rewrite H in T3. exact T3.
Qed.

(** ** Further samples *)

(** The start-up scan of the sample machine finds the three games. *)
Lemma sample_start_games :
  map name (g_Games sample_start) = [L "a.nsp"; L "b.NSP"; L "d.xci"].
Proof. reflexivity. Qed.

(** From a language index outside the legal range, as a damaged
    configuration file can leave it, a step down can end outside it. *)
Lemma cycle_from_illegal_value :
  let s := set_values (with_language (-20) (values editing_language)) editing_language in
  language_index (values (edit_value (poll (tick 0x2 4000 sample_tree None)) s)) = -3.
Proof. reflexivity. Qed.

(** A launch with keys and firmware in place hands over to the engine and
    ends on the running screen. *)
Lemma launch_hands_over :
  let fs := fun p =>
    if wstring_eqb p (nand_path (tick_with_keys 0 0)) then Some (FsDir [File (L "fw.nca")])
    else fs_with_keys p in
  let e := {| XInputGetState := one_pad 0x1000; GetTickCount64 := 1000;
              GetUserDirectory := user_root; fs_at := fs; config_opens := true;
              picked_folder := None; engine := LoadSucceeded |} in
  exists s log,
    HandleInput e sample_start = Done tt s log /\ g_AppState s = Running /\
    log = map Engine [Initialize; SetContentProvider; SetFilesystem;
                      LoadTitle (L "D:\Games\a.nsp"); GpuStart; OnGpuReady; Run].
Proof. eexists _, _. split; [vm_compute; reflexivity|]. split; reflexivity. Qed.

(** * Further properties of the code *)

(** ** [Trim] *)

Lemma drop_blank_split s :
  exists pre, s = pre ++ drop_blank s /\ Forall (fun c => is_blank c = true) pre.
Proof.
  induction s as [|c s (pre & E & F)]; [exists []; auto|]. cbn [drop_blank].
  destruct (is_blank c) eqn:B.
  - exists (c :: pre). split; [cbn; congruence|now constructor].
  - exists []. auto.
Qed.

Lemma drop_blank_starts_clean s : starts_clean (drop_blank s).
Proof.
  induction s as [|c s IH]; cbn; [exact Logic.I|].
  destruct (is_blank c) eqn:B; [exact IH|exact B].
Qed.

(** X1.  [Trim] cuts a string down to what stands between its leading and
    its trailing blanks: the string is blanks, the result, blanks; the
    result has no blank at either end; trimming it again changes nothing. *)
Theorem Trim_removes_surrounding_blanks :
  forall s : wstring,
    (exists pre post,
       s = pre ++ Trim s ++ post /\
       Forall (fun c => is_blank c = true) pre /\
       Forall (fun c => is_blank c = true) post) /\
    starts_clean (Trim s) /\ starts_clean (rev (Trim s)) /\
    Trim (Trim s) = Trim s.
Proof.
  intros s.
  destruct (drop_blank_split s) as (pre & Es & Fpre).
  destruct (drop_blank_split (rev (drop_blank s))) as (tsop & Er & Fpost).
  assert (Eu : drop_blank s = Trim s ++ rev tsop).
  { unfold Trim. rewrite <- rev_app_distr, <- Er. symmetry. apply rev_involutive. }
  assert (C2 : starts_clean (rev (Trim s))).
  { unfold Trim. rewrite rev_involutive. apply drop_blank_starts_clean. }
  assert (C1 : starts_clean (Trim s)).
  { pose proof (drop_blank_starts_clean s) as C. rewrite Eu in C.
    destruct (Trim s); [exact Logic.I|exact C]. }
  split; [|split; [exact C1|split; [exact C2|]]].
  - exists pre, (rev tsop). split; [now rewrite <- Eu|]. split; [exact Fpre|].
    now apply Forall_rev.
  - apply Trim_fixed. auto.
Qed.

(** ** Order of the saved search paths *)

Lemma wstring_eqb_refl a : wstring_eqb a a = true.
Proof. now apply wstring_eqb_eq. Qed.

Lemma wstring_eqb_neq a b : a <> b -> wstring_eqb a b = false.
Proof.
  intros N. destruct (wstring_eqb a b) eqn:E; [|reflexivity].
  apply wstring_eqb_eq in E. contradiction.
Qed.

(** X2.  A save whose stream opens leaves the search paths in memory in
    strictly ascending order of paths, as [operator<] on paths orders
    them, so that no two of them are equal paths, spelled alike or not;
    each of them is one of the paths that were there, and every path that
    was there is, as a path, equal to one of them; the file holds the
    settings' lines and one [GamePath] line for each of these paths, in
    that order. *)
Theorem save_sorts_and_deduplicates_paths :
  forall (e : Env) (s : State),
    config_opens e = true ->
    let s' := SaveSettings e s in
    StronglySorted path_lt (g_UserGamePaths s') /\
    (forall i j p q, nth_error (g_UserGamePaths s') i = Some p ->
                     nth_error (g_UserGamePaths s') j = Some q ->
                     path_eq p q -> i = j) /\
    (forall p, In p (g_UserGamePaths s') -> In p (g_UserGamePaths s)) /\
    (forall p, In p (g_UserGamePaths s) ->
               exists q, In q (g_UserGamePaths s') /\ path_eq q p) /\
    config_ini s' = Some (config_text (values s) (g_UserGamePaths s')).
Proof.
  intros e s He. unfold SaveSettings. rewrite He. cbn.
  assert (S : StronglySorted path_lt (unique (sort_paths (g_UserGamePaths s)))).
  { apply unique_sorted, sort_paths_sorted. }
  split; [exact S|]. split; [now apply sorted_lt_distinct|].
  split; [intros p; apply saved_paths_incl|].
  split; [intros p; apply saved_paths_cover|reflexivity].
Qed.

Lemma save_sorts_and_deduplicates_paths_witness :
  let s := set_user_game_paths [L "E:\Roms"; L "C:\My Games"; L "E:/Roms"; L "E:\\Roms"]
             sample_start in
  g_UserGamePaths (SaveSettings (tick 0 0 sample_tree None) s) =
    [L "C:\My Games"; L "E:\Roms"] /\
  StronglySorted path_lt (g_UserGamePaths (SaveSettings (tick 0 0 sample_tree None) s)).
Proof.
  intros s. split; [vm_compute; reflexivity|].
  apply (save_sorts_and_deduplicates_paths (tick 0 0 sample_tree None) s).
  reflexivity.
Defined.

(** X3.  Saving twice in a row is saving once: the second save finds the
    paths already in order and writes the same file. *)
Theorem save_is_idempotent :
  forall (e : Env) (s : State),
    SaveSettings e (SaveSettings e s) = SaveSettings e s.
Proof.
  intros e s. unfold SaveSettings. destruct (config_opens e) eqn:He; [|reflexivity].
  cbn. rewrite sorted_lt_fixed; [reflexivity|].
  apply unique_sorted, sort_paths_sorted.
Qed.

(** ** Reading the configuration file *)

Lemma drop_blank_app_blank a y :
  Forall (fun c => is_blank c = true) a -> drop_blank (a ++ y) = drop_blank y.
Proof.
  induction 1 as [|c a Hc _ IH]; [reflexivity|]. cbn. now rewrite Hc.
Qed.

Lemma drop_blank_all_blank a : Forall (fun c => is_blank c = true) a -> drop_blank a = [].
Proof.
  intros F. rewrite <- (app_nil_r a). now rewrite drop_blank_app_blank.
Qed.

Lemma Trim_surrounded p t q :
  Forall (fun c => is_blank c = true) p -> Forall (fun c => is_blank c = true) q ->
  Trim t = t -> Trim (p ++ t ++ q) = t.
Proof.
  intros Fp Fq Ht. apply Trim_fixed in Ht. destruct Ht as [C1 C2].
  unfold Trim. rewrite drop_blank_app_blank by exact Fp.
  destruct t as [|c t].
  - cbn [app]. rewrite (drop_blank_all_blank q Fq). reflexivity.
  - assert (E : drop_blank ((c :: t) ++ q) = (c :: t) ++ q).
    { apply drop_blank_clean. exact C1. }
    rewrite E, rev_app_distr, drop_blank_app_blank by now apply Forall_rev.
    rewrite (proj1 (drop_blank_clean _) C2). apply rev_involutive.
Qed.

Lemma blank_not_eq a : Forall (fun c => is_blank c = true) a -> ~ In 61 a.
Proof.
  intros F Hin. rewrite Forall_forall in F. specialize (F _ Hin). discriminate.
Qed.

Lemma firstn_exact {A} (a b : list A) : firstn (length a) (a ++ b) = a.
Proof.
  rewrite firstn_app, Nat.sub_diag, firstn_all. cbn. apply app_nil_r.
Qed.

Lemma load_line_Trim s l l' : Trim l = Trim l' -> load_line s l = load_line s l'.
Proof. intros E. unfold load_line. now rewrite E. Qed.

Lemma load_line_shape s key gap rest val :
  Trim key = key -> key <> [] -> ~ In 61 key -> hd 0 key <> 91 ->
  Forall (fun c => is_blank c = true) gap -> Trim rest = val ->
  Trim (key ++ gap ++ 61 :: rest) = key ++ gap ++ 61 :: rest ->
  load_line s (key ++ gap ++ 61 :: rest) = assign_setting s key val.
Proof.
  intros Hk N H61 H91 Fg Hr Ht. unfold load_line. rewrite Ht.
  destruct key as [|c key]; [contradiction|]. cbn [app hd] in *.
  destruct (c =? 91) eqn:E91; [apply Z.eqb_eq in E91; contradiction|].
  change (c :: key ++ gap ++ 61 :: rest) with ((c :: key) ++ gap ++ 61 :: rest).
  rewrite app_assoc.
  rewrite find_char_app.
  2:{ intros Hin. apply in_app_or in Hin. destruct Hin as [Hin|Hin];
      [contradiction|]. now apply blank_not_eq in Hin. }
  rewrite firstn_exact, skipn_past, Hr.
  pose proof (Trim_surrounded [] (c :: key) gap (Forall_nil _) Fg Hk) as T.
  cbn [app] in T |- *. rewrite T. reflexivity.
Qed.

(** X4.  Blanks (space, tab, CR, LF) before the key, around the equals sign
    and after the value of a line do not count: the line assigns the value
    to the key as the line without them does.  The key is not empty, holds
    no equals sign and does not start with a bracket. *)
Theorem load_line_ignores_padding :
  forall (s : State) (key val b1 b2 b3 b4 : wstring),
    Forall (fun c => is_blank c = true) b1 -> Forall (fun c => is_blank c = true) b2 ->
    Forall (fun c => is_blank c = true) b3 -> Forall (fun c => is_blank c = true) b4 ->
    Trim key = key -> key <> [] -> ~ In 61 key -> hd 0 key <> 91 ->
    Trim val = val ->
    load_line s (b1 ++ key ++ b2 ++ 61 :: b3 ++ val ++ b4) = assign_setting s key val.
Proof.
  intros s key val b1 b2 b3 b4 F1 F2 F3 F4 Hk N H61 H91 Hv.
  assert (Ck : starts_clean (key ++ b2 ++ [61])).
  { apply Trim_fixed in Hk. destruct key; [contradiction|]. apply Hk. }
  destruct val as [|v val].
  - (* no value: the blanks after the equals sign are trailing ones *)
    assert (T : Trim (key ++ b2 ++ [61]) = key ++ b2 ++ [61]).
    { apply Trim_fixed. split; [exact Ck|].
      rewrite !rev_app_distr. reflexivity. }
    rewrite (load_line_Trim s _ (key ++ b2 ++ [61])).
    + apply load_line_shape; auto.
    + rewrite T.
      replace (b1 ++ key ++ b2 ++ 61 :: b3 ++ [] ++ b4)
        with (b1 ++ (key ++ b2 ++ [61]) ++ (b3 ++ b4))
        by (now rewrite <- !app_assoc).
      apply Trim_surrounded; [exact F1|now apply Forall_app|exact T].
  - set (rest := b3 ++ v :: val).
    assert (Cv : starts_clean (rev (v :: val))).
    { apply Trim_fixed in Hv. apply Hv. }
    assert (T : Trim (key ++ b2 ++ 61 :: rest) = key ++ b2 ++ 61 :: rest).
    { apply Trim_fixed. split.
      - destruct key; [contradiction|]. apply Trim_fixed in Hk. apply Hk.
      - unfold rest.
        replace (key ++ b2 ++ 61 :: b3 ++ v :: val)
          with ((key ++ b2 ++ 61 :: b3) ++ v :: val)
          by (rewrite <- !app_assoc; reflexivity).
        rewrite rev_app_distr. apply starts_clean_app; [exact Cv|].
        intros E. apply (f_equal (@length Z)) in E. rewrite length_rev in E.
        discriminate. }
    rewrite (load_line_Trim s _ (key ++ b2 ++ 61 :: rest)).
    + apply load_line_shape; auto.
      unfold rest. rewrite <- (app_nil_r (v :: val)) at 1.
      apply Trim_surrounded; [exact F3|constructor|exact Hv].
    + rewrite T.
      replace (b1 ++ key ++ b2 ++ 61 :: b3 ++ (v :: val) ++ b4)
        with (b1 ++ (key ++ b2 ++ 61 :: rest) ++ b4)
        by (unfold rest; rewrite <- !app_assoc; cbn; rewrite <- !app_assoc; reflexivity).
      apply Trim_surrounded; [exact F1|exact F4|exact T].
Qed.

Lemma load_line_ignores_padding_witness :
  load_line sample_start (L "  MultiCore = 1 " ++ [13]) =
  assign_setting sample_start (L "MultiCore") (L "1").
Proof.
  apply (load_line_ignores_padding sample_start (L "MultiCore") (L "1") (L "  ") (L " ") (L " ")
           (L " " ++ [13]));
    try (vm_compute; repeat constructor); try (vm_compute; reflexivity);
    try (vm_compute; discriminate); try (vm_compute; intuition discriminate).
Defined.

Lemma only_settings_differ_trans s1 s2 s3 :
  only_settings_differ s1 s2 -> only_settings_differ s2 s3 -> only_settings_differ s1 s3.
Proof.
  unfold only_settings_differ. intros H1 H2.
  repeat match goal with H : _ /\ _ |- _ => destruct H end.
  repeat split; congruence.
Qed.

Lemma assign_setting_frame s key val : only_settings_differ s (assign_setting s key val).
Proof.
  unfold assign_setting, only_settings_differ.
  repeat match goal with |- context [if ?c then _ else _] => destruct c end;
    cbn; repeat split; reflexivity.
Qed.

Lemma load_line_frame s line : only_settings_differ s (load_line s line).
Proof.
  unfold load_line.
  destruct (Trim line) as [|c t]; [repeat split; reflexivity|].
  destruct (c =? 91); [repeat split; reflexivity|].
  destruct (find_char 61 (c :: t)); [|repeat split; reflexivity].
  apply assign_setting_frame.
Qed.

Lemma fold_load_line_frame ls : forall s, only_settings_differ s (fold_left load_line ls s).
Proof.
  induction ls as [|line ls IH]; intros s; [repeat split; reflexivity|].
  cbn [fold_left]. eapply only_settings_differ_trans; [apply load_line_frame|apply IH].
Qed.

(** X5.  Whatever the configuration file holds, loading it changes nothing
    but the five stored settings and the list of search paths: the screen,
    the selections, the game list, the install state, the decoder, the
    engine objects, the three core options and the file itself stay as they
    were. *)
Theorem load_changes_only_settings_and_paths :
  forall (e : Env) (s : State), only_settings_differ s (LoadSettings e s).
Proof.
  intros e s. unfold LoadSettings.
  destruct (open_config e s) as [text|]; [|repeat split; reflexivity].
  eapply only_settings_differ_trans; [|apply fold_load_line_frame].
  repeat split; reflexivity.
Qed.

Lemma Trim_leading_blanks b x :
  Forall (fun c => is_blank c = true) b -> Trim (b ++ x) = Trim x.
Proof. intros F. unfold Trim. now rewrite drop_blank_app_blank. Qed.

Lemma drop_blank_suffix s : exists pre, s = pre ++ drop_blank s.
Proof.
  induction s as [|c s (pre & E)]; [exists []; reflexivity|]. cbn [drop_blank].
  destruct (is_blank c); [exists (c :: pre); cbn; congruence|exists []; reflexivity].
Qed.

Lemma Trim_prefix_of_clean c x : is_blank c = false -> exists t post, Trim (c :: x) = c :: t /\
  c :: x = (c :: t) ++ post.
Proof.
  intros Hc. unfold Trim. cbn [drop_blank]. rewrite Hc.
  destruct (drop_blank_suffix (rev (c :: x))) as (pre & E).
  apply (f_equal (@rev Z)) in E. rewrite rev_involutive, rev_app_distr in E.
  destruct (rev (drop_blank (rev (c :: x)))) as [|c' t] eqn:R.
  - exfalso. apply (f_equal (@rev Z)) in R. rewrite rev_involutive in R. cbn [rev] in R.
    assert (D : drop_blank (rev (c :: x)) <> []).
    { cbn [rev]. clear -Hc. induction (rev x) as [|y l IH]; cbn.
      - now rewrite Hc.
      - destruct (is_blank y); [exact IH|discriminate]. }
    contradiction.
  - cbn [app] in E. injection E as <- E. exists t, (rev pre). split; [reflexivity|].
    cbn [app]. now rewrite E.
Qed.

Lemma Trim_in l x : In x (Trim l) -> In x l.
Proof.
  unfold Trim. intros H. apply in_rev in H.
  destruct (drop_blank_suffix (rev (drop_blank l))) as (p1 & E1).
  destruct (drop_blank_suffix l) as (p2 & E2).
  rewrite E2. apply in_or_app. right. apply in_rev. rewrite E1.
  apply in_or_app. now right.
Qed.

Lemma find_char_none c l : ~ In c l -> find_char c l = None.
Proof.
  induction l as [|x l IH]; intros N; [reflexivity|]. cbn.
  destruct (Z.eqb_spec x c) as [->|_]; [exfalso; apply N; now left|].
  rewrite IH; [reflexivity|]. intros H. apply N. now right.
Qed.

Lemma assign_setting_comment s k val : assign_setting s (35 :: k) val = s.
Proof. reflexivity. Qed.

(** X6.  Lines that are no directive leave everything as it is: a line of
    blanks only, a line whose first character after the leading blanks is
    an opening bracket (a section marker) or a hash sign (a comment), and
    a line without an equals sign. *)
Theorem load_line_skips_what_is_no_directive :
  forall (s : State) (line : wstring),
    (Forall (fun c => is_blank c = true) line -> load_line s line = s) /\
    (forall b c rest,
       line = b ++ c :: rest -> Forall (fun c => is_blank c = true) b ->
       c = 91 \/ c = 35 -> load_line s line = s) /\
    (~ In 61 line -> load_line s line = s).
Proof.
  intros s line. split; [|split].
  - intros F. unfold load_line, Trim. rewrite (drop_blank_all_blank line F). reflexivity.
  - intros b c rest -> F Hc. unfold load_line. rewrite Trim_leading_blanks by exact F.
    assert (Bc : is_blank c = false) by (destruct Hc as [-> | ->]; reflexivity).
    destruct (Trim_prefix_of_clean c rest Bc) as (t & post & -> & _).
    destruct Hc as [-> | ->]; [reflexivity|].
    change (35 =? 91) with false. cbv iota.
    destruct (find_char 61 (35 :: t)) as [eq|] eqn:Ef; [|reflexivity].
    cbn [find_char] in Ef. change (35 =? 61) with false in Ef. cbv iota in Ef.
    destruct (find_char 61 t) as [k|]; [|discriminate]. injection Ef as <-.
    cbn [firstn].
    destruct (Trim_prefix_of_clean 35 (firstn k t) eq_refl) as (k' & post' & -> & _).
    apply assign_setting_comment.
  - intros N. unfold load_line.
    destruct (Trim line) as [|c t] eqn:T; [reflexivity|].
    destruct (c =? 91); [reflexivity|].
    rewrite find_char_none; [reflexivity|].
    intros H. apply N. apply Trim_in. now rewrite T.
Qed.

Lemma load_line_skips_what_is_no_directive_witness :
  load_line sample_start (L "  # Language=5") = sample_start /\
  load_line sample_start (L "[Language=5]") = sample_start /\
  load_line sample_start (L "Language 5") = sample_start.
Proof.
  split; [|split].
  - apply (proj1 (proj2 (load_line_skips_what_is_no_directive sample_start
                           (L "  # Language=5"))) (L "  ") 35 (L " Language=5")).
    + reflexivity.
    + vm_compute. repeat constructor.
    + now right.
  - apply (proj1 (proj2 (load_line_skips_what_is_no_directive sample_start
                           (L "[Language=5]"))) [] 91 (L "Language=5]")).
    + reflexivity.
    + constructor.
    + now left.
  - apply (proj2 (proj2 (load_line_skips_what_is_no_directive sample_start (L "Language 5")))).
    vm_compute. intros H. repeat (destruct H as [H|H]; [discriminate|]). exact H.
Defined.

(** ** The search paths and the whole scan *)

Lemma fs_exists_known e p : statuses_known e -> fs_exists e p <> None.
Proof.
  intros K. unfold fs_exists. specialize (K p).
  destruct (fs_at e p) as [[| |]|]; congruence.
Qed.

Lemma fs_exists_None e p : fs_exists e p = None <-> fs_at e p = Some NoStatus.
Proof. unfold fs_exists. destruct (fs_at e p) as [[| |]|]; split; congruence. Qed.

Lemma existsb_path acc p :
  existsb (fun s => path_eqb s p) acc = true <-> exists q, In q acc /\ path_eq q p.
Proof.
  rewrite existsb_exists. split; intros (q & Hq & E); exists q; split; auto;
    now apply path_eqb_eq.
Qed.

Lemma distinct_paths_snoc acc x :
  distinct_paths acc -> (forall q, In q acc -> ~ path_eq q x) -> distinct_paths (acc ++ [x]).
Proof.
  unfold distinct_paths. induction 1 as [|a l Ha Hl IH]; intros Hx; cbn [app].
  - repeat constructor.
  - constructor.
    + apply Forall_app. split; [exact Ha|]. constructor; [|constructor].
      apply Hx. now left.
    + apply IH. intros q Hq. apply Hx. now right.
Qed.

Lemma distinct_paths_nth l : distinct_paths l ->
  forall i j p q, nth_error l i = Some p -> nth_error l j = Some q -> path_eq p q -> i = j.
Proof.
  unfold distinct_paths. induction 1 as [|a l Ha Hl IH]; intros i j p q Hi Hj E.
  - destruct i; discriminate.
  - rewrite Forall_forall in Ha.
    destruct i as [|i], j as [|j]; cbn in Hi, Hj.
    + reflexivity.
    + injection Hi as <-. apply nth_error_In in Hj. now destruct (Ha _ Hj).
    + injection Hj as <-. apply nth_error_In in Hi. apply path_eq_sym in E.
      now destruct (Ha _ Hi).
    + f_equal. eauto.
Qed.

(** The loop of main.cpp 160-166 when no status query throws: it appends
    user paths that exist, none equal to a path that is already there, and
    leaves out only paths that are not there or are equal to one that is
    searched. *)
Lemma fold_add_user_path e l : forall acc r,
  distinct_paths acc ->
  fold_throwing (add_user_path e) l acc = Some r ->
  exists users,
    r = acc ++ users /\ distinct_paths (acc ++ users) /\
    (forall p, In p users -> In p l /\ fs_exists e p = Some true) /\
    (forall p, In p l -> fs_exists e p = Some true ->
               exists q, In q (acc ++ users) /\ path_eq q p) /\
    (forall p, In p l -> (forall q, In q l -> path_eq q p -> q = p) ->
               (forall q, In q acc -> ~ path_eq q p) ->
               fs_exists e p = Some true -> In p users) /\
    (forall p, In p l -> fs_exists e p <> None).
Proof.
  induction l as [|x l IH]; intros acc r N H.
  - cbn in H. injection H as <-. exists []. rewrite app_nil_r.
    split; [reflexivity|]. split; [exact N|].
    split; [intros q []|]. split; [intros q []|]. split; intros q [].
  - cbn [fold_throwing] in H. unfold add_user_path at 1 in H.
    destruct (fs_exists e x) as [[|]|] eqn:Ex; [| |discriminate].
    + destruct (existsb (fun s => path_eqb s x) acc) eqn:Ea.
      * apply existsb_path in Ea. destruct Ea as (q0 & Hq0 & Eq0).
        destruct (IH acc r N H) as (users & E & ND & Hin & Hcov & Hown & Hq).
        exists users. split; [exact E|]. split; [exact ND|].
        split; [|split; [|split]].
        -- intros p Hp. destruct (Hin p Hp). split; [now right|assumption].
        -- intros p [<-|Hp] He; [|now apply Hcov].
           exists q0. split; [apply in_or_app; now left|exact Eq0].
        -- intros p [<-|Hp] Hfirst Hacc He.
           ++ now destruct (Hacc q0 Hq0).
           ++ apply Hown; auto. intros q Hq'. apply Hfirst. now right.
        -- intros p [<-|Hp]; [congruence|now apply Hq].
      * assert (Na : forall q, In q acc -> ~ path_eq q x).
        { intros q Hq E. assert (C : existsb (fun s => path_eqb s x) acc = true)
            by (apply existsb_path; eauto). congruence. }
        destruct (IH (acc ++ [x]) r (distinct_paths_snoc acc x N Na) H)
          as (users & E & ND & Hin & Hcov & Hown & Hq).
        exists (x :: users). rewrite <- app_assoc in E, ND. cbn [app] in E, ND.
        split; [exact E|]. split; [exact ND|]. split; [|split; [|split]].
        -- intros p [<-|Hp]; [split; [now left|exact Ex]|].
           destruct (Hin p Hp). split; [now right|assumption].
        -- intros p [<-|Hp] He.
           ++ exists x. split; [apply in_or_app; right; now left|apply path_eq_refl].
           ++ destruct (Hcov p Hp He) as (q & Hq' & Eq). exists q. split; [|exact Eq].
              rewrite <- app_assoc in Hq'. exact Hq'.
        -- intros p [<-|Hp] Hfirst Hacc He; [now left|].
           destruct (list_eq_dec Z.eq_dec x p) as [->|Nx]; [now left|]. right.
           apply Hown; auto.
           ++ intros q Hq'. apply Hfirst. now right.
           ++ intros q Hq' Eq. apply in_app_or in Hq'. destruct Hq' as [Hq'|[<-|[]]].
              ** now apply (Hacc q).
              ** apply Nx. apply Hfirst; [now left|exact Eq].
        -- intros p [<-|Hp]; [congruence|now apply Hq].
    + destruct (IH acc r N H) as (users & E & ND & Hin & Hcov & Hown & Hq).
      exists users. split; [exact E|]. split; [exact ND|]. split; [|split; [|split]].
      * intros p Hp. destruct (Hin p Hp). split; [now right|assumption].
      * intros p [<-|Hp] He; [congruence|now apply Hcov].
      * intros p [<-|Hp] Hfirst Hacc He; [congruence|].
        apply Hown; auto. intros q Hq'. apply Hfirst. now right.
      * intros p [<-|Hp]; [congruence|now apply Hq].
Qed.

Lemma fold_add_user_path_total e l : forall acc,
  (forall p, In p l -> fs_exists e p <> None) ->
  exists r, fold_throwing (add_user_path e) l acc = Some r.
Proof.
  induction l as [|x l IH]; intros acc K; [now exists acc|].
  cbn [fold_throwing]. unfold add_user_path at 1.
  assert (Kl : forall p, In p l -> fs_exists e p <> None) by (intros p Hp; apply K; now right).
  destruct (fs_exists e x) as [[|]|] eqn:Ex.
  - destruct (existsb _ acc); now apply IH.
  - now apply IH.
  - exfalso. apply (K x); [now left|exact Ex].
Qed.

(** The loop of main.cpp 169-172 when no status query throws. *)
Lemma fold_add_drive e letters : forall acc r,
  fold_throwing (add_drive e) letters acc = Some r ->
  exists drives,
    r = acc ++ drives /\
    (forall p, In p drives <->
               exists letter, In letter letters /\ p = drive_root letter /\
                              fs_exists e p = Some true) /\
    (forall letter, In letter letters -> fs_exists e (drive_root letter) <> None).
Proof.
  induction letters as [|c letters IH]; intros acc r H.
  - cbn in H. injection H as <-. exists []. rewrite app_nil_r. split; [reflexivity|].
    split; [|intros letter []]. intros p. split; [intros []|intros (letter & [] & _)].
  - cbn [fold_throwing] in H. unfold add_drive at 1 in H. fold (drive_root c) in H.
    destruct (fs_exists e (drive_root c)) as [[|]|] eqn:Ex; [| |discriminate].
    + destruct (IH _ _ H) as (drives & E & Hin & Hq). exists (drive_root c :: drives).
      rewrite <- app_assoc in E. split; [exact E|]. split.
      * intros p. cbn [In]. rewrite Hin. split.
        -- intros [<-|(letter & Hl & Hp & He)]; [exists c; auto|].
           exists letter. auto.
        -- intros (letter & [<-|Hl] & Hp & He); [now left|]. right. exists letter. auto.
      * intros letter [<-|Hl]; [congruence|now apply Hq].
    + destruct (IH _ _ H) as (drives & E & Hin & Hq). exists drives.
      split; [exact E|]. split.
      * intros p. rewrite Hin. cbn [In]. split.
        -- intros (letter & Hl & Hp & He). exists letter. auto.
        -- intros (letter & [<-|Hl] & Hp & He); [congruence|]. exists letter. auto.
      * intros letter [<-|Hl]; [congruence|now apply Hq].
Qed.

Lemma fold_add_drive_total e letters : forall acc,
  (forall letter, In letter letters -> fs_exists e (drive_root letter) <> None) ->
  exists r, fold_throwing (add_drive e) letters acc = Some r.
Proof.
  induction letters as [|c letters IH]; intros acc K; [now exists acc|].
  cbn [fold_throwing]. unfold add_drive at 1. fold (drive_root c).
  assert (Kl : forall l, In l letters -> fs_exists e (drive_root l) <> None)
    by (intros l Hl; apply K; now right).
  destruct (fs_exists e (drive_root c)) as [[|]|] eqn:Ex; try now apply IH.
  exfalso. apply (K c); [now left|exact Ex].
Qed.

(** A path that is not there adds nothing. *)
Lemma scan_root_absent e p : fs_exists e p = Some false -> scan_root e p = [].
Proof.
  unfold fs_exists, scan_root. destruct (fs_at e p) as [[| |]|]; try discriminate; reflexivity.
Qed.

(** The loop of main.cpp 174-187 when no status query throws. *)
Lemma fold_scan_path e paths : forall acc r,
  fold_throwing (scan_path e) paths acc = Some r ->
  r = acc ++ flat_map (scan_root e) paths /\
  forall p, In p paths -> fs_exists e p <> None.
Proof.
  induction paths as [|x paths IH]; intros acc r H.
  - cbn in H. injection H as <-. rewrite app_nil_r. split; [reflexivity|intros p []].
  - cbn [fold_throwing] in H. unfold scan_path at 1 in H.
    destruct (fs_exists e x) as [[|]|] eqn:Ex; [| |discriminate];
      destruct (IH _ _ H) as [E Hq]; split.
    + rewrite E. cbn [flat_map]. now rewrite app_assoc.
    + intros p [<-|Hp]; [congruence|now apply Hq].
    + rewrite E. cbn [flat_map]. now rewrite (scan_root_absent e x Ex).
    + intros p [<-|Hp]; [congruence|now apply Hq].
Qed.

Lemma fold_scan_path_total e paths : forall acc,
  (forall p, In p paths -> fs_exists e p <> None) ->
  fold_throwing (scan_path e) paths acc = Some (acc ++ flat_map (scan_root e) paths).
Proof.
  induction paths as [|x paths IH]; intros acc K; cbn [fold_throwing flat_map].
  - now rewrite app_nil_r.
  - unfold scan_path at 1. destruct (fs_exists e x) as [[|]|] eqn:Ex.
    + rewrite IH by (intros p Hp; apply K; now right). now rewrite app_assoc.
    + rewrite IH by (intros p Hp; apply K; now right).
      now rewrite (scan_root_absent e x Ex).
    + exfalso. apply (K x); [now left|exact Ex].
Qed.

Lemma in_drive_letters letter : In letter drive_letters <-> 69 <= letter <= 90.
Proof.
  unfold drive_letters. rewrite in_map_iff. split.
  - intros (i & <- & Hi). apply in_seq in Hi. lia.
  - intros H. exists (Z.to_nat (letter - 69)). split; [lia|]. apply in_seq. lia.
Qed.

Lemma distinct_paths_one p : distinct_paths [p].
Proof. repeat constructor. Qed.

(** The search paths, when the status queries that build them are
    answered. *)
Lemma search_paths_parts e s paths :
  search_paths e s = Some paths ->
  exists users drives,
    paths = L "D:\Games" :: users ++ drives /\
    distinct_paths (L "D:\Games" :: users) /\
    (forall p, In p users -> In p (g_UserGamePaths s) /\ fs_exists e p = Some true) /\
    (forall p, In p (g_UserGamePaths s) -> fs_exists e p = Some true ->
               exists q, In q (L "D:\Games" :: users) /\ path_eq q p) /\
    (forall p, In p (g_UserGamePaths s) ->
               (forall q, In q (g_UserGamePaths s) -> path_eq q p -> q = p) ->
               ~ path_eq (L "D:\Games") p ->
               fs_exists e p = Some true -> In p users) /\
    (forall p, In p drives <->
               exists letter, 69 <= letter <= 90 /\ p = drive_root letter /\
                              fs_exists e p = Some true) /\
    (forall p, In p (g_UserGamePaths s) -> fs_exists e p <> None) /\
    (forall letter, 69 <= letter <= 90 -> fs_exists e (drive_root letter) <> None).
Proof.
  unfold search_paths. intros H.
  destruct (fold_throwing (add_user_path e) (g_UserGamePaths s) [L "D:\Games"])
    as [r|] eqn:Eu; [|discriminate].
  destruct (fold_add_user_path e _ _ _ (distinct_paths_one _) Eu)
    as (users & -> & ND & Hin & Hcov & Hown & Hq).
  destruct (fold_add_drive e _ _ _ H) as (drives & -> & Hd & Hdq).
  exists users, drives. cbn [app] in *.
  split; [reflexivity|]. split; [exact ND|]. split; [exact Hin|]. split; [exact Hcov|].
  split; [|split; [|split; [exact Hq|]]].
  - intros p Hp Hfirst HD He. apply Hown; auto.
    intros q [<-|[]]. exact HD.
  - intros p. rewrite Hd. split; intros (letter & Hl & R); exists letter;
      (split; [now apply in_drive_letters|exact R]).
  - intros letter Hl. apply Hdq. now apply in_drive_letters.
Qed.

(** The search paths are built exactly when the status of every user path
    and of every drive folder is read. *)
Lemma search_paths_total e s :
  (forall p, In p (g_UserGamePaths s) -> fs_exists e p <> None) ->
  (forall letter, 69 <= letter <= 90 -> fs_exists e (drive_root letter) <> None) ->
  exists paths, search_paths e s = Some paths.
Proof.
  intros Ku Kd. unfold search_paths.
  destruct (fold_add_user_path_total e (g_UserGamePaths s) [L "D:\Games"] Ku) as (r & ->).
  apply fold_add_drive_total. intros letter Hl. apply Kd. now apply in_drive_letters.
Qed.

Lemma search_paths_set_games e games s : search_paths e (set_games games s) = search_paths e s.
Proof. reflexivity. Qed.

(** A scan that returns has built the search paths and lists what the
    scan of each of them gives, in their order. *)
Lemma ScanGames_Done e s s' log :
  ScanGames e s = Done tt s' log ->
  exists paths,
    search_paths e s = Some paths /\
    s' = set_games (flat_map (scan_root e) paths) s /\ log = [] /\
    forall p, In p paths -> fs_exists e p <> None.
Proof.
  unfold ScanGames. intros H.
  destruct (search_paths e s) as [paths|]; [|discriminate].
  destruct (fold_throwing (scan_path e) paths []) as [games|] eqn:Eg; [|discriminate].
  destruct (fold_scan_path e _ _ _ Eg) as [-> Hq]. injection H as <- <-.
  exists paths. auto.
Qed.

Lemma queried_paths e s paths p :
  search_paths e s = Some paths -> In p paths -> queried s p.
Proof.
  intros H Hp. destruct (search_paths_parts e s paths H)
    as (users & drives & -> & _ & Hin & _ & _ & Hd & _).
  destruct Hp as [<-|Hp]; [now left|]. apply in_app_or in Hp. destruct Hp as [Hp|Hp].
  - right. left. now apply Hin.
  - right. right. apply Hd in Hp. destruct Hp as (letter & Hl & -> & _). eauto.
Qed.

(** The scan returns exactly when every status it asks for is read, and
    ends by an exception no one catches otherwise. *)
Lemma ScanGames_returns e s :
  (forall p, queried s p -> fs_exists e p <> None) <->
  exists paths,
    search_paths e s = Some paths /\
    ScanGames e s = Done tt (set_games (flat_map (scan_root e) paths) s) [].
Proof.
  split.
  - intros K.
    destruct (search_paths_total e s) as (paths & E).
    { intros p Hp. apply K. right. now left. }
    { intros letter Hl. apply K. right. right. eauto. }
    exists paths. split; [exact E|]. unfold ScanGames. rewrite E.
    rewrite fold_scan_path_total; [reflexivity|].
    intros p Hp. apply K. eapply queried_paths; eauto.
  - intros (paths & E & H) p Hp.
    destruct (ScanGames_Done e s _ _ H) as (paths' & E' & _ & _ & Hq).
    rewrite E in E'. injection E' as <-.
    destruct (search_paths_parts e s paths E)
      as (users & drives & -> & _ & _ & _ & _ & _ & Hu & Hd).
    destruct Hp as [->|[Hp|(letter & Hl & ->)]].
    + apply Hq. now left.
    + now apply Hu.
    + now apply Hd.
Qed.

Lemma ScanGames_known e s :
  statuses_known e ->
  exists paths,
    search_paths e s = Some paths /\
    ScanGames e s = Done tt (set_games (flat_map (scan_root e) paths) s) [].
Proof.
  intros K. apply ScanGames_returns. intros p _. now apply fs_exists_known.
Qed.

(** X7.  When the scan has its search paths, they are: [D:\Games] first,
    whether it is there or not; then user paths that exist, no two of them
    equal paths and none equal to [D:\Games], with, for every user path
    that exists, a path equal to it among them or [D:\Games], and the path
    itself when no other user path and not [D:\Games] is equal to it; then
    the folder [X:\Games] of every drive letter from E to Z that has one,
    and nothing else.  The search paths are there exactly when the status
    of every user path and of every folder [X:\Games] is read. *)
Theorem search_paths_order :
  forall (e : Env) (s : State),
    ((exists paths, search_paths e s = Some paths) <->
     (forall p, In p (g_UserGamePaths s) -> fs_exists e p <> None) /\
     (forall letter, 69 <= letter <= 90 -> fs_exists e (drive_root letter) <> None)) /\
    forall paths, search_paths e s = Some paths ->
    exists users drives,
      paths = L "D:\Games" :: users ++ drives /\
      distinct_paths (L "D:\Games" :: users) /\
      (forall p, In p users -> In p (g_UserGamePaths s) /\ fs_exists e p = Some true) /\
      (forall p, In p (g_UserGamePaths s) -> fs_exists e p = Some true ->
                 exists q, In q (L "D:\Games" :: users) /\ path_eq q p) /\
      (forall p, In p (g_UserGamePaths s) ->
                 (forall q, In q (g_UserGamePaths s) -> path_eq q p -> q = p) ->
                 ~ path_eq (L "D:\Games") p ->
                 fs_exists e p = Some true -> In p users) /\
      (forall p, In p drives <->
                 exists letter, 69 <= letter <= 90 /\ p = drive_root letter /\
                                fs_exists e p = Some true).
Proof.
  intros e s. split.
  - split.
    + intros (paths & E).
      destruct (search_paths_parts e s paths E) as (_ & _ & _ & _ & _ & _ & _ & _ & Hu & Hd).
      auto.
    + intros [Hu Hd]. now apply search_paths_total.
  - intros paths E.
    destruct (search_paths_parts e s paths E)
      as (users & drives & P & N & Hin & Hcov & Hown & Hd & _).
    exists users, drives. auto 10.
Qed.

Lemma walk_sound n : forall parent q,
  In {| ent_path := q; is_regular_file := true |} (fst (walk parent n)) ->
  regular_file_in parent [n] q.
Proof.
  induction n as [f|f|d children IH|d] using node_tree_ind; intros parent q Hin.
  - cbn in Hin. destruct Hin as [E|[]]. injection E as <-.
    apply file_here. now left.
  - cbn in Hin. destruct Hin as [E|[]]. discriminate.
  - rewrite walk_Dir in Hin.
    destruct (walk_children (path_join parent d) children) as [es ok] eqn:W.
    cbn in Hin. destruct Hin as [E|Hin]; [discriminate|].
    apply file_below with (d := d) (sub := children); [now left|].
    revert es ok W Hin.
    induction IH as [|c l Hc _ IHl]; intros es ok W Hin.
    + cbn in W. injection W as <- <-. destruct Hin.
    + cbn [walk_children] in W.
      destruct (walk (path_join parent d) c) as [es1 ok1] eqn:W1.
      apply regular_file_in_cons.
      destruct ok1.
      * destruct (walk_children (path_join parent d) l) as [es2 ok2] eqn:W2.
        injection W as <- <-. apply in_app_or in Hin. destruct Hin as [Hin|Hin].
        -- left. apply Hc. now rewrite W1.
        -- right. eapply IHl; [reflexivity|exact Hin].
      * injection W as <- <-. left. apply Hc. now rewrite W1.
  - cbn in Hin. destruct Hin as [E|[]]. discriminate.
Qed.

Lemma walk_children_sound children : forall parent q,
  In {| ent_path := q; is_regular_file := true |} (fst (walk_children parent children)) ->
  regular_file_in parent children q.
Proof.
  induction children as [|c l IH]; intros parent q Hin; [destruct Hin|].
  cbn [walk_children] in Hin.
  destruct (walk parent c) as [es1 ok1] eqn:W1.
  apply regular_file_in_cons.
  destruct ok1.
  - destruct (walk_children parent l) as [es2 ok2] eqn:W2. cbn in Hin.
    apply in_app_or in Hin. destruct Hin as [Hin|Hin].
    + left. apply walk_sound. now rewrite W1.
    + right. apply IH. now rewrite W2.
  - left. apply walk_sound. now rewrite W1.
Qed.

Lemma dirent_eta entry :
  entry = {| ent_path := ent_path entry; is_regular_file := is_regular_file entry |}.
Proof. now destruct entry. Qed.

(** The scan fails exactly when a status it asks for is not read. *)
Lemma ScanGames_fails e s :
  ScanGames e s = Failed UncaughtException <->
  exists p, queried s p /\ fs_at e p = Some NoStatus.
Proof.
  split.
  - intros F.
    assert (N : ~ forall p, queried s p -> fs_exists e p <> None).
    { intros K. apply ScanGames_returns in K. destruct K as (paths & _ & H). congruence. }
    assert (D : forall l, (exists p, In p l /\ fs_at e p = Some NoStatus) \/
                          (forall p, In p l -> fs_at e p <> Some NoStatus)).
    { induction l as [|x l [(p & Hp & Ep)|IH]].
      - right. intros p [].
      - left. exists p. split; [now right|exact Ep].
      - destruct (fs_at e x) as [[| |]|] eqn:Ex;
          try (right; intros p [<-|Hp]; [congruence|now apply IH]).
        left. exists x. split; [now left|exact Ex]. }
    destruct (D (L "D:\Games" :: g_UserGamePaths s ++ map drive_root drive_letters))
      as [(p & Hp & Ep)|K].
    + exists p. split; [|exact Ep]. destruct Hp as [<-|Hp]; [now left|].
      apply in_app_or in Hp. destruct Hp as [Hp|Hp]; [right; now left|].
      apply in_map_iff in Hp. destruct Hp as (letter & <- & Hl).
      right. right. exists letter. split; [now apply in_drive_letters|reflexivity].
    + exfalso. apply N. intros p Hp Ep. apply fs_exists_None in Ep. revert Ep.
      destruct Hp as [->|[Hp|(letter & Hl & ->)]]; apply K.
      * now left.
      * right. apply in_or_app. now left.
      * right. apply in_or_app. right. apply in_map. now apply in_drive_letters.
  - intros (p & Hp & Ep).
    destruct (ScanGames_cases e s) as [F|(games & H)]; [exact F|]. exfalso.
    destruct (ScanGames_Done e s _ _ H) as (paths & E & _).
    apply fs_exists_None in Ep. revert Ep.
    apply (proj2 (ScanGames_returns e s)); [|exact Hp].
    exists paths. split; [exact E|]. rewrite H.
    destruct (ScanGames_Done e s _ _ H) as (paths' & E' & -> & _).
    rewrite E in E'. now injection E' as <-.
Qed.

(** X8.  A scan that returns lists exactly this: every game it lists is a
    regular file at some depth below a search path that is a directory, has
    the extension [.nsp] or [.xci] up to case, and is named by the last
    component of its path; and every such file below a search path whose
    tree is walked without an I/O error is listed.  The scan returns
    exactly when the status of [D:\Games], of every user path and of every
    folder [X:\Games] from E to Z is read; when one of them is not, the
    scan ends by an exception that nothing catches, and nothing is
    listed. *)
Theorem scan_lists_recognized_files_of_search_paths :
  forall (e : Env) (s : State),
    ((exists s', ScanGames e s = Done tt s' []) <->
     (forall p, queried s p -> fs_at e p <> Some NoStatus)) /\
    (ScanGames e s = Failed UncaughtException <->
     (exists p, queried s p /\ fs_at e p = Some NoStatus)) /\
    forall s' log, ScanGames e s = Done tt s' log ->
    exists paths,
      search_paths e s = Some paths /\
      (forall g, In g (g_Games s') ->
         exists root children,
           In root paths /\ fs_at e root = Some (FsDir children) /\
           regular_file_in root children (game_path g) /\
           recognized_extension (extension (game_path g)) /\
           name g = filename (game_path g)) /\
      (forall root children p,
         In root paths -> fs_at e root = Some (FsDir children) ->
         forallb readable children = true ->
         regular_file_in root children p -> recognized_extension (extension p) ->
         In {| name := filename p; game_path := p |} (g_Games s')).
Proof.
  intros e s.
  assert (R : (exists s', ScanGames e s = Done tt s' []) <->
              (forall p, queried s p -> fs_at e p <> Some NoStatus)).
  { split.
    - intros (s' & H) p Hp N. apply fs_exists_None in N. revert N.
      destruct (ScanGames_Done e s s' [] H) as (paths & E & -> & _ & _).
      apply (proj2 (ScanGames_returns e s)); eauto.
    - intros K. destruct (proj1 (ScanGames_returns e s)) as (paths & _ & H); [|eauto].
      intros p Hp N. apply fs_exists_None in N. now apply (K p). }
  split; [exact R|]. split; [apply ScanGames_fails|].
  intros s' log H.
  destruct (ScanGames_Done e s s' log H) as (paths & E & -> & _ & _).
  exists paths. split; [exact E|]. cbn [g_Games set_games]. split.
  - intros g Hg.
    apply in_flat_map in Hg. destruct Hg as (root & Hroot & Hg).
    unfold scan_root in Hg.
    destruct (fs_at e root) as [[|children|]|] eqn:Hfs; try destruct Hg.
    apply in_flat_map in Hg. destruct Hg as (entry & Hentry & Hg).
    apply in_scan_entry in Hg. destruct Hg as (Hreg & Hext & ->).
    exists root, children. cbn [game_path name].
    split; [exact Hroot|]. split; [exact Hfs|]. split; [|split; [exact Hext|reflexivity]].
    apply walk_children_sound. rewrite (dirent_eta entry), Hreg in Hentry. exact Hentry.
  - intros root children p Hroot Hfs Hr Hp Hext.
    apply in_flat_map. exists root. split; [exact Hroot|].
    unfold scan_root. rewrite Hfs. apply in_flat_map.
    exists {| ent_path := p; is_regular_file := true |}. split.
    + now apply walk_children_readable.
    + apply in_scan_entry. cbn. auto.
Qed.

Lemma scan_lists_recognized_files_of_search_paths_witness :
  (exists s',
     ScanGames (tick 0 0 sample_tree None) sample_start = Done tt s' [] /\
     In {| name := L "d.xci"; game_path := L "D:\Games\sub\d.xci" |} (g_Games s')) /\
  ScanGames (tick_drive_F_fails 0 0 None) sample_start = Failed UncaughtException.
Proof.
  split.
  - destruct (ScanGames (tick 0 0 sample_tree None) sample_start) as [[] s' log|f] eqn:H;
      [|vm_compute in H; discriminate].
    assert (log = []) as -> by (vm_compute in H; now injection H).
    exists s'. split; [reflexivity|].
    destruct (proj2 (proj2 (scan_lists_recognized_files_of_search_paths
                              (tick 0 0 sample_tree None) sample_start)) s' [] H)
      as (paths & E & _ & K).
    apply (K (L "D:\Games") sample_tree (L "D:\Games\sub\d.xci")).
    + vm_compute in E. injection E as <-. left. reflexivity.
    + reflexivity.
    + reflexivity.
    + apply file_below with (d := L "sub") (sub := [File (L "d.xci")]).
      * right. right. right. left. reflexivity.
      * apply (file_here (path_join (L "D:\Games") (L "sub")) [File (L "d.xci")] (L "d.xci")).
        left. reflexivity.
    + right. vm_compute. repeat constructor.
  - apply (proj1 (proj2 (scan_lists_recognized_files_of_search_paths
                           (tick_drive_F_fails 0 0 None) sample_start))).
    exists (L "F:\Games"). split; [|reflexivity].
    right. right. exists 70. split; [lia|reflexivity].
Defined.

Lemma drive_root_not_D letter : 69 <= letter <= 90 -> ~ path_eq (L "D:\Games") (drive_root letter).
Proof.
  intros Hl E. apply path_compare_Eq in E. destruct E as (E & _).
  unfold root_name, root_name_length, drive_root in E. cbn [app L] in E.
  assert (D : is_drive_letter letter = true).
  { unfold is_drive_letter. apply orb_true_iff. left. apply andb_true_iff.
    split; apply Z.leb_le; lia. }
  change (L "D:\Games") with (68 :: 58 :: L "\Games") in E.
  change (L ":\Games") with (58 :: L "\Games") in E.
  rewrite D in E. cbn in E. injection E as E. lia.
Qed.

(** X9.  A user path that is the folder [X:\Games] of a drive from E to Z
    is searched twice, once as a user path and once as the drive's folder,
    so the games below it are listed twice.  As a user path it is searched
    under the spelling of the first user path that is equal to it, which
    is its own when no user path spells it differently. *)
Theorem drive_folder_as_user_path_is_scanned_twice :
  forall (e : Env) (s : State) (letter : Z) (paths : list path),
    In letter drive_letters -> fs_exists e (drive_root letter) = Some true ->
    In (drive_root letter) (g_UserGamePaths s) ->
    search_paths e s = Some paths ->
    exists q,
      path_eq q (drive_root letter) /\ In q (g_UserGamePaths s) /\
      ((forall p, In p (g_UserGamePaths s) -> path_eq p (drive_root letter) ->
                  p = drive_root letter) -> q = drive_root letter) /\
      (exists a b c, paths = a ++ q :: b ++ drive_root letter :: c) /\
      (forall s' log, ScanGames e s = Done tt s' log ->
         exists x y z,
           g_Games s' =
           x ++ scan_root e q ++ y ++ scan_root e (drive_root letter) ++ z).
Proof.
  intros e s letter paths Hl He Hu E.
  apply in_drive_letters in Hl.
  destruct (search_paths_parts e s paths E)
    as (users & drives & -> & _ & Hin & Hcov & Hown & Hd & _).
  assert (H2 : In (drive_root letter) drives) by (apply Hd; eauto).
  assert (H1 : exists q, path_eq q (drive_root letter) /\ In q users /\
                 ((forall p, In p (g_UserGamePaths s) -> path_eq p (drive_root letter) ->
                             p = drive_root letter) -> q = drive_root letter)).
  { destruct (Hcov _ Hu He) as (q & [<-|Hq] & Eq).
    - now destruct (drive_root_not_D letter Hl).
    - exists q. split; [exact Eq|]. split; [exact Hq|].
      intros Hfirst. apply Hfirst; [|exact Eq]. now apply Hin. }
  destruct H1 as (q & Eq & Hq & Hown').
  exists q. split; [exact Eq|]. split; [now apply Hin|]. split; [exact Hown'|].
  apply in_split in Hq. destruct Hq as (u1 & u2 & ->).
  apply in_split in H2. destruct H2 as (d1 & d2 & ->).
  assert (E' : L "D:\Games" :: (u1 ++ q :: u2) ++ d1 ++ drive_root letter :: d2 =
               (L "D:\Games" :: u1) ++ q :: (u2 ++ d1) ++ drive_root letter :: d2).
  { cbn [app]. rewrite <- !app_assoc. reflexivity. }
  split; [eauto|].
  intros s' log H. destruct (ScanGames_Done e s s' log H) as (paths' & E2 & -> & _).
  rewrite E in E2. injection E2 as <-. cbn [g_Games set_games]. rewrite E'.
  exists (flat_map (scan_root e) (L "D:\Games" :: u1)),
         (flat_map (scan_root e) (u2 ++ d1)), (flat_map (scan_root e) d2).
  rewrite flat_map_app. cbn [flat_map]. rewrite flat_map_app. cbn [flat_map].
  rewrite <- !app_assoc. reflexivity.
Qed.

Lemma drive_folder_as_user_path_is_scanned_twice_witness :
  let s := set_user_game_paths [L "E:\Games"] sample_start in
  (exists a b c,
     search_paths tick_drive_E s = Some (a ++ drive_root 69 :: b ++ drive_root 69 :: c)) /\
  (exists s', ScanGames tick_drive_E s = Done tt s' [] /\
              map name (g_Games s') = [L "a.nsp"; L "a.nsp"]).
Proof.
  intros s. split; [|eexists; split; vm_compute; reflexivity].
  destruct (search_paths tick_drive_E s) as [paths|] eqn:E; [|vm_compute in E; discriminate].
  destruct (drive_folder_as_user_path_is_scanned_twice tick_drive_E s 69 paths)
    as (q & _ & _ & Hq & (a & b & c & ->) & _).
  - vm_compute. tauto.
  - reflexivity.
  - left. reflexivity.
  - exact E.
  - rewrite Hq.
    + exists a, b, c. reflexivity.
    + intros p [<-|[]] _. reflexivity.
Defined.

Lemma walk_children_ok children : forall parent,
  forallb readable children = true -> snd (walk_children parent children) = true.
Proof.
  induction children as [|c l IH]; intros parent Hr; [reflexivity|].
  cbn [forallb] in Hr. apply andb_true_iff in Hr. destruct Hr as [Hc Hl].
  cbn [walk_children].
  pose proof (proj1 (walk_readable c parent Hc)) as Hok.
  destruct (walk parent c) as [es1 ok1]. cbn in Hok. subst ok1.
  specialize (IH parent Hl). destruct (walk_children parent l) as [es2 ok2]. exact IH.
Qed.

Lemma walk_children_locked before d after : forall parent,
  forallb readable before = true ->
  fst (walk_children parent (before ++ Locked d :: after)) =
  fst (walk_children parent before) ++
  [{| ent_path := path_join parent d; is_regular_file := false |}].
Proof.
  induction before as [|c l IH]; intros parent Hr; [reflexivity|].
  cbn [forallb] in Hr. apply andb_true_iff in Hr. destruct Hr as [Hc Hl].
  cbn [walk_children app].
  pose proof (proj1 (walk_readable c parent Hc)) as Hok.
  destruct (walk parent c) as [es1 ok1]. cbn in Hok. subst ok1.
  specialize (IH parent Hl).
  destruct (walk_children parent (l ++ Locked d :: after)) as [es2 ok2].
  destruct (walk_children parent l) as [es3 ok3]. cbn in IH |- *. subst es2.
  now rewrite app_assoc.
Qed.

(** X10.  When a directory directly below a search path cannot be listed,
    the scan of that search path stops there without a message: what it
    lists are the recognized files of the entries before that directory;
    the files of the entries after it are not looked at. *)
Theorem unreadable_directory_ends_the_scan_of_its_search_path :
  forall (e : Env) (root : path) (before after : list node) (d : wstring),
    fs_at e root = Some (FsDir (before ++ Locked d :: after)) ->
    forallb readable before = true ->
    forall g : Game,
      In g (scan_root e root) <->
      exists p, regular_file_in root before p /\
                recognized_extension (extension p) /\
                g = {| name := filename p; game_path := p |}.
Proof.
  intros e root before after d Hfs Hr g. unfold scan_root. rewrite Hfs.
  rewrite walk_children_locked by exact Hr.
  rewrite flat_map_app. cbn [flat_map scan_entry is_regular_file]. rewrite !app_nil_r.
  rewrite in_flat_map. split.
  - intros (entry & Hentry & Hg). apply in_scan_entry in Hg. destruct Hg as (Hreg & Hext & ->).
    exists (ent_path entry). repeat split; auto.
    apply walk_children_readable; [exact Hr|].
    rewrite (dirent_eta entry), Hreg in Hentry. exact Hentry.
  - intros (p & Hp & Hext & ->).
    exists {| ent_path := p; is_regular_file := true |}. split.
    + now apply walk_children_readable.
    + apply in_scan_entry. cbn. auto.
Qed.

Lemma unreadable_directory_ends_the_scan_of_its_search_path_witness :
  map name (scan_root tick_drive_E (L "E:\Games")) = [L "a.nsp"] /\
  forall g : Game,
    In g (scan_root tick_drive_E (L "E:\Games")) <->
    exists p, regular_file_in (L "E:\Games") [File (L "a.nsp")] p /\
              recognized_extension (extension p) /\
              g = {| name := filename p; game_path := p |}.
Proof.
  split; [vm_compute; reflexivity|].
  apply (unreadable_directory_ends_the_scan_of_its_search_path tick_drive_E (L "E:\Games")
           [File (L "a.nsp")] [File (L "b.nsp")] (L "System Volume Information"));
    reflexivity.
Defined.

(** ** Install requests *)

Lemma InstallFiles_add_game_directory e sub s source :
  g_IsInstalling s = false -> picked_folder e = Some source ->
  InstallFiles e (L "Add Game Directory") sub s =
  match ScanGames e (SaveSettings e
                       (set_user_game_paths (g_UserGamePaths s ++ [source]) s)) with
  | Done _ s' _ => Done tt s' [MessageBoxW (L "Game Directory Saved!") (L "Citron")]
  | Failed f => Failed f
  end.
Proof.
  intros Hi Hp. unfold InstallFiles. rewrite Hi, Hp, wstring_eqb_refl.
  unfold bind, modify, emit.
  destruct (ScanGames_cases e
              (SaveSettings e (set_user_game_paths (g_UserGamePaths s ++ [source]) s)))
    as [E|[games E]]; rewrite E; reflexivity.
Qed.

(** X11.  Adding a game directory, with no copy in flight and a folder
    picked, appends the folder to the search paths and saves.  When the
    configuration stream opens, the search paths end up in strictly
    ascending order of paths, each of them a path that was there or the
    folder, with a path equal to each path that was there and to the
    folder among them, and the file lists them.  When the stream does not
    open the folder is kept in memory all the same and the file stays as it
    was.  Then comes the rescan.  When the status of every path the scan
    asks for is read, the request returns with the list of games scanned
    anew and one message, no copy thread is started, and the folder is
    searched, under the spelling the save kept of it or an equal one, if
    it exists under that spelling.  When one of them is not read, the
    request ends by an exception that nothing catches. *)
Theorem add_game_directory_saves_and_rescans :
  forall (e : Env) (sub : path) (s : State) (source : wstring),
    g_IsInstalling s = false -> picked_folder e = Some source ->
    let saved := SaveSettings e (set_user_game_paths (g_UserGamePaths s ++ [source]) s) in
    (forall p, In p (g_UserGamePaths saved) -> In p (g_UserGamePaths s) \/ p = source) /\
    (forall p, In p (g_UserGamePaths s) \/ p = source ->
               exists q, In q (g_UserGamePaths saved) /\ path_eq q p) /\
    (config_opens e = true ->
       StronglySorted path_lt (g_UserGamePaths saved) /\
       config_ini saved = Some (config_text (values s) (g_UserGamePaths saved))) /\
    (config_opens e = false ->
       g_UserGamePaths saved = g_UserGamePaths s ++ [source] /\
       config_ini saved = config_ini s) /\
    ((forall p, queried saved p -> fs_at e p <> Some NoStatus) ->
       exists paths,
         search_paths e saved = Some paths /\
         InstallFiles e (L "Add Game Directory") sub s =
           Done tt (set_games (flat_map (scan_root e) paths) saved)
                [MessageBoxW (L "Game Directory Saved!") (L "Citron")] /\
         (forall q, In q (g_UserGamePaths saved) -> path_eq q source ->
                    fs_exists e q = Some true ->
                    exists r, In r paths /\ path_eq r source)) /\
    ((exists p, queried saved p /\ fs_at e p = Some NoStatus) ->
       InstallFiles e (L "Add Game Directory") sub s = Failed UncaughtException).
Proof.
  intros e sub s source Hi Hp. cbv zeta.
  set (s1 := set_user_game_paths (g_UserGamePaths s ++ [source]) s).
  assert (Hincl : forall p, In p (g_UserGamePaths (SaveSettings e s1)) ->
                            In p (g_UserGamePaths s) \/ p = source).
  { intros p. unfold SaveSettings. destruct (config_opens e); cbn; intros H.
    - apply saved_paths_incl in H. apply in_app_or in H. cbn in H. intuition.
    - apply in_app_or in H. cbn in H. intuition. }
  assert (Hcov : forall p, In p (g_UserGamePaths s) \/ p = source ->
                           exists q, In q (g_UserGamePaths (SaveSettings e s1)) /\ path_eq q p).
  { intros p H.
    assert (Hp' : In p (g_UserGamePaths s ++ [source])).
    { apply in_or_app. destruct H as [H| ->]; [now left|right; now left]. }
    unfold SaveSettings. destruct (config_opens e); cbn.
    - now apply saved_paths_cover.
    - exists p. split; [exact Hp'|apply path_eq_refl]. }
  split; [exact Hincl|]. split; [exact Hcov|]. split; [|split; [|split]].
  - intros He. destruct (save_sorted e s1 He) as (S & C). split; [exact S|exact C].
  - intros He. unfold SaveSettings. rewrite He. split; reflexivity.
  - intros K.
    destruct (proj1 (ScanGames_returns e (SaveSettings e s1))) as (paths & E & H).
    { intros p Hq N. apply fs_exists_None in N. now apply (K p). }
    exists paths. split; [exact E|]. split.
    + rewrite (InstallFiles_add_game_directory e sub s source Hi Hp).
      fold s1. rewrite H. reflexivity.
    + intros q Hq Eq He.
      destruct (search_paths_parts e _ paths E) as (users & drives & -> & _ & _ & Hc & _).
      destruct (Hc q Hq He) as (r & Hr & Er). exists r. split.
      * destruct Hr as [<-|Hr]; [now left|right; apply in_or_app; now left].
      * eapply path_eq_trans; eauto.
  - intros B. rewrite (InstallFiles_add_game_directory e sub s source Hi Hp). fold s1.
    rewrite (proj2 (ScanGames_fails e (SaveSettings e s1)) B). reflexivity.
Qed.

Lemma add_game_directory_saves_and_rescans_witness :
  (exists s',
     InstallFiles (tick 0x1000 1000 sample_tree (Some (L "D:/Games"))) (L "Add Game Directory")
                  (L "") sample_settings =
       Done tt s' [MessageBoxW (L "Game Directory Saved!") (L "Citron")] /\
     g_UserGamePaths s' = [L "C:\My Games"; L "D:/Games"; L "E:\Roms"] /\
     length (g_Games s') = 3%nat) /\
  InstallFiles (tick_drive_F_fails 0x1000 1000 (Some (L "D:\Games"))) (L "Add Game Directory")
               (L "") sample_settings = Failed UncaughtException.
Proof.
  split.
  - destruct (add_game_directory_saves_and_rescans
                (tick 0x1000 1000 sample_tree (Some (L "D:/Games"))) (L "")
                sample_settings (L "D:/Games") eq_refl eq_refl) as (_ & _ & _ & _ & H & _).
    destruct H as (paths & E & H & _).
    + intros p _. unfold tick, fs_at, fs_of. destruct (wstring_eqb p (L "D:\Games")); discriminate.
    + eexists. split; [exact H|]. vm_compute in E. injection E as <-.
      split; vm_compute; reflexivity.
  - apply (add_game_directory_saves_and_rescans
             (tick_drive_F_fails 0x1000 1000 (Some (L "D:\Games"))) (L "")
             sample_settings (L "D:\Games") eq_refl eq_refl).
    exists (L "F:\Games"). split; [|reflexivity].
    right. right. exists 70. split; [lia|reflexivity].
Defined.

(** X12.  From the moment the copy thread begins until it ends, a further
    request is dropped; the thread ends, whether the copy succeeded or
    threw, with one message box and the in-flight flag lowered, and changes
    nothing but that flag and the status text; the next request is served
    again. *)
Theorem copy_thread_blocks_requests_until_it_ends :
  forall (e : Env) (title : wstring) (sub : path) (s : State)
         (failure : option wstring) (source : wstring),
    picked_folder e = Some source -> title <> L "Add Game Directory" ->
    let busy := InstallFilesThread_begin s in
    InstallFiles e title sub busy = Done tt busy [] /\
    exists s',
      InstallFilesThread_end failure busy =
        Done tt s' [match failure with
                    | None => MessageBoxW (L "Files Copied!") (L "Success")
                    | Some what => MessageBoxW (L "Failed: " ++ what) (L "Error")
                    end] /\
      s' = set_install_status (match failure with None => L "Done!" | Some _ => L "Error!" end)
             (set_installing false s) /\
      InstallFiles e title sub s' =
        Done tt s' [ThreadDetached source (path_join (GetUserDirectory e) sub)].
Proof.
  intros e title sub s failure source Hp Ht busy. split; [reflexivity|].
  eexists. split; [|split; [reflexivity|]].
  - destruct failure; reflexivity.
  - unfold InstallFiles. cbn [g_IsInstalling set_install_status set_installing].
    rewrite Hp, wstring_eqb_neq by exact Ht. reflexivity.
Qed.

Lemma copy_thread_blocks_requests_until_it_ends_witness :
  let e := tick 0x1000 1000 sample_tree (Some (L "E:\keys")) in
  let busy := InstallFilesThread_begin sample_start in
  InstallFiles e (L "Select Keys Folder") (L "keys") busy = Done tt busy [] /\
  exists s',
    InstallFilesThread_end (Some (L "access denied")) busy =
      Done tt s' [MessageBoxW (L "Failed: access denied") (L "Error")] /\
    g_IsInstalling s' = false /\ g_InstallStatus s' = L "Error!".
Proof.
  intros e busy.
  destruct (copy_thread_blocks_requests_until_it_ends e (L "Select Keys Folder") (L "keys")
              sample_start (Some (L "access denied")) (L "E:\keys") eq_refl) as (H1 & s' & H2 & H3 & _).
  { intros E. apply (f_equal (hd 0)) in E. vm_compute in E. discriminate. }
  split; [exact H1|]. exists s'. split; [exact H2|]. rewrite H3. split; reflexivity.
Defined.

(** ** Launch *)

Lemma StartGame_boots e game s children :
  fs_exists e (key_path e) = Some true ->
  fs_at e (nand_path e) = Some (FsDir children) ->
  has_nca (nand_path e) children = true ->
  StartGame e game s = boot e game s.
Proof.
  intros Hk Hn Hf. unfold StartGame. rewrite Hk, Hn, Hf. reflexivity.
Qed.

(** X13.  With the key file and a firmware file in place the launch goes
    to the engine.  In every case the engine objects are made and the
    three core options forced before the title is loaded, and nothing else
    of the globals changes.  A load that succeeds starts the GPU, switches
    to the running state and runs the engine; a load that returns an error
    status or throws starts nothing more, shows one message with the
    status or the exception's text, and leaves the screen where it was. *)
Theorem launch_outcomes :
  forall (e : Env) (game : Game) (s : State) (children : list node),
    fs_exists e (key_path e) = Some true ->
    fs_at e (nand_path e) = Some (FsDir children) ->
    has_nca (nand_path e) children = true ->
    let loading := map Engine [Initialize; SetContentProvider; SetFilesystem;
                               LoadTitle (game_path game)] in
    StartGame e game s =
    match engine e with
    | LoadSucceeded =>
        Done tt (set_app_state Running (booted s))
             (loading ++ map Engine [GpuStart; OnGpuReady; Run])
    | LoadFailed status =>
        Done tt (booted s)
             (loading ++ [MessageBoxW (L "Boot Failed Error Code: " ++ print_int status)
                                      (L "Boot Error")])
    | Throws what =>
        Done tt (booted s)
             (loading ++ [MessageBoxW (L "Crash: " ++ what) (L "Critical Error")])
    end.
Proof.
  intros e game s children Hk Hn Hf loading.
  rewrite (StartGame_boots e game s children Hk Hn Hf).
  unfold boot. destruct (engine e); reflexivity.
Qed.

Lemma launch_outcomes_witness :
  let fs := fun p =>
    if wstring_eqb p (nand_path (tick_with_keys 0 0)) then Some (FsDir [File (L "fw.nca")])
    else fs_with_keys p in
  let e := {| XInputGetState := one_pad 0x1000; GetTickCount64 := 1000;
              GetUserDirectory := user_root; fs_at := fs; config_opens := true;
              picked_folder := None; engine := LoadFailed 4 |} in
  let game := {| name := L "a.nsp"; game_path := L "D:\Games\a.nsp" |} in
  StartGame e game sample_start =
  Done tt (booted sample_start)
    (map Engine [Initialize; SetContentProvider; SetFilesystem; LoadTitle (L "D:\Games\a.nsp")] ++
     [MessageBoxW (L "Boot Failed Error Code: 4") (L "Boot Error")]).
Proof.
  intros fs e game.
  exact (launch_outcomes e game sample_start [File (L "fw.nca")] eq_refl eq_refl eq_refl).
Defined.

(** ** The two screens, move by move *)

Lemma bind_quiet {A B} (c : M A) (k : A -> M B) s a s' :
  c s = Done a s' [] -> bind c k s = k a s'.
Proof.
  intros E. unfold bind. rewrite E. destruct (k a s'); reflexivity.
Qed.

Lemma when_modify cond f s :
  when_ cond (modify f) s = Done tt (if cond s then f s else s) [].
Proof. unfold when_, modify. destruct (cond s); reflexivity. Qed.

Lemma when_modify2 cond f g s :
  when_ cond (modify f;; modify g) s = Done tt (if cond s then g (f s) else s) [].
Proof. unfold when_, bind, modify. destruct (cond s); reflexivity. Qed.

Lemma when_modify3 cond f g h s :
  when_ cond (modify f;; modify g;; modify h) s =
  Done tt (if cond s then h (g (f s)) else s) [].
Proof. unfold when_, bind, modify. destruct (cond s); reflexivity. Qed.

Lemma when_true cond (body : M unit) s : cond s = true -> when_ cond body s = body s.
Proof. intros E. unfold when_. now rewrite E. Qed.

Lemma on_settings_moves e b s :
  on_settings e b s = when_ (fun _ => a_btn b) (settings_confirm e) (settings_moves e b s).
Proof.
  unfold on_settings.
  erewrite bind_quiet by apply when_modify2.
  erewrite bind_quiet by apply when_modify2.
  erewrite bind_quiet by apply when_modify2.
  erewrite bind_quiet by apply when_modify.
  erewrite bind_quiet by apply when_modify.
  reflexivity.
Qed.

Lemma on_game_list_moves e b s :
  on_game_list e b s = library_confirm e b (library_moves b s).
Proof.
  unfold on_game_list.
  erewrite bind_quiet by apply when_modify3.
  unfold library_moves, library_confirm, open_settings. cbv zeta.
  set (s1 := if start b then _ else s). clearbody s1.
  destruct (g_Games s1) eqn:G.
  - unfold when_. rewrite G. reflexivity.
  - unfold when_ at 1. rewrite G. cbn [negb].
    erewrite bind_quiet by apply when_modify.
    erewrite bind_quiet by apply when_modify.
    fold (game_up b s1). fold (game_down b (game_up b s1)).
    assert (G3 : g_Games (game_down b (game_up b s1)) = g_Games s1).
    { unfold game_down, game_up.
      destruct (down b && _); destruct (up b && _); reflexivity. }
    rewrite (when_true (fun s0 => negb match g_Games s0 with [] => true | _ => false end)).
    2:{ cbv beta. rewrite G3, G. reflexivity. }
    reflexivity.
Qed.

(** ** What Confirm does on the settings screen *)

Lemma InstallFiles_asset e title sub s :
  title <> L "Add Game Directory" -> exists log, InstallFiles e title sub s = Done tt s log.
Proof.
  intros Ht. unfold InstallFiles.
  destruct (g_IsInstalling s); [eauto|].
  destruct (picked_folder e); [|eauto].
  rewrite wstring_eqb_neq by exact Ht. unfold emit. eauto.
Qed.

Lemma when_quiet cond (body : M unit) s :
  (exists log, body s = Done tt s log) -> exists log, when_ cond body s = Done tt s log.
Proof.
  intros (log & E). unfold when_. destruct (cond s); eauto.
Qed.

Lemma bind_same {B} (c : M unit) (k : unit -> M B) s log :
  c s = Done tt s log ->
  bind c k s = match k tt s with Done b s' log' => Done b s' (log ++ log') | Failed f => Failed f end.
Proof. intros E. unfold bind. now rewrite E. Qed.

Lemma keys_title : L "Select Keys Folder" <> L "Add Game Directory".
Proof. intros E. apply (f_equal (hd 0)) in E. vm_compute in E. discriminate. Qed.

Lemma firmware_title : L "Select Firmware Folder" <> L "Add Game Directory".
Proof. intros E. apply (f_equal (hd 0)) in E. vm_compute in E. discriminate. Qed.

(** What Confirm does, by the row it is on: nothing to the globals; or,
    on Add Game Directory with a folder picked and no copy in flight, a
    save and a rescan, which returns or ends by an exception; or, on an
    editable row of the System tab, the start of edit mode. *)
Lemma settings_confirm_cases e s :
  (exists log, settings_confirm e s = Done tt s log) \/
  (g_CurrentTab s = General /\ g_SelectedSettingIndex s = 2 /\ g_IsInstalling s = false /\
   exists source,
     picked_folder e = Some source /\
     let saved := SaveSettings e (set_user_game_paths (g_UserGamePaths s ++ [source]) s) in
     (settings_confirm e s = Failed UncaughtException /\
      ScanGames e saved = Failed UncaughtException \/
      exists games,
        ScanGames e saved = Done tt (set_games games saved) [] /\
        settings_confirm e s =
        Done tt (set_games games saved)
             [MessageBoxW (L "Game Directory Saved!") (L "Citron")])) \/
  (g_CurrentTab s = System /\ editable_row (g_SelectedSettingIndex s) = true /\
   settings_confirm e s = Done tt (set_editing true s) []).
Proof.
  unfold settings_confirm.
  erewrite bind_quiet by reflexivity.
  destruct (g_CurrentTab s) eqn:T.
  - destruct (when_quiet (fun s => g_SelectedSettingIndex s =? 0)
                (InstallFiles e (L "Select Keys Folder") (L "keys")) s
                (InstallFiles_asset _ _ _ _ keys_title)) as (l0 & E0).
    destruct (when_quiet (fun s => g_SelectedSettingIndex s =? 1)
                (InstallFiles e (L "Select Firmware Folder")
                   (L "nand/system/Contents/registered")) s
                (InstallFiles_asset _ _ _ _ firmware_title)) as (l1 & E1).
    rewrite (bind_same _ _ _ _ E0), (bind_same _ _ _ _ E1).
    destruct (Z.eq_dec (g_SelectedSettingIndex s) 2) as [R2|R2].
    + assert (L0 : l0 = []).
      { unfold when_ in E0. rewrite R2 in E0. cbn in E0. now injection E0. }
      assert (L1 : l1 = []).
      { unfold when_ in E1. rewrite R2 in E1. cbn in E1. now injection E1. }
      subst l0 l1. cbn [app]. unfold when_. rewrite R2. change (2 =? 2) with true. cbv iota.
      destruct (g_IsInstalling s) eqn:Hi.
      * left. unfold InstallFiles. rewrite Hi. eauto.
      * destruct (picked_folder e) as [src|] eqn:Hp.
        -- right. left. repeat split; auto. exists src. split; [reflexivity|].
           rewrite (InstallFiles_add_game_directory e (L "") s src Hi Hp). cbv zeta.
           destruct (ScanGames_cases e
                       (SaveSettings e (set_user_game_paths (g_UserGamePaths s ++ [src]) s)))
             as [E|[games E]]; rewrite E.
           ++ left. now split.
           ++ right. exists games. now split.
        -- left. unfold InstallFiles. rewrite Hi, Hp. eauto.
    + left. unfold when_. rewrite (proj2 (Z.eqb_neq _ _) R2). eauto.
  - unfold when_, modify.
    destruct (editable_row (g_SelectedSettingIndex s)) eqn:R.
    + right. right. auto.
    + left. eauto.
  - left. unfold ret. eauto.
  - left. unfold ret. eauto.
  - left. unfold ret. eauto.
Qed.

(** ** Ticks on the settings screen *)

Lemma decoded_fields e s :
  let s' := decoded e s in
  g_IsEditingSetting s' = g_IsEditingSetting s /\ g_AppState s' = g_AppState s /\
  g_CurrentTab s' = g_CurrentTab s /\ g_IsInstalling s' = g_IsInstalling s /\
  g_InstallStatus s' = g_InstallStatus s /\ g_UserGamePaths s' = g_UserGamePaths s /\
  g_Games s' = g_Games s /\ g_SelectedGameIndex s' = g_SelectedGameIndex s /\
  g_SelectedSettingIndex s' = g_SelectedSettingIndex s /\
  values s' = values s /\ config_ini s' = config_ini s.
Proof. apply decode_fields. Qed.

Lemma HandleInput_settings e s :
  g_AppState s = Settings -> g_IsEditingSetting s = false -> executes e s = true ->
  HandleInput e s =
  when_ (fun _ => a_btn (poll e)) (settings_confirm e)
        (settings_moves e (poll e) (decoded e s)).
Proof.
  intros Ha He Hx. rewrite (HandleInput_executes e s Hx). cbv zeta.
  rewrite Ha, He. cbn [negb]. apply on_settings_moves.
Qed.

Lemma leave_settings_fields e b s :
  let s' := leave_settings e b s in
  g_IsEditingSetting s' = g_IsEditingSetting s /\ g_CurrentTab s' = g_CurrentTab s /\
  g_IsInstalling s' = g_IsInstalling s /\ g_InstallStatus s' = g_InstallStatus s /\
  g_Games s' = g_Games s /\ g_SelectedGameIndex s' = g_SelectedGameIndex s /\
  g_SelectedSettingIndex s' = g_SelectedSettingIndex s /\ values s' = values s /\
  g_AppState s' = (if b_btn b || start b then GameList else g_AppState s).
Proof.
  unfold leave_settings. destruct (b_btn b || start b); cbv zeta.
  - pose proof (SaveSettings_fields e (set_app_state GameList s)) as F. cbv zeta in F.
    decompose [and] F. repeat split; assumption.
  - repeat split; reflexivity.
Qed.

Lemma tab_left_fields b s :
  let s' := tab_left b s in
  g_IsEditingSetting s' = g_IsEditingSetting s /\ g_AppState s' = g_AppState s /\
  g_IsInstalling s' = g_IsInstalling s /\ g_InstallStatus s' = g_InstallStatus s /\
  g_UserGamePaths s' = g_UserGamePaths s /\ g_Games s' = g_Games s /\
  g_SelectedGameIndex s' = g_SelectedGameIndex s /\ values s' = values s /\
  config_ini s' = config_ini s /\
  tab_index (g_CurrentTab s') =
    (if lb b then (tab_index (g_CurrentTab s) - 1) mod 5 else tab_index (g_CurrentTab s)) /\
  g_SelectedSettingIndex s' = (if lb b then 0 else g_SelectedSettingIndex s).
Proof.
  unfold tab_left. destruct (lb b); cbv zeta; cbn [g_IsEditingSetting g_AppState
    g_IsInstalling g_InstallStatus g_UserGamePaths g_Games g_SelectedGameIndex values
    config_ini g_CurrentTab g_SelectedSettingIndex set_setting_index set_tab];
    repeat split; try reflexivity.
  destruct (g_CurrentTab s); reflexivity.
Qed.

Lemma tab_right_fields b s :
  let s' := tab_right b s in
  g_IsEditingSetting s' = g_IsEditingSetting s /\ g_AppState s' = g_AppState s /\
  g_IsInstalling s' = g_IsInstalling s /\ g_InstallStatus s' = g_InstallStatus s /\
  g_UserGamePaths s' = g_UserGamePaths s /\ g_Games s' = g_Games s /\
  g_SelectedGameIndex s' = g_SelectedGameIndex s /\ values s' = values s /\
  config_ini s' = config_ini s /\
  tab_index (g_CurrentTab s') =
    (if rb b then (tab_index (g_CurrentTab s) + 1) mod 5 else tab_index (g_CurrentTab s)) /\
  g_SelectedSettingIndex s' = (if rb b then 0 else g_SelectedSettingIndex s).
Proof.
  unfold tab_right. destruct (rb b); cbv zeta; cbn [g_IsEditingSetting g_AppState
    g_IsInstalling g_InstallStatus g_UserGamePaths g_Games g_SelectedGameIndex values
    config_ini g_CurrentTab g_SelectedSettingIndex set_setting_index set_tab];
    repeat split; try reflexivity.
  destruct (g_CurrentTab s); reflexivity.
Qed.

Lemma row_up_fields b s :
  let s' := row_up b s in
  g_IsEditingSetting s' = g_IsEditingSetting s /\ g_AppState s' = g_AppState s /\
  g_CurrentTab s' = g_CurrentTab s /\
  g_IsInstalling s' = g_IsInstalling s /\ g_InstallStatus s' = g_InstallStatus s /\
  g_UserGamePaths s' = g_UserGamePaths s /\ g_Games s' = g_Games s /\
  g_SelectedGameIndex s' = g_SelectedGameIndex s /\ values s' = values s /\
  config_ini s' = config_ini s /\
  g_SelectedSettingIndex s' =
    (if up b && (g_SelectedSettingIndex s >? 0)
     then g_SelectedSettingIndex s - 1 else g_SelectedSettingIndex s).
Proof.
  unfold row_up. destruct (up b && _); cbv zeta; repeat split; reflexivity.
Qed.

Lemma row_down_fields b s :
  let s' := row_down b s in
  g_IsEditingSetting s' = g_IsEditingSetting s /\ g_AppState s' = g_AppState s /\
  g_CurrentTab s' = g_CurrentTab s /\
  g_IsInstalling s' = g_IsInstalling s /\ g_InstallStatus s' = g_InstallStatus s /\
  g_UserGamePaths s' = g_UserGamePaths s /\ g_Games s' = g_Games s /\
  g_SelectedGameIndex s' = g_SelectedGameIndex s /\ values s' = values s /\
  config_ini s' = config_ini s /\
  g_SelectedSettingIndex s' =
    (if down b && (g_SelectedSettingIndex s <? limit (g_CurrentTab s) - 1)
     then g_SelectedSettingIndex s + 1 else g_SelectedSettingIndex s).
Proof.
  unfold row_down. destruct (down b && _); cbv zeta; repeat split; reflexivity.
Qed.

(** [use_fields lem t] rewrites with the field equations [lem] of the
    state [t] and forgets them. *)
Ltac use_fields lem t :=
  let H := fresh in
  pose proof lem as H; cbv zeta in H; decompose [and] H; clear H;
  repeat match goal with
  | E : ?l = _ |- _ =>
      match l with context [t] => try rewrite E; clear E end
  end.

(** Rewrites the fields of the states the moves go through down to the
    state the moves start from. *)
Ltac through_moves :=
  unfold settings_moves;
  repeat progress match goal with
  | |- context [row_down ?b ?s] => use_fields (row_down_fields b s) (row_down b s)
  | |- context [row_up ?b ?s] => use_fields (row_up_fields b s) (row_up b s)
  | |- context [tab_right ?b ?s] => use_fields (tab_right_fields b s) (tab_right b s)
  | |- context [tab_left ?b ?s] => use_fields (tab_left_fields b s) (tab_left b s)
  | |- context [leave_settings ?e ?b ?s] =>
      use_fields (leave_settings_fields e b s) (leave_settings e b s)
  end.

Ltac through_decoder :=
  repeat progress match goal with
  | |- context [decoded ?e ?s] => use_fields (decoded_fields e s) (decoded e s)
  end.

Lemma settings_moves_kept e b s :
  let s' := settings_moves e b s in
  g_IsEditingSetting s' = g_IsEditingSetting s /\ g_IsInstalling s' = g_IsInstalling s /\
  g_InstallStatus s' = g_InstallStatus s /\ g_Games s' = g_Games s /\
  g_SelectedGameIndex s' = g_SelectedGameIndex s /\ values s' = values s /\
  g_AppState s' = (if b_btn b || start b then GameList else g_AppState s).
Proof. cbv zeta. repeat split; through_moves; reflexivity. Qed.

Lemma settings_moves_tab e b s :
  tab_index (g_CurrentTab (settings_moves e b s)) =
  match lb b, rb b with
  | true, false => (tab_index (g_CurrentTab s) - 1) mod 5
  | false, true => (tab_index (g_CurrentTab s) + 1) mod 5
  | _, _ => tab_index (g_CurrentTab s)
  end.
Proof.
  through_moves.
  destruct (lb b), (rb b); try reflexivity.
  destruct (g_CurrentTab s); reflexivity.
Qed.

Lemma settings_moves_row e b s :
  lb b = false -> rb b = false ->
  g_CurrentTab (settings_moves e b s) = g_CurrentTab s /\
  g_SelectedSettingIndex (settings_moves e b s) =
  let r := g_SelectedSettingIndex s in
  let r := if up b && (r >? 0) then r - 1 else r in
  if down b && (r <? limit (g_CurrentTab s) - 1) then r + 1 else r.
Proof.
  intros Hlb Hrb. unfold settings_moves.
  assert (E1 : forall x, tab_left b x = x) by (intros x; unfold tab_left; now rewrite Hlb).
  assert (E2 : forall x, tab_right b x = x) by (intros x; unfold tab_right; now rewrite Hrb).
  rewrite E1, E2. cbv zeta. split; through_moves; reflexivity.
Qed.

Lemma settings_confirm_tab e s s' log :
  settings_confirm e s = Done tt s' log ->
  g_CurrentTab s' = g_CurrentTab s /\ g_SelectedSettingIndex s' = g_SelectedSettingIndex s /\
  g_AppState s' = g_AppState s.
Proof.
  intros E.
  destruct (settings_confirm_cases e s)
    as [(l & E')|[(_ & _ & _ & src & _ & [[E' _]|(games & _ & E')])|(_ & _ & E')]];
    rewrite E' in E; try discriminate; injection E as <- _; cbn; through_store; cbn; auto.
Qed.

(** An executing tick on the settings screen outside edit mode: where it
    ends when it returns, and what makes it end by an exception. *)
Lemma settings_tick e s :
  g_AppState s = Settings -> g_IsEditingSetting s = false -> executes e s = true ->
  let m := settings_moves e (poll e) (decoded e s) in
  match HandleInput e s with
  | Done _ s' _ =>
      g_CurrentTab s' = g_CurrentTab m /\
      g_SelectedSettingIndex s' = g_SelectedSettingIndex m /\
      g_AppState s' = g_AppState m
  | Failed f =>
      f = UncaughtException /\ a_btn (poll e) = true /\
      g_CurrentTab m = General /\ g_SelectedSettingIndex m = 2 /\ g_IsInstalling m = false /\
      exists source,
        picked_folder e = Some source /\
        ScanGames e (SaveSettings e (set_user_game_paths (g_UserGamePaths m ++ [source]) m)) =
        Failed UncaughtException
  end.
Proof.
  intros Ha He Hx m. rewrite (HandleInput_settings e s Ha He Hx). fold m.
  unfold when_. destruct (a_btn (poll e)); [|auto].
  destruct (settings_confirm_cases e m)
    as [(l & E')|[(T & R & I & src & P & [[E' F]|(games & _ & E')])|(_ & _ & E')]];
    rewrite E'; try (cbn; through_store; cbn; now auto).
  repeat split; auto. exists src. split; [exact P|exact F].
Qed.

(** The tick returns when Confirm is not held, when no folder is picked,
    and when every status is read. *)
Lemma settings_tick_returns e s :
  g_AppState s = Settings -> g_IsEditingSetting s = false -> executes e s = true ->
  a_btn (poll e) = false \/ picked_folder e = None \/ statuses_known e ->
  exists s' log, HandleInput e s = Done tt s' log.
Proof.
  intros Ha He Hx K. pose proof (settings_tick e s Ha He Hx) as T. cbv zeta in T.
  destruct (HandleInput e s) as [[] s' log|f]; [eauto|]. exfalso.
  destruct T as (_ & A & _ & _ & _ & src & P & F).
  destruct K as [K|[K|K]]; [congruence|congruence|].
  match type of F with ScanGames _ ?x = _ =>
    destruct (ScanGames_known e x K) as (paths & _ & D) end.
  rewrite D in F. discriminate.
Qed.

(** X14.  On the settings screen outside edit mode an executing tick that
    returns has moved the tab round the ring of five: the right shoulder
    button alone goes to the next tab and from the last to the first, the
    left one alone to the previous tab and from the first to the last, and
    both together leave the tab where it is.  The tick returns when
    Confirm is not held, when no folder is picked, and when every status
    query is answered; it can only end by the exception of a status query
    of the rescan, which nothing catches, with Confirm held on Add Game
    Directory and a folder picked. *)
Theorem shoulder_buttons_walk_the_tab_ring :
  forall (e : Env) (s : State),
    g_AppState s = Settings -> g_IsEditingSetting s = false -> executes e s = true ->
    match HandleInput e s with
    | Done _ s' _ =>
        tab_index (g_CurrentTab s') =
        match lb (poll e), rb (poll e) with
        | true, false => (tab_index (g_CurrentTab s) - 1) mod 5
        | false, true => (tab_index (g_CurrentTab s) + 1) mod 5
        | _, _ => tab_index (g_CurrentTab s)
        end
    | Failed f =>
        f = UncaughtException /\ a_btn (poll e) = true /\ picked_folder e <> None /\
        exists p, fs_at e p = Some NoStatus
    end /\
    (a_btn (poll e) = false \/ picked_folder e = None \/ statuses_known e ->
     exists s' log, HandleInput e s = Done tt s' log).
Proof.
  intros e s Ha He Hx. split; [|now apply settings_tick_returns].
  pose proof (settings_tick e s Ha He Hx) as T. cbv zeta in T.
  destruct (HandleInput e s) as [[] s' log|f].
  - destruct T as (Ht & _). rewrite Ht, settings_moves_tab.
    through_decoder. reflexivity.
  - destruct T as (F & A & _ & _ & _ & src & P & B).
    split; [exact F|]. split; [exact A|]. split; [congruence|].
    apply ScanGames_fails in B. destruct B as (p & _ & B). eauto.
Qed.

Lemma shoulder_buttons_walk_the_tab_ring_witness :
  (exists s' log,
     HandleInput (tick 0x100 2000 sample_tree None)
                 (state_after [tick 0x10 1000 sample_tree None]) = Done tt s' log /\
     tab_index (g_CurrentTab s') = 4) /\
  HandleInput (tick_drive_F_fails 0x1000 4000 (Some (L "D:\Games")))
              (state_after [tick 0x10 1000 sample_tree None; tick 0x2 2000 sample_tree None;
                            tick 0x2 2500 sample_tree None]) = Failed UncaughtException.
Proof.
  split.
  - pose proof (shoulder_buttons_walk_the_tab_ring (tick 0x100 2000 sample_tree None)
                  (state_after [tick 0x10 1000 sample_tree None]) eq_refl eq_refl eq_refl)
      as [T _].
    destruct (HandleInput (tick 0x100 2000 sample_tree None)
                (state_after [tick 0x10 1000 sample_tree None])) as [[] s' log|f] eqn:E;
      [|vm_compute in E; discriminate].
    exists s', log. split; [reflexivity|]. rewrite T. reflexivity.
  - pose proof (shoulder_buttons_walk_the_tab_ring
                  (tick_drive_F_fails 0x1000 4000 (Some (L "D:\Games")))
                  (state_after [tick 0x10 1000 sample_tree None; tick 0x2 2000 sample_tree None;
                                tick 0x2 2500 sample_tree None]) eq_refl eq_refl eq_refl)
      as [T _].
    destruct (HandleInput (tick_drive_F_fails 0x1000 4000 (Some (L "D:\Games"))) _)
      as [[] s' log|f] eqn:E; [vm_compute in E; discriminate|].
    destruct T as (-> & _). reflexivity.
Defined.

Lemma tab_index_inj t t' : tab_index t = tab_index t' -> t = t'.
Proof. destruct t, t'; cbn; intros E; try reflexivity; discriminate. Qed.

(** X15.  On the settings screen outside edit mode, with no tab switch on
    the tick, the selected row moves by one and stops at the ends of the
    tab's rows: up alone goes to the row above and stays on the first row,
    down alone goes to the row below and stays on the last one; with both
    held the row stays, except that the first row goes to the second.  The
    tab is kept and the row stays one of its rows.  That is where every
    such tick that returns ends; the tick returns when Confirm is not
    held, when no folder is picked, and when every status query is
    answered, and can only end by the exception of a status query of the
    rescan, with Confirm held and a folder picked. *)
Theorem settings_row_moves_without_wrapping :
  forall (e : Env) (s : State),
    g_AppState s = Settings -> g_IsEditingSetting s = false -> executes e s = true ->
    lb (poll e) = false -> rb (poll e) = false -> row_in_range s ->
    match HandleInput e s with
    | Done _ s' _ =>
        g_CurrentTab s' = g_CurrentTab s /\
        g_SelectedSettingIndex s' =
        match up (poll e), down (poll e) with
        | true, false => Z.max 0 (g_SelectedSettingIndex s - 1)
        | false, true => Z.min (limit (g_CurrentTab s) - 1) (g_SelectedSettingIndex s + 1)
        | true, true => if g_SelectedSettingIndex s =? 0 then 1 else g_SelectedSettingIndex s
        | false, false => g_SelectedSettingIndex s
        end /\
        row_in_range s'
    | Failed f =>
        f = UncaughtException /\ a_btn (poll e) = true /\ picked_folder e <> None /\
        exists p, fs_at e p = Some NoStatus
    end /\
    (a_btn (poll e) = false \/ picked_folder e = None \/ statuses_known e ->
     exists s' log, HandleInput e s = Done tt s' log).
Proof.
  intros e s Ha He Hx Hlb Hrb Hr. split; [|now apply settings_tick_returns].
  pose proof (settings_tick e s Ha He Hx) as K. cbv zeta in K.
  destruct (HandleInput e s) as [[] s' log|f].
  2:{ destruct K as (F & A & _ & _ & _ & src & P & B).
      split; [exact F|]. split; [exact A|]. split; [congruence|].
      apply ScanGames_fails in B. destruct B as (p & _ & B). eauto. }
  destruct K as (Ht & Hrow & _).
  assert (T : g_CurrentTab s' = g_CurrentTab s).
  { rewrite Ht. apply tab_index_inj. rewrite settings_moves_tab, Hlb, Hrb.
    pose proof (decoded_fields e s) as F. cbv zeta in F. decompose [and] F. congruence. }
  split; [exact T|].
  assert (R : g_SelectedSettingIndex s' =
              match up (poll e), down (poll e) with
              | true, false => Z.max 0 (g_SelectedSettingIndex s - 1)
              | false, true => Z.min (limit (g_CurrentTab s) - 1) (g_SelectedSettingIndex s + 1)
              | true, true => if g_SelectedSettingIndex s =? 0 then 1 else g_SelectedSettingIndex s
              | false, false => g_SelectedSettingIndex s
              end).
  { rewrite Hrow. rewrite (proj2 (settings_moves_row e (poll e) (decoded e s) Hlb Hrb)).
    cbv zeta. through_decoder. unfold row_in_range in Hr.
    destruct (up (poll e)), (down (poll e)); cbn [andb];
      repeat match goal with
      | |- context [?a >? ?b] => destruct (Z.gtb_spec a b)
      | |- context [?a <? ?b] => destruct (Z.ltb_spec a b)
      | |- context [?a =? ?b] => destruct (Z.eqb_spec a b)
      end; destruct (g_CurrentTab s); cbn [limit] in *; lia. }
  split; [exact R|].
  unfold row_in_range in *. rewrite T, R.
  destruct (up (poll e)), (down (poll e));
    repeat match goal with
    | |- context [?a =? ?b] => destruct (Z.eqb_spec a b)
    end; destruct (g_CurrentTab s); cbn [limit] in *; lia.
Qed.

Lemma settings_row_moves_without_wrapping_witness :
  exists s' log,
    HandleInput (tick 0x1 5000 sample_tree None)
                (state_after [tick 0x10 1000 sample_tree None]) = Done tt s' log /\
    g_SelectedSettingIndex s' = 0.
Proof.
  pose proof (settings_row_moves_without_wrapping (tick 0x1 5000 sample_tree None)
                (state_after [tick 0x10 1000 sample_tree None])
                eq_refl eq_refl eq_refl eq_refl eq_refl) as K.
  destruct K as [K _]; [split; vm_compute; congruence|].
  destruct (HandleInput (tick 0x1 5000 sample_tree None)
              (state_after [tick 0x10 1000 sample_tree None])) as [[] s' log|f] eqn:E;
    [|vm_compute in E; discriminate].
  exists s', log. split; [reflexivity|]. destruct K as (_ & R & _). rewrite R. reflexivity.
Defined.

Lemma edit_value_kept b s :
  let s' := edit_value b s in
  g_IsInstalling s' = g_IsInstalling s /\ g_InstallStatus s' = g_InstallStatus s /\
  config_ini s' = config_ini s /\ g_EmuWindow s' = g_EmuWindow s /\
  g_System s' = g_System s.
Proof.
  unfold edit_value.
  destruct (g_SelectedSettingIndex s) as [|[[[p|p|]|[p|p|]|]|[[p|p|]|[p|p|]|]|]|p];
    cbn; repeat split; reflexivity.
Qed.

Lemma editing_tick e s :
  g_AppState s = Settings -> g_IsEditingSetting s = true ->
  exists s',
    HandleInput e s = Done tt s' [] /\
    g_AppState s' = Settings /\ g_CurrentTab s' = g_CurrentTab s /\
    g_SelectedSettingIndex s' = g_SelectedSettingIndex s /\
    g_Games s' = g_Games s /\ g_SelectedGameIndex s' = g_SelectedGameIndex s /\
    g_UserGamePaths s' = g_UserGamePaths s /\ config_ini s' = config_ini s /\
    g_IsInstalling s' = g_IsInstalling s /\ g_InstallStatus s' = g_InstallStatus s.
Proof.
  intros Ha He.
  rewrite HandleInput_unfold. cbv zeta. fold (decoded e s).
  pose proof (decoded_fields e s) as D. cbv zeta in D. decompose [and] D. clear D.
  assert (Q : exists s',
            on_editing (poll e) (decoded e s) = Done tt s' [] /\
            g_AppState s' = Settings /\ g_CurrentTab s' = g_CurrentTab s /\
            g_SelectedSettingIndex s' = g_SelectedSettingIndex s /\
            g_Games s' = g_Games s /\ g_SelectedGameIndex s' = g_SelectedGameIndex s /\
            g_UserGamePaths s' = g_UserGamePaths s /\ config_ini s' = config_ini s /\
            g_IsInstalling s' = g_IsInstalling s /\ g_InstallStatus s' = g_InstallStatus s).
  { unfold on_editing.
    erewrite bind_quiet by apply when_modify. rewrite when_modify.
    eexists. split; [reflexivity|].
    set (s2 := if b_btn (poll e) || a_btn (poll e) then _ else _).
    assert (F2 : g_AppState s2 = g_AppState s /\ g_CurrentTab s2 = g_CurrentTab s /\
                 g_SelectedSettingIndex s2 = g_SelectedSettingIndex s /\
                 g_Games s2 = g_Games s /\ g_SelectedGameIndex s2 = g_SelectedGameIndex s /\
                 g_UserGamePaths s2 = g_UserGamePaths s /\ config_ini s2 = config_ini s /\
                 g_IsInstalling s2 = g_IsInstalling s /\
                 g_InstallStatus s2 = g_InstallStatus s).
    { unfold s2. destruct (b_btn (poll e) || a_btn (poll e));
        cbn [set_editing g_AppState g_CurrentTab g_SelectedSettingIndex g_Games
             g_SelectedGameIndex g_UserGamePaths config_ini g_IsInstalling g_InstallStatus];
        repeat split; assumption. }
    clearbody s2. cbv beta.
    destruct (up (poll e) || down (poll e) || lb (poll e) || rb (poll e)).
    - pose proof (edit_value_fields (poll e) s2) as F. cbv zeta in F.
      pose proof (edit_value_kept (poll e) s2) as K. cbv zeta in K.
      decompose [and] F. decompose [and] K. decompose [and] F2.
      repeat split; congruence.
    - decompose [and] F2. repeat split; congruence. }
  destruct Q as (s' & E & Q).
  destruct (negb (executes e s)); [exists (decoded e s); repeat split; congruence|].
  rewrite Ha, He. cbn [negb].
  destruct (any_connected (poll e)); [eauto|].
  exists (decoded e s); repeat split; congruence.
Qed.

(** X16.  In edit mode on the settings screen navigation is frozen: no
    tick, whatever is held, changes the screen, the tab, the selected row,
    the library or its selection, the search paths or the stored file, and
    none shows a message or starts anything; only the settings' values and
    the edit flag can change. *)
Theorem edit_mode_freezes_navigation :
  forall (e : Env) (s : State),
    g_AppState s = Settings -> g_IsEditingSetting s = true ->
    exists s',
      HandleInput e s = Done tt s' [] /\
      g_AppState s' = Settings /\ g_CurrentTab s' = g_CurrentTab s /\
      g_SelectedSettingIndex s' = g_SelectedSettingIndex s /\
      g_Games s' = g_Games s /\ g_SelectedGameIndex s' = g_SelectedGameIndex s /\
      g_UserGamePaths s' = g_UserGamePaths s /\ config_ini s' = config_ini s.
Proof.
  intros e s Ha He.
  destruct (editing_tick e s Ha He) as (s' & E & H1 & H2 & H3 & H4 & H5 & H6 & H7 & _).
  exists s'. repeat split; assumption.
Qed.

Lemma edit_mode_freezes_navigation_witness :
  exists s',
    HandleInput (tick 0x201 4000 sample_tree None) editing_language = Done tt s' [] /\
    g_CurrentTab s' = System /\ g_SelectedSettingIndex s' = 0 /\
    language_index (values s') = 2.
Proof.
  destruct (edit_mode_freezes_navigation (tick 0x201 4000 sample_tree None) editing_language
              eq_refl eq_refl) as (s' & E & _ & T & R & _).
  exists s'. split; [exact E|]. rewrite T, R. repeat split.
  vm_compute in E. injection E as <-. reflexivity.
Defined.

(** ** The button mask *)

Lemma mask_of_testbit b :
  Z.testbit (mask_of b) 0 = up b /\ Z.testbit (mask_of b) 1 = down b /\
  Z.testbit (mask_of b) 2 = lb b /\ Z.testbit (mask_of b) 3 = rb b /\
  Z.testbit (mask_of b) 4 = a_btn b /\ Z.testbit (mask_of b) 5 = b_btn b /\
  Z.testbit (mask_of b) 6 = start b /\ 0 <= mask_of b < 128.
Proof.
  destruct b as [u d l r a bb st c].
  destruct u, d, l, r, a, bb, st; vm_compute; intuition congruence.
Qed.

Lemma mask_confirm_alone b :
  mask_of b = 16 ->
  up b = false /\ down b = false /\ lb b = false /\ rb b = false /\
  a_btn b = true /\ b_btn b = false /\ start b = false.
Proof.
  intros E. pose proof (mask_of_testbit b) as T. rewrite E in T.
  decompose [and] T. repeat split; symmetry; assumption.
Qed.

(** ** More ticks on the settings screen *)

Lemma settings_moves_idle e b s :
  up b = false -> down b = false -> lb b = false -> rb b = false ->
  b_btn b = false -> start b = false ->
  settings_moves e b s = s.
Proof.
  intros U D Lb Rb B St.
  unfold settings_moves, row_down, row_up, tab_right, tab_left, leave_settings.
  rewrite U, D, Lb, Rb, B, St. reflexivity.
Qed.

(** X17.  Confirm alone, on a row that has no action, changes nothing
    beyond the decoder's two globals and shows nothing: the last two rows
    of the General tab (the two update entries of the menu), the rows of
    the System tab that cannot be edited, and the three tabs without
    rows. *)
Theorem confirm_on_a_row_without_action_does_nothing :
  forall (e : Env) (s : State),
    g_AppState s = Settings -> g_IsEditingSetting s = false -> executes e s = true ->
    mask_of (poll e) = 16 ->
    (g_CurrentTab s = General /\ 3 <= g_SelectedSettingIndex s) \/
    (g_CurrentTab s = System /\ editable_row (g_SelectedSettingIndex s) = false) \/
    limit (g_CurrentTab s) = 0 ->
    HandleInput e s = Done tt (decoded e s) [].
Proof.
  intros e s Ha He Hx Hm Hrow.
  rewrite (HandleInput_settings e s Ha He Hx).
  destruct (mask_confirm_alone _ Hm) as (U & D & Lb & Rb & A & B & St).
  rewrite settings_moves_idle by assumption.
  unfold when_. rewrite A. unfold settings_confirm.
  erewrite bind_quiet by reflexivity.
  pose proof (decoded_fields e s) as F. cbv zeta in F.
  destruct F as (_ & _ & Ft & _ & _ & _ & _ & _ & Fr & _).
  rewrite Ft.
  destruct Hrow as [(T & R)|[(T & R)|T]].
  - rewrite T. unfold when_, bind. rewrite Fr.
    rewrite !(proj2 (Z.eqb_neq _ _)) by lia. reflexivity.
  - rewrite T. unfold when_. rewrite Fr, R. reflexivity.
  - destruct (g_CurrentTab s); try discriminate; reflexivity.
Qed.

Lemma confirm_on_a_row_without_action_does_nothing_witness :
  HandleInput (tick 0x1000 5000 sample_tree None) general_row_3 =
  Done tt (decoded (tick 0x1000 5000 sample_tree None) general_row_3) [].
Proof.
  apply (confirm_on_a_row_without_action_does_nothing
           (tick 0x1000 5000 sample_tree None) general_row_3 eq_refl eq_refl eq_refl eq_refl).
  left. split; [reflexivity|]. vm_compute. congruence.
Defined.

(** X18.  Leaving the settings screen, by Back or Menu on a tick without
    Confirm, goes to the library and saves: when the stream opens, the file
    holds the settings as they are and the search paths, which end up in
    strictly ascending order of paths, each of them one of the paths that
    were there, with a path equal to every path that was there among
    them; no message is shown. *)
Theorem leaving_settings_saves :
  forall (e : Env) (s : State),
    g_AppState s = Settings -> g_IsEditingSetting s = false -> executes e s = true ->
    b_btn (poll e) || start (poll e) = true -> a_btn (poll e) = false ->
    config_opens e = true ->
    exists s',
      HandleInput e s = Done tt s' [] /\
      g_AppState s' = GameList /\
      config_ini s' = Some (config_text (values s) (g_UserGamePaths s')) /\
      StronglySorted path_lt (g_UserGamePaths s') /\
      (forall p, In p (g_UserGamePaths s') -> In p (g_UserGamePaths s)) /\
      (forall p, In p (g_UserGamePaths s) ->
                 exists q, In q (g_UserGamePaths s') /\ path_eq q p).
Proof.
  intros e s Ha He Hx Hb A Hc.
  rewrite (HandleInput_settings e s Ha He Hx).
  unfold when_. rewrite A. eexists. split; [reflexivity|].
  pose proof (settings_moves_kept e (poll e) (decoded e s)) as K. cbv zeta in K.
  destruct K as (_ & _ & _ & _ & _ & _ & Kapp). rewrite Hb in Kapp.
  split; [exact Kapp|].
  assert (P : g_UserGamePaths (settings_moves e (poll e) (decoded e s)) =
              g_UserGamePaths (SaveSettings e (set_app_state GameList (decoded e s))) /\
              config_ini (settings_moves e (poll e) (decoded e s)) =
              config_ini (SaveSettings e (set_app_state GameList (decoded e s)))).
  { unfold settings_moves.
    assert (E : leave_settings e (poll e) (decoded e s) =
                SaveSettings e (set_app_state GameList (decoded e s))).
    { unfold leave_settings. now rewrite Hb. }
    rewrite <- E. split; through_moves; reflexivity. }
  destruct P as (Pp & Pc). rewrite Pp, Pc.
  destruct (save_sorted e (set_app_state GameList (decoded e s)) Hc) as (S & C).
  pose proof (decoded_fields e s) as F. cbv zeta in F.
  destruct F as (_ & _ & _ & _ & _ & Fp & _ & _ & _ & Fv & _).
  split; [|split; [exact S|]].
  - rewrite C. cbn [values set_app_state]. now rewrite Fv.
  - unfold SaveSettings. rewrite Hc.
    cbn [g_UserGamePaths set_config_ini set_user_game_paths set_app_state].
    rewrite Fp. split; intros p; [apply saved_paths_incl|apply saved_paths_cover].
Qed.

Lemma leaving_settings_saves_witness :
  exists s',
    HandleInput (tick 0x2000 5000 sample_tree None) general_row_3 = Done tt s' [] /\
    g_AppState s' = GameList /\
    config_ini s' = Some (config_text (values general_row_3) []).
Proof.
  destruct (leaving_settings_saves (tick 0x2000 5000 sample_tree None) general_row_3
              eq_refl eq_refl eq_refl eq_refl eq_refl eq_refl) as (s' & E & A & C & _ & P & _).
  exists s'. split; [exact E|]. split; [exact A|]. rewrite C.
  destruct (g_UserGamePaths s') as [|p l]; [reflexivity|].
  destruct (P p (or_introl eq_refl)).
Defined.

(** ** Ticks on the library screen *)

Lemma HandleInput_library e s :
  g_AppState s = GameList -> executes e s = true ->
  HandleInput e s = library_confirm e (poll e) (library_moves (poll e) (decoded e s)).
Proof.
  intros Ha Hx. rewrite (HandleInput_executes e s Hx). cbv zeta.
  rewrite Ha. apply on_game_list_moves.
Qed.

Lemma library_moves_fields b s :
  let s' := library_moves b s in
  g_IsEditingSetting s' = g_IsEditingSetting s /\ g_IsInstalling s' = g_IsInstalling s /\
  g_InstallStatus s' = g_InstallStatus s /\ g_UserGamePaths s' = g_UserGamePaths s /\
  g_Games s' = g_Games s /\ values s' = values s /\ config_ini s' = config_ini s.
Proof.
  unfold library_moves, open_settings, game_down, game_up. cbv zeta.
  set (s1 := if start b then _ else s).
  assert (F1 : g_IsEditingSetting s1 = g_IsEditingSetting s /\
               g_IsInstalling s1 = g_IsInstalling s /\
               g_InstallStatus s1 = g_InstallStatus s /\
               g_UserGamePaths s1 = g_UserGamePaths s /\
               g_Games s1 = g_Games s /\ values s1 = values s /\
               config_ini s1 = config_ini s).
  { unfold s1. destruct (start b); repeat split; reflexivity. }
  clearbody s1.
  assert (Q : forall x, match g_Games s1 with [] => s1 | _ :: _ => x end = s1 \/
                        match g_Games s1 with [] => s1 | _ :: _ => x end = x).
  { intros x. destruct (g_Games s1); auto. }
  match goal with |- context [match g_Games s1 with [] => s1 | _ :: _ => ?x end] =>
    destruct (Q x) as [E|E]; rewrite E; clear E Q end; [exact F1|].
  repeat match goal with |- context [if ?c then _ else _] => destruct c end;
    exact F1.
Qed.

Lemma library_confirm_cases e b s :
  match library_confirm e b s with
  | Done _ s' _ => s' = s \/ s' = booted s \/ s' = set_app_state Running (booted s)
  | Failed _ => a_btn b = true
  end.
Proof.
  unfold library_confirm, when_.
  destruct (negb _); [|now left].
  destruct (a_btn b); [|now left]. cbn [andb].
  destruct (g_SelectedGameIndex s >=? 0); [|now left].
  unfold bind, selected_game.
  destruct (g_SelectedGameIndex s <? 0); [reflexivity|].
  destruct (nth_error (g_Games s) (Z.to_nat (g_SelectedGameIndex s))) as [game|]; [|reflexivity].
  destruct (StartGame_cases e game s) as [(msg & E)|[E|[(l & E)|(l & E)]]]; rewrite E; auto.
Qed.

Lemma library_confirm_idle e b s : a_btn b = false -> library_confirm e b s = Done tt s [].
Proof.
  intros A. unfold library_confirm, when_. rewrite A.
  destruct (negb _); reflexivity.
Qed.

(** X19.  On the library screen, with a library that is not empty and the
    selection on one of its entries, a tick without Confirm moves the
    selection by one and stops at the ends of the list: up alone stays on
    the first entry, down alone stays on the last; the list itself is
    kept and nothing is shown. *)
Theorem library_selection_moves_without_wrapping :
  forall (e : Env) (s : State),
    g_AppState s = GameList -> executes e s = true -> a_btn (poll e) = false ->
    0 <= g_SelectedGameIndex s < Z.of_nat (length (g_Games s)) ->
    Z.of_nat (length (g_Games s)) <= INT_MAX ->
    exists s',
      HandleInput e s = Done tt s' [] /\
      g_Games s' = g_Games s /\
      g_SelectedGameIndex s' =
      let last := Z.of_nat (length (g_Games s)) - 1 in
      match up (poll e), down (poll e) with
      | true, false => Z.max 0 (g_SelectedGameIndex s - 1)
      | false, true => Z.min last (g_SelectedGameIndex s + 1)
      | true, true => if g_SelectedGameIndex s =? 0 then Z.min last 1
                      else g_SelectedGameIndex s
      | false, false => g_SelectedGameIndex s
      end.
Proof.
  intros e s Ha Hx A Hi Hn.
  rewrite (HandleInput_library e s Ha Hx), (library_confirm_idle _ _ _ A).
  eexists. split; [reflexivity|].
  pose proof (library_moves_fields (poll e) (decoded e s)) as F. cbv zeta in F.
  pose proof (decoded_fields e s) as D. cbv zeta in D.
  destruct D as (_ & _ & _ & _ & _ & _ & Dg & Di & _).
  split; [destruct F as (_ & _ & _ & _ & Fg & _); congruence|].
  unfold library_moves, open_settings. cbv zeta.
  set (s1 := if start (poll e) then _ else _).
  assert (G1 : g_Games s1 = g_Games s) by (unfold s1; destruct (start (poll e)); exact Dg).
  assert (I1 : g_SelectedGameIndex s1 = g_SelectedGameIndex s)
    by (unfold s1; destruct (start (poll e)); exact Di).
  clearbody s1.
  destruct (g_Games s1) as [|g l] eqn:G.
  { rewrite <- G1 in Hi. cbn in Hi. lia. }
  assert (Hs : forall x, g_Games x = g_Games s -> games_size x = Z.of_nat (length (g_Games s))).
  { intros x Ex. unfold games_size. rewrite Ex. apply wrap_int_small.
    unfold INT_MIN. unfold INT_MAX in *. lia. }
  unfold game_down, game_up.
  rewrite I1.
  destruct (up (poll e)), (down (poll e)); cbn [andb];
    repeat match goal with
    | |- context [games_size ?x] => rewrite (Hs x) by (try destruct (_ >? _); cbn; congruence)
    | |- context [?a >? ?b] => destruct (Z.gtb_spec a b)
    | |- context [?a <? ?b] => destruct (Z.ltb_spec a b)
    | |- context [?a =? ?b] => destruct (Z.eqb_spec a b)
    end;
    cbn [g_SelectedGameIndex set_game_index] in *; try rewrite I1 in *; try lia.
Qed.

Lemma library_selection_moves_without_wrapping_witness :
  exists s',
    HandleInput (tick 0x1 1000 sample_tree None) sample_start = Done tt s' [] /\
    g_SelectedGameIndex s' = 0.
Proof.
  destruct (library_selection_moves_without_wrapping (tick 0x1 1000 sample_tree None)
              sample_start eq_refl eq_refl eq_refl) as (s' & E & _ & R).
  { split; vm_compute; congruence. }
  { vm_compute. congruence. }
  exists s'. split; [exact E|]. rewrite R. reflexivity.
Defined.

(** ** What a tick can change *)

Lemma booted_fields s :
  g_IsEditingSetting (booted s) = g_IsEditingSetting s /\
  g_IsInstalling (booted s) = g_IsInstalling s /\
  g_InstallStatus (booted s) = g_InstallStatus s /\
  g_UserGamePaths (booted s) = g_UserGamePaths s /\
  g_Games (booted s) = g_Games s /\ config_ini (booted s) = config_ini s.
Proof. repeat split; reflexivity. Qed.

Lemma library_tick e s s' log :
  g_AppState s = GameList -> executes e s = true ->
  HandleInput e s = Done tt s' log ->
  g_IsEditingSetting s' = g_IsEditingSetting s /\ g_IsInstalling s' = g_IsInstalling s /\
  g_InstallStatus s' = g_InstallStatus s /\ g_UserGamePaths s' = g_UserGamePaths s /\
  g_Games s' = g_Games s /\ config_ini s' = config_ini s /\
  (values s' = values s \/ a_btn (poll e) = true).
Proof.
  intros Ha Hx E. rewrite (HandleInput_library e s Ha Hx) in E.
  pose proof (library_confirm_cases e (poll e) (library_moves (poll e) (decoded e s))) as C.
  rewrite E in C.
  pose proof (library_moves_fields (poll e) (decoded e s)) as F. cbv zeta in F.
  pose proof (decoded_fields e s) as D. cbv zeta in D.
  decompose [and] F. decompose [and] D.
  destruct (a_btn (poll e)) eqn:A.
  - destruct C as [-> | [-> | ->]]; cbn; repeat split; try congruence; auto.
  - rewrite (library_confirm_idle _ _ _ A) in E. injection E as <- _.
    repeat split; try congruence. left. congruence.
Qed.

Lemma settings_tick_frame e s s' log :
  g_AppState s = Settings -> g_IsEditingSetting s = false -> executes e s = true ->
  HandleInput e s = Done tt s' log ->
  g_IsInstalling s' = g_IsInstalling s /\ g_InstallStatus s' = g_InstallStatus s /\
  values s' = values s /\
  (g_IsEditingSetting s' = true ->
     a_btn (poll e) = true /\ g_CurrentTab s' = System /\
     editable_row (g_SelectedSettingIndex s') = true /\ log = []) /\
  (g_Games s' <> g_Games s -> a_btn (poll e) = true /\ picked_folder e <> None) /\
  (g_UserGamePaths s' <> g_UserGamePaths s \/ config_ini s' <> config_ini s ->
     b_btn (poll e) || start (poll e) || a_btn (poll e) = true).
Proof.
  intros Ha He Hx E. rewrite (HandleInput_settings e s Ha He Hx) in E.
  set (m := settings_moves e (poll e) (decoded e s)) in *.
  pose proof (settings_moves_kept e (poll e) (decoded e s)) as K. cbv zeta in K. fold m in K.
  pose proof (decoded_fields e s) as D. cbv zeta in D.
  decompose [and] K. decompose [and] D. clear K D.
  assert (Hidle : b_btn (poll e) || start (poll e) = false ->
                  g_UserGamePaths m = g_UserGamePaths s /\ config_ini m = config_ini s).
  { intros Hb. unfold m, settings_moves.
    assert (El : leave_settings e (poll e) (decoded e s) = decoded e s)
      by (unfold leave_settings; now rewrite Hb).
    rewrite El. split; through_moves; assumption. }
  unfold when_ in E. destruct (a_btn (poll e)) eqn:A.
  - destruct (settings_confirm_cases e m)
      as [(l & E')|[(_ & _ & _ & src & Hp & [[E' _]|(games & _ & E')])|(T & R & E')]];
      rewrite E' in E; try discriminate; injection E as <- <-.
    + repeat split; try congruence; intros _; apply orb_true_r.
    + set (s2 := set_user_game_paths (g_UserGamePaths m ++ [src]) m).
      pose proof (ScanGames_fields games (SaveSettings e s2)) as F1. cbv zeta in F1.
      pose proof (SaveSettings_fields e s2) as F2. cbv zeta in F2.
      decompose [and] F1. decompose [and] F2. clear F1 F2.
      assert (G : g_IsEditingSetting s2 = g_IsEditingSetting m /\
                  g_IsInstalling s2 = g_IsInstalling m /\
                  g_InstallStatus s2 = g_InstallStatus m /\ values s2 = values m)
        by (repeat split; reflexivity).
      decompose [and] G. clear G. clearbody s2.
      repeat split; try congruence; try (intros _; apply orb_true_r).
    + cbn [g_IsInstalling g_InstallStatus values g_IsEditingSetting g_Games g_UserGamePaths
           config_ini g_CurrentTab g_SelectedSettingIndex set_editing].
      repeat split; try congruence; intros _; apply orb_true_r.
  - injection E as <- <-. repeat split; try congruence.
    intros N. rewrite orb_false_r.
    destruct (b_btn (poll e) || start (poll e)); [reflexivity|].
    destruct (Hidle eq_refl). destruct N; congruence.
Qed.

Lemma idle_tick e s :
  executes e s = false \/ g_AppState s = Running ->
  HandleInput e s = Done tt (decoded e s) [].
Proof.
  intros H. rewrite HandleInput_unfold. cbv zeta. fold (decoded e s).
  destruct (executes e s); cbn [negb]; [|reflexivity].
  destruct H as [H|H]; [discriminate|]. rewrite H.
  destruct (any_connected (poll e)); reflexivity.
Qed.

Ltac frame_goal :=
  repeat split; try congruence;
  try match goal with N : _ <> _ \/ _ <> _ |- _ => destruct N; congruence end.

(** X20.  What a tick can change.  No tick touches the in-flight flag or
    the status text.  The search paths and the stored file change only on
    an executing tick on the settings screen outside edit mode with Back,
    Menu or Confirm among its buttons; the game list only there, with
    Confirm and a picked folder; the settings' values only on an executing
    tick in edit mode or, for the core options, with Confirm on the
    library screen. *)
Theorem tick_changes_by_screen :
  forall (e : Env) (s s' : State) (log : list Event),
    HandleInput e s = Done tt s' log ->
    g_IsInstalling s' = g_IsInstalling s /\ g_InstallStatus s' = g_InstallStatus s /\
    (g_UserGamePaths s' <> g_UserGamePaths s \/ config_ini s' <> config_ini s ->
       executes e s = true /\ g_AppState s = Settings /\ g_IsEditingSetting s = false /\
       b_btn (poll e) || start (poll e) || a_btn (poll e) = true) /\
    (g_Games s' <> g_Games s ->
       executes e s = true /\ g_AppState s = Settings /\ g_IsEditingSetting s = false /\
       a_btn (poll e) = true /\ picked_folder e <> None) /\
    (values s' <> values s ->
       executes e s = true /\
       ((g_AppState s = Settings /\ g_IsEditingSetting s = true) \/
        (g_AppState s = GameList /\ a_btn (poll e) = true))).
Proof.
  intros e s s' log E.
  pose proof (decoded_fields e s) as D. cbv zeta in D. decompose [and] D. clear D.
  destruct (executes e s) eqn:Hx.
  2:{ rewrite idle_tick in E by auto. injection E as <- <-. frame_goal. }
  destruct (g_AppState s) eqn:Ha.
  - destruct (library_tick e s s' log Ha Hx E) as (L1 & L2 & L3 & L4 & L5 & L6 & L7).
    frame_goal. right. split; [reflexivity|]. destruct L7; congruence.
  - destruct (g_IsEditingSetting s) eqn:He.
    + destruct (editing_tick e s Ha He)
        as (s'' & E' & _ & _ & _ & Q4 & _ & Q6 & Q7 & Q8 & Q9).
      rewrite E' in E. injection E as <- <-.
      frame_goal. left. auto.
    + destruct (settings_tick_frame e s s' log Ha He Hx E) as (F1 & F2 & F3 & _ & F5 & F6).
      frame_goal; try (apply F5; assumption); try (apply F6; assumption).
  - rewrite idle_tick in E by auto. injection E as <- <-. frame_goal.
Qed.

(** X21.  Edit mode is entered in one way only: by an executing tick on
    the settings screen with Confirm among its buttons that ends on an
    editable row of the System tab; such a tick shows nothing. *)
Theorem edit_mode_is_entered_by_confirm_on_an_editable_row :
  forall (e : Env) (s s' : State) (log : list Event),
    HandleInput e s = Done tt s' log ->
    g_IsEditingSetting s = false -> g_IsEditingSetting s' = true ->
    executes e s = true /\ g_AppState s = Settings /\ a_btn (poll e) = true /\
    g_CurrentTab s' = System /\ editable_row (g_SelectedSettingIndex s') = true /\
    log = [].
Proof.
  intros e s s' log E He He'.
  pose proof (decoded_fields e s) as D. cbv zeta in D. decompose [and] D. clear D.
  destruct (executes e s) eqn:Hx.
  2:{ rewrite idle_tick in E by auto. injection E as <- <-. congruence. }
  destruct (g_AppState s) eqn:Ha.
  - destruct (library_tick e s s' log Ha Hx E) as (L1 & _). congruence.
  - destruct (settings_tick_frame e s s' log Ha He Hx E) as (_ & _ & _ & F4 & _).
    destruct (F4 He') as (A & T & R & Hl). auto 10.
  - rewrite idle_tick in E by auto. injection E as <- <-. congruence.
Qed.

Lemma edit_mode_is_entered_by_confirm_on_an_editable_row_witness :
  let e := tick 0x1000 3000 sample_tree None in
  let s := state_after [tick 0x10 1000 sample_tree None; tick 0x200 2000 sample_tree None] in
  HandleInput e s = Done tt editing_language [] /\
  a_btn (poll e) = true /\ g_CurrentTab editing_language = System /\
  editable_row (g_SelectedSettingIndex editing_language) = true.
Proof.
  intros e s.
  assert (E : HandleInput e s = Done tt editing_language []) by (vm_compute; reflexivity).
  destruct (edit_mode_is_entered_by_confirm_on_an_editable_row e s editing_language [] E
              eq_refl eq_refl) as (_ & _ & A & T & R & _).
  auto.
Defined.

Lemma tick_changes_by_screen_witness :
  let e := tick 0x2 1000 sample_tree None in
  let s' := game_down (poll e) (decoded e sample_start) in
  HandleInput e sample_start = Done tt s' [] /\
  g_SelectedGameIndex s' = 1 /\
  g_IsInstalling s' = g_IsInstalling sample_start /\
  g_InstallStatus s' = g_InstallStatus sample_start.
Proof.
  intros e s'.
  assert (E : HandleInput e sample_start = Done tt s' []) by (vm_compute; reflexivity).
  destruct (tick_changes_by_screen e sample_start s' [] E) as (H1 & H2 & _).
  split; [exact E|]. split; [reflexivity|]. split; [exact H1|exact H2].
Defined.

(** ** Changing the tab or the screen *)

Lemma library_moves_opens b s :
  start b = true ->
  let s' := library_moves b s in
  g_AppState s' = Settings /\ g_CurrentTab s' = General /\
  g_SelectedSettingIndex s' = 0 /\ g_IsEditingSetting s' = g_IsEditingSetting s.
Proof.
  intros St. unfold library_moves, open_settings, game_down, game_up. rewrite St. cbv zeta.
  set (s1 := set_setting_index 0 (set_tab General (set_app_state Settings s))).
  destruct (g_Games s1); [repeat split|].
  destruct (up b && _), (down b && _); repeat split.
Qed.

(** After a tab switch the moves leave row 0, or row 1 with MoveDown held
    on a tab that has a second row. *)
Lemma settings_moves_switch_row e b s :
  lb b || rb b = true ->
  g_SelectedSettingIndex (settings_moves e b s) =
  if down b && (1 <? limit (g_CurrentTab (settings_moves e b s))) then 1 else 0.
Proof.
  intros Hs. unfold settings_moves.
  set (s0 := leave_settings e b s). clearbody s0.
  unfold row_down, row_up, tab_right, tab_left.
  destruct (lb b), (rb b); try discriminate Hs;
    cbn [g_SelectedSettingIndex g_CurrentTab set_setting_index set_tab];
    destruct (up b), (down b); cbn [andb];
    cbn [g_SelectedSettingIndex g_CurrentTab set_setting_index set_tab];
    repeat match goal with
    | |- context [tab_of_index ?i] => destruct (tab_of_index i)
    | |- context [0 >? 0] => change (0 >? 0) with false; cbv iota
    end;
    cbn; reflexivity.
Qed.

(** C2, as amended.  On an executing tick that returns.  Entering Settings
    from the library, by Menu, selects the General tab and row 0 and
    leaves the edit flag as it was; the screen is the settings screen, or
    the running screen when Confirm, held with it, has launched a game.
    TabPrev or TabNext on the settings screen outside edit mode leaves row
    0, or row 1 when MoveDown is held with it and the tab has a second
    row, and leaves the edit flag false unless Confirm is held with it and
    the tick ends on an editable row of the System tab.  Leaving Settings
    for the library, by Back or Menu outside edit mode, leaves the edit
    flag false with the same exception, and does not reset the selected
    row: without a tab switch and a move on the tick the row stays where
    it was. *)
Theorem row_and_edit_flag_on_screen_or_tab_change :
  forall (e : Env) (s s' : State) (log : list Event),
    HandleInput e s = Done tt s' log ->
    executes e s = true ->
    (g_AppState s = GameList -> start (poll e) = true ->
       g_CurrentTab s' = General /\ g_SelectedSettingIndex s' = 0 /\
       g_IsEditingSetting s' = g_IsEditingSetting s /\
       (g_AppState s' = Settings \/ a_btn (poll e) = true /\ g_AppState s' = Running)) /\
    (g_AppState s = Settings -> g_IsEditingSetting s = false ->
       lb (poll e) || rb (poll e) = true ->
       g_SelectedSettingIndex s' =
         (if down (poll e) && (1 <? limit (g_CurrentTab s')) then 1 else 0) /\
       (g_IsEditingSetting s' = false \/
        a_btn (poll e) = true /\ g_CurrentTab s' = System /\
        editable_row (g_SelectedSettingIndex s') = true)) /\
    (g_AppState s = Settings -> g_IsEditingSetting s = false ->
       b_btn (poll e) || start (poll e) = true ->
       g_AppState s' = GameList /\
       (g_IsEditingSetting s' = false \/
        a_btn (poll e) = true /\ g_CurrentTab s' = System /\
        editable_row (g_SelectedSettingIndex s') = true) /\
       (lb (poll e) || rb (poll e) = false -> up (poll e) = false -> down (poll e) = false ->
        g_SelectedSettingIndex s' = g_SelectedSettingIndex s)).
Proof.
  intros e s s' log H Hx.
  assert (Edit : g_AppState s = Settings -> g_IsEditingSetting s = false ->
                 g_IsEditingSetting s' = false \/
                 a_btn (poll e) = true /\ g_CurrentTab s' = System /\
                 editable_row (g_SelectedSettingIndex s') = true).
  { intros Ha He.
    destruct (settings_tick_frame e s s' log Ha He Hx H) as (_ & _ & _ & F4 & _).
    destruct (g_IsEditingSetting s'); [right|now left].
    destruct (F4 eq_refl) as (A & T & R & _). auto. }
  split; [|split].
  - intros Ha St. rewrite (HandleInput_library e s Ha Hx) in H.
    pose proof (library_moves_opens (poll e) (decoded e s) St) as M. cbv zeta in M.
    destruct M as (Ma & Mt & Mr & Me).
    pose proof (decoded_fields e s) as D. cbv zeta in D. destruct D as (De & _).
    rewrite De in Me.
    destruct (a_btn (poll e)) eqn:A.
    + pose proof (library_confirm_cases e (poll e) (library_moves (poll e) (decoded e s))) as C.
      rewrite H in C. destruct C as [-> | [-> | ->]]; cbn; auto 7.
    + rewrite (library_confirm_idle _ _ _ A) in H. injection H as <- _. auto.
  - intros Ha He Hs.
    pose proof (settings_tick e s Ha He Hx) as T. cbv zeta in T. rewrite H in T.
    destruct T as (Tt & Tr & _).
    split; [|now apply Edit].
    rewrite Tr, Tt. now apply settings_moves_switch_row.
  - intros Ha He Hb.
    pose proof (settings_tick e s Ha He Hx) as T. cbv zeta in T. rewrite H in T.
    destruct T as (_ & Tr & Ta).
    pose proof (settings_moves_kept e (poll e) (decoded e s)) as K. cbv zeta in K.
    destruct K as (_ & _ & _ & _ & _ & _ & Ka). rewrite Hb in Ka.
    split; [congruence|]. split; [now apply Edit|].
    intros Hs Hu Hd. apply orb_false_iff in Hs. destruct Hs as [Hl Hr].
    rewrite Tr, (proj2 (settings_moves_row e (poll e) (decoded e s) Hl Hr)).
    cbv zeta. rewrite Hu, Hd. cbn [andb].
    pose proof (decoded_fields e s) as D. cbv zeta in D. decompose [and] D. assumption.
Qed.

Lemma row_and_edit_flag_on_screen_or_tab_change_witness :
  (exists s' log,
     HandleInput (tick 0x12 1000 sample_tree None) sample_start = Done tt s' log /\
     g_AppState s' = Settings /\ g_CurrentTab s' = General /\
     g_SelectedSettingIndex s' = 0 /\ g_IsEditingSetting s' = false) /\
  (exists s' log,
     HandleInput (tick 0x200 5000 sample_tree None) general_row_3 = Done tt s' log /\
     g_SelectedSettingIndex s' = 0 /\ g_IsEditingSetting s' = false) /\
  (exists s' log,
     HandleInput (tick 0x2000 5000 sample_tree None) general_row_3 = Done tt s' log /\
     g_AppState s' = GameList /\ g_IsEditingSetting s' = false /\
     g_SelectedSettingIndex s' = 3).
Proof.
  split; [|split].
  - destruct (HandleInput (tick 0x12 1000 sample_tree None) sample_start)
      as [[] s' log|f] eqn:E; [|vm_compute in E; discriminate].
    exists s', log. split; [reflexivity|].
    destruct (row_and_edit_flag_on_screen_or_tab_change _ _ s' log E) as (H & _ & _);
      [reflexivity|].
    destruct H as (T & R & F & [A|[A _]]); try reflexivity; [auto|discriminate A].
  - destruct (HandleInput (tick 0x200 5000 sample_tree None) general_row_3)
      as [[] s' log|f] eqn:E; [|vm_compute in E; discriminate].
    exists s', log. split; [reflexivity|].
    destruct (row_and_edit_flag_on_screen_or_tab_change _ _ s' log E) as (_ & H & _);
      [reflexivity|].
    destruct H as (R & [F|[A _]]); try reflexivity; [|discriminate A].
    split; [exact R|exact F].
  - destruct (HandleInput (tick 0x2000 5000 sample_tree None) general_row_3)
      as [[] s' log|f] eqn:E; [|vm_compute in E; discriminate].
    exists s', log. split; [reflexivity|].
    destruct (row_and_edit_flag_on_screen_or_tab_change _ _ s' log E) as (_ & _ & H);
      [reflexivity|].
    destruct H as (A & [F|[B _]] & C); try reflexivity; [|discriminate B].
    split; [exact A|]. split; [exact F|]. rewrite C; reflexivity.
Defined.

(** C2 as stated does not hold.  Leaving Settings for the library does not
    reset the selected row (row 3 stays 3); a tick with TabNext and
    MoveDown ends on row 1; a tick with TabNext and Confirm, from the
    General tab, ends in edit mode; and after a tick with Back and Confirm
    on the language row, which ends on the library screen with the edit
    flag set, Menu enters Settings with the flag still set. *)
Lemma row_reset_claim_fails :
  let in_settings := state_after [tick 0x10 1000 sample_tree None] in
  (g_AppState general_row_3 = Settings /\
   exists s' log,
     HandleInput (tick 0x2000 5000 sample_tree None) general_row_3 = Done tt s' log /\
     g_AppState s' = GameList /\ g_SelectedSettingIndex s' = 3) /\
  (g_AppState in_settings = Settings /\ g_CurrentTab in_settings = General /\
   exists s' log,
     HandleInput (tick 0x202 2000 sample_tree None) in_settings = Done tt s' log /\
     g_CurrentTab s' = System /\ g_SelectedSettingIndex s' = 1) /\
  (exists s' log,
     HandleInput (tick 0x1200 2000 sample_tree None) in_settings = Done tt s' log /\
     g_CurrentTab s' = System /\ g_IsEditingSetting s' = true) /\
  (exists s1 log1 s' log,
     run [tick 0x200 2000 sample_tree None; tick 0x3000 3000 sample_tree None] in_settings =
       Done tt s1 log1 /\
     g_AppState s1 = GameList /\ g_IsEditingSetting s1 = true /\
     HandleInput (tick 0x10 4000 sample_tree None) s1 = Done tt s' log /\
     g_AppState s' = Settings /\ g_IsEditingSetting s' = true).
Proof.
  intros in_settings. split; [|split; [|split]].
  - split; [reflexivity|].
    eexists _, _. split; [vm_compute; reflexivity|]. split; reflexivity.
  - split; [reflexivity|]. split; [reflexivity|].
    eexists _, _. split; [vm_compute; reflexivity|]. split; reflexivity.
  - eexists _, _. split; [vm_compute; reflexivity|]. split; reflexivity.
  - eexists _, _, _, _. split; [vm_compute; reflexivity|].
    split; [reflexivity|]. split; [reflexivity|].
    split; [vm_compute; reflexivity|]. split; reflexivity.
Qed.

(** ** Idle ticks *)

Lemma decoded_shape e s :
  exists t, decoded e s = set_last_input_mask (mask_of (poll e)) (set_next_input_time t s).
Proof.
  unfold decoded, decode.
  destruct (negb (mask_of (poll e) =? 0));
    [destruct (negb (mask_of (poll e) =? g_LastInputMask s));
     [|destruct (g_NextInputTime s <=? GetTickCount64 e)]|];
    cbn [snd]; try (eexists; reflexivity);
    exists (g_NextInputTime s); destruct s; reflexivity.
Qed.

(** X22.  Once a title runs the launcher is inert: whatever the buttons
    and the clock of the ticks that follow, the loop never faults, shows
    nothing, starts nothing, and leaves every global as it is except the
    decoder's last mask and next input time. *)
Theorem running_state_is_final :
  forall (ticks : list Env) (s : State),
    g_AppState s = Running ->
    exists m t,
      run ticks s = Done tt (set_last_input_mask m (set_next_input_time t s)) [].
Proof.
  induction ticks as [|e ticks IH]; intros s Ha.
  - exists (g_LastInputMask s), (g_NextInputTime s). destruct s; reflexivity.
  - cbn [run]. rewrite idle_tick by auto.
    destruct (decoded_shape e s) as (t & ->).
    destruct (IH (set_last_input_mask (mask_of (poll e)) (set_next_input_time t s)) Ha)
      as (m' & t' & ->).
    exists m', t'. destruct s; reflexivity.
Qed.

Lemma running_state_is_final_witness :
  exists m t,
    run [tick 0x1000 1000 sample_tree None; tick 0x10 2000 sample_tree (Some (L "E:\x"))]
        (set_app_state Running sample_start) =
    Done tt (set_last_input_mask m (set_next_input_time t (set_app_state Running sample_start))) [].
Proof.
  apply (running_state_is_final
           [tick 0x1000 1000 sample_tree None; tick 0x10 2000 sample_tree (Some (L "E:\x"))]
           (set_app_state Running sample_start)).
  reflexivity.
Defined.

(** X23.  A tick on which no button is held, in particular one with no
    controller connected, does nothing but clear the last mask: the next
    press of any button then executes at once. *)
Theorem tick_without_buttons_only_clears_the_mask :
  forall (e : Env) (s : State),
    (any_connected (poll e) = false -> mask_of (poll e) = 0) /\
    (mask_of (poll e) = 0 ->
       HandleInput e s = Done tt (set_last_input_mask 0 s) [] /\
       forall e', mask_of (poll e') <> 0 -> executes e' (set_last_input_mask 0 s) = true).
Proof.
  intros e s. split.
  - intros H. rewrite (poll_not_connected e H). reflexivity.
  - intros Hm. split.
    + rewrite idle_tick.
      * unfold decoded. rewrite Hm. reflexivity.
      * left. unfold executes. rewrite Hm. apply decode_zero_mask.
    + intros e' Hm'. unfold executes.
      refine (proj1 (decode_fresh _ _ _ Hm' _)). cbn. congruence.
Qed.

Lemma tick_without_buttons_only_clears_the_mask_witness :
  HandleInput tick_locked_config sample_start = Done tt (set_last_input_mask 0 sample_start) [].
Proof.
  apply (proj2 (tick_without_buttons_only_clears_the_mask tick_locked_config sample_start)).
  reflexivity.
Defined.

(** ** The decoder, two ticks in a row *)

(** X24.  After a tick that executed with mask [m] at time [t], the same
    mask executes again exactly when the clock has reached [t] plus the
    delay, 400 ms if the tick was the first of the hold and 50 ms if it
    was a repeat; another non-zero mask executes at once; and after a tick
    with nothing held the same mask executes at once too. *)
Theorem decoder_after_an_executing_tick :
  forall (m t : Z) (s : State),
    m <> 0 -> clock_ok t -> fst (decode m t s) = true ->
    let s' := snd (decode m t s) in
    (forall t', fst (decode m t' s') =
                (t + (if g_LastInputMask s =? m then 50 else 400) <=? t')) /\
    (forall m' t', m' <> 0 -> m' <> m -> fst (decode m' t' s') = true) /\
    (forall t0 t', fst (decode m t' (snd (decode 0 t0 s'))) = true).
Proof.
  intros m t s Hm Hc Hx s'.
  assert (Hl : g_LastInputMask s' = m) by apply decode_last_mask.
  split; [|split].
  - intros t'.
    assert (Hn : g_NextInputTime s' = t + (if g_LastInputMask s =? m then 50 else 400)).
    { destruct (Z.eqb_spec (g_LastInputMask s) m) as [El|Nl].
      - apply (proj1 (decode_held m t s Hm El Hc)). exact Hx.
      - apply (proj2 (decode_fresh m t s Hm Nl)). exact Hc. }
    unfold decode. rewrite Hl, Hn, Z.eqb_refl.
    rewrite (proj2 (Z.eqb_neq _ _) Hm). cbn [negb].
    destruct (_ <=? t'); reflexivity.
  - intros m' t' Hm' Hd. refine (proj1 (decode_fresh m' t' s' Hm' _)). congruence.
  - intros t0 t'. refine (proj1 (decode_fresh m t' _ Hm _)).
    rewrite decode_last_mask. congruence.
Qed.

Lemma decoder_after_an_executing_tick_witness :
  let s' := snd (decode 2 1000 (initial_state default_values None)) in
  fst (decode 2 1399 s') = false /\ fst (decode 2 1400 s') = true /\
  fst (decode 1 1001 s') = true.
Proof.
  intros s'.
  destruct (decoder_after_an_executing_tick 2 1000 (initial_state default_values None))
    as (H1 & H2 & _).
  - discriminate.
  - split; vm_compute; congruence.
  - reflexivity.
  - split; [rewrite H1; reflexivity|]. split; [rewrite H1; reflexivity|].
    apply H2; discriminate.
Defined.

(** ** Polling the controllers *)

Lemma fold_poll_slot e l : forall b,
  let r := fold_left (poll_slot e) l b in
  let some f := existsb (fun i => f (poll_slot e no_buttons i)) l in
  up r = up b || some up /\ down r = down b || some down /\
  lb r = lb b || some lb /\ rb r = rb b || some rb /\
  a_btn r = a_btn b || some a_btn /\ b_btn r = b_btn b || some b_btn /\
  start r = start b || some start /\
  any_connected r = any_connected b || some any_connected.
Proof.
  induction l as [|i l IH]; intros b; cbv zeta.
  - cbn. rewrite !orb_false_r. repeat split; reflexivity.
  - cbn [fold_left existsb]. specialize (IH (poll_slot e b i)). cbv zeta in IH.
    decompose [and] IH. clear IH.
    repeat match goal with H : _ = _ |- _ => rewrite H; clear H end.
    unfold poll_slot. destruct (XInputGetState e i); cbn;
      rewrite ?orb_false_r, ?orb_true_r, ?orb_assoc; repeat split; reflexivity.
Qed.

Lemma slot_in_range i : In i (map Z.of_nat (seq 0 (Z.to_nat MAX_CONTROLLERS))) <-> 0 <= i < 4.
Proof.
  change (map Z.of_nat (seq 0 (Z.to_nat MAX_CONTROLLERS))) with [0; 1; 2; 3].
  cbn [In]. split.
  - intros [<-|[<-|[<-|[<-|[]]]]]; lia.
  - intros H. assert (C : 0 = i \/ 1 = i \/ 2 = i \/ 3 = i) by lia. tauto.
Qed.

Lemma poll_flag (f : Buttons -> bool) e :
  f no_buttons = false ->
  f (poll e) = existsb (fun i => f (poll_slot e no_buttons i))
                 (map Z.of_nat (seq 0 (Z.to_nat MAX_CONTROLLERS))) ->
  (f (poll e) = true <->
   exists i, 0 <= i < 4 /\ f (poll_slot e no_buttons i) = true).
Proof.
  intros _ E. rewrite E, existsb_exists. split.
  - intros (i & Hi & Hf). exists i. split; [now apply slot_in_range|exact Hf].
  - intros (i & Hi & Hf). exists i. split; [now apply slot_in_range|exact Hf].
Qed.

(** X25.  What the poll reports.  A button counts as held when some
    connected controller among the four slots has its bit set; up and
    down also when a connected controller's left stick is beyond the dead
    zone, strictly: a stick at exactly 8000 or -8000 does not count.  A
    controller counts as connected when some slot answers. *)
Theorem poll_reports_any_connected_controller :
  forall e : Env,
    let held (test : Gamepad -> bool) :=
      exists i pad, 0 <= i < 4 /\ XInputGetState e i = Some pad /\ test pad = true in
    (any_connected (poll e) = true <-> held (fun _ => true)) /\
    (up (poll e) = true <->
       held (fun pad => pressed (wButtons pad) XINPUT_GAMEPAD_DPAD_UP || (sThumbLY pad >? 8000))) /\
    (down (poll e) = true <->
       held (fun pad => pressed (wButtons pad) XINPUT_GAMEPAD_DPAD_DOWN || (sThumbLY pad <? -8000))) /\
    (lb (poll e) = true <-> held (fun pad => pressed (wButtons pad) XINPUT_GAMEPAD_LEFT_SHOULDER)) /\
    (rb (poll e) = true <-> held (fun pad => pressed (wButtons pad) XINPUT_GAMEPAD_RIGHT_SHOULDER)) /\
    (a_btn (poll e) = true <-> held (fun pad => pressed (wButtons pad) XINPUT_GAMEPAD_A)) /\
    (b_btn (poll e) = true <-> held (fun pad => pressed (wButtons pad) XINPUT_GAMEPAD_B)) /\
    (start (poll e) = true <-> held (fun pad => pressed (wButtons pad) XINPUT_GAMEPAD_START)).
Proof.
  intros e held.
  pose proof (fold_poll_slot e (map Z.of_nat (seq 0 (Z.to_nat MAX_CONTROLLERS))) no_buttons) as F.
  cbv zeta in F. fold (poll e) in F. cbn [no_buttons up down lb rb a_btn b_btn start
    any_connected orb] in F.
  destruct F as (F1 & F2 & F3 & F4 & F5 & F6 & F7 & F8).
  assert (S : forall (f : Buttons -> bool) (test : Gamepad -> bool),
            f no_buttons = false ->
            (forall pad i, XInputGetState e i = Some pad ->
                           f (poll_slot e no_buttons i) = test pad) ->
            f (poll e) = existsb (fun i => f (poll_slot e no_buttons i))
                           (map Z.of_nat (seq 0 (Z.to_nat MAX_CONTROLLERS))) ->
            (f (poll e) = true <-> held test)).
  { intros f test Hf Ht E. rewrite (poll_flag f e Hf E). unfold held. split.
    - intros (i & Hi & H). unfold poll_slot in H.
      destruct (XInputGetState e i) as [pad|] eqn:X; [|congruence].
      exists i, pad. repeat split; try tauto.
      rewrite <- (Ht pad i X). unfold poll_slot. rewrite X. exact H.
    - intros (i & pad & Hi & X & H). exists i. split; [exact Hi|].
      now rewrite (Ht pad i X). }
  repeat match goal with |- _ /\ _ => split end;
    (apply S; [reflexivity| |assumption];
     intros pad i X; unfold poll_slot; rewrite X; reflexivity).
Qed.

Lemma poll_reports_any_connected_controller_witness :
  up (poll (tick 0x1 0 sample_tree None)) = true /\
  up (poll {| XInputGetState := fun i => if i =? 3 then Some {| wButtons := 0; sThumbLY := 8000 |}
                                         else None;
              GetTickCount64 := 0; GetUserDirectory := user_root; fs_at := fs_of sample_tree;
              config_opens := true; picked_folder := None; engine := LoadSucceeded |}) = false.
Proof.
  split; [|reflexivity].
  apply (proj1 (proj2 (poll_reports_any_connected_controller (tick 0x1 0 sample_tree None)))).
  exists 0, {| wButtons := 0x1; sThumbLY := 0 |}. repeat split; try reflexivity; lia.
Defined.

(** X26.  The mask tells the held buttons apart: bit [k] of the mask is
    the [k]-th of up, down, left shoulder, right shoulder, Confirm, Back
    and Menu, the mask stays below 128, and two polls give the same mask
    exactly when they report the same seven buttons. *)
Theorem mask_tells_the_buttons_apart :
  forall b b' : Buttons,
    (Z.testbit (mask_of b) 0 = up b /\ Z.testbit (mask_of b) 1 = down b /\
     Z.testbit (mask_of b) 2 = lb b /\ Z.testbit (mask_of b) 3 = rb b /\
     Z.testbit (mask_of b) 4 = a_btn b /\ Z.testbit (mask_of b) 5 = b_btn b /\
     Z.testbit (mask_of b) 6 = start b /\ 0 <= mask_of b < 128) /\
    (mask_of b = mask_of b' <->
     up b = up b' /\ down b = down b' /\ lb b = lb b' /\ rb b = rb b' /\
     a_btn b = a_btn b' /\ b_btn b = b_btn b' /\ start b = start b').
Proof.
  intros b b'. split; [apply mask_of_testbit|]. split.
  - intros E.
    pose proof (mask_of_testbit b) as T. pose proof (mask_of_testbit b') as T'.
    rewrite E in T. decompose [and] T. decompose [and] T'.
    repeat split; congruence.
  - intros (H1 & H2 & H3 & H4 & H5 & H6 & H7). unfold mask_of.
    now rewrite H1, H2, H3, H4, H5, H6, H7.
Qed.

(** ** The list of games as drawn *)

Lemma draw_rows_in_bounds s : forall n i,
  0 <= i -> ((0 < n)%nat -> i + Z.of_nat n <= Z.of_nat (length (g_Games s))) ->
  exists rows,
    draw_rows n i s = Some rows /\ length rows = n /\
    forall k, (k < n)%nat ->
      exists g, nth_error (g_Games s) (Z.to_nat i + k) = Some g /\
                nth_error rows k =
                Some {| row_text := name g;
                        row_selected := i + Z.of_nat k =? g_SelectedGameIndex s |}.
Proof.
  induction n as [|n IH]; intros i Hi Hn.
  - exists []. repeat split; auto. intros k Hk. lia.
  - cbn [draw_rows]. destruct (Z.ltb_spec i 0) as [C|_]; [lia|].
    specialize (Hn ltac:(lia)).
    destruct (nth_error (g_Games s) (Z.to_nat i)) as [g|] eqn:G.
    2:{ apply nth_error_None in G. lia. }
    destruct (IH (i + 1)) as (rows & -> & Hl & Hk); [lia|lia|].
    eexists. split; [reflexivity|]. split; [cbn; now rewrite Hl|].
    intros [|k] Hlt.
    + exists g. rewrite Nat.add_0_r, Z.add_0_r. auto.
    + destruct (Hk k) as (g' & G' & R'); [lia|]. exists g'.
      replace (Z.to_nat i + S k)%nat with (Z.to_nat (i + 1) + k)%nat by lia.
      replace (i + Z.of_nat (S k)) with (i + 1 + Z.of_nat k) by lia.
      auto.
Qed.

Lemma endIdx_le_size height s : endIdx height s <= Z.of_nat (length (g_Games s)).
Proof.
  unfold endIdx, games_size.
  pose proof (wrap_int_le (Z.of_nat (length (g_Games s)))). lia.
Qed.

Lemma startIdx_nonneg height s : 0 <= startIdx height s.
Proof. unfold startIdx. lia. Qed.

(** X27.  Drawing the library never reads the game list outside its
    bounds, whatever the selected index and the height of the window, so
    also when the selection points past the end of a list that a rescan
    has shortened: every row drawn is an entry of the list, the rows are
    consecutive entries, and a row is drawn as selected exactly when its
    index is the selected one. *)
Theorem drawing_the_library_stays_in_bounds :
  forall (height : Z) (s : State),
    exists rows,
      draw_game_list height s = Some rows /\
      Z.of_nat (length rows) = Z.max 0 (endIdx height s - startIdx height s) /\
      forall k, (k < length rows)%nat ->
        exists g,
          nth_error (g_Games s) (Z.to_nat (startIdx height s) + k) = Some g /\
          nth_error rows k =
          Some {| row_text := name g;
                  row_selected := startIdx height s + Z.of_nat k =? g_SelectedGameIndex s |}.
Proof.
  intros height s. unfold draw_game_list.
  pose proof (endIdx_le_size height s) as He.
  pose proof (startIdx_nonneg height s) as Hs.
  destruct (draw_rows_in_bounds s (Z.to_nat (endIdx height s - startIdx height s))
              (startIdx height s) Hs) as (rows & E & Hl & Hk); [lia|].
  exists rows. split; [exact E|]. split; [lia|].
  intros k Hlt. apply Hk. lia.
Qed.

Lemma drawing_rows_window height s :
  140 <= height ->
  Z.of_nat (length (g_Games s)) + height <= INT_MAX ->
  0 <= g_SelectedGameIndex s < Z.of_nat (length (g_Games s)) ->
  1 <= visibleItems height /\
  startIdx height s <= g_SelectedGameIndex s < endIdx height s /\
  endIdx height s - startIdx height s <= visibleItems height.
Proof.
  intros Hh Hn Hi. unfold INT_MAX in Hn.
  assert (Wh : wrap_int (height - 100) = height - 100).
  { apply wrap_int_small. unfold INT_MIN, INT_MAX. lia. }
  assert (Hv : 1 <= visibleItems height <= height).
  { unfold visibleItems. rewrite Wh.
    pose proof (Z.quot_le_mono 40 (height - 100) 40 ltac:(lia) ltac:(lia)) as Q.
    change (Z.quot 40 40) with 1 in Q.
    pose proof (Z.quot_le_upper_bound (height - 100) 40 height ltac:(lia) ltac:(nia)). lia. }
  assert (Hq : 0 <= Z.quot (visibleItems height) 2 < visibleItems height).
  { split; [apply Z.quot_pos; lia|apply Z.quot_lt; lia]. }
  assert (Ws : wrap_int (g_SelectedGameIndex s - Z.quot (visibleItems height) 2) =
               g_SelectedGameIndex s - Z.quot (visibleItems height) 2).
  { apply wrap_int_small. unfold INT_MIN, INT_MAX. lia. }
  assert (Hs : startIdx height s =
               Z.max 0 (g_SelectedGameIndex s - Z.quot (visibleItems height) 2)).
  { unfold startIdx. now rewrite Ws. }
  assert (We : wrap_int (startIdx height s + visibleItems height) =
               startIdx height s + visibleItems height).
  { apply wrap_int_small. unfold INT_MIN, INT_MAX. lia. }
  assert (Wg : games_size s = Z.of_nat (length (g_Games s))).
  { unfold games_size. apply wrap_int_small. unfold INT_MIN, INT_MAX. lia. }
  unfold endIdx. rewrite We, Wg. lia.
Qed.

(** X28.  With the selection on an entry of the list and a window high
    enough for one row, the selected entry is among the rows drawn, and
    is drawn as selected.  The list is shorter than [INT_MAX - height]. *)
Theorem the_selected_game_is_drawn :
  forall (height : Z) (s : State),
    140 <= height ->
    Z.of_nat (length (g_Games s)) + height <= INT_MAX ->
    0 <= g_SelectedGameIndex s < Z.of_nat (length (g_Games s)) ->
    exists rows g k,
      draw_game_list height s = Some rows /\
      nth_error (g_Games s) (Z.to_nat (g_SelectedGameIndex s)) = Some g /\
      nth_error rows k = Some {| row_text := name g; row_selected := true |} /\
      Z.of_nat (length rows) <= visibleItems height.
Proof.
  intros height s Hh Hn Hi.
  destruct (drawing_rows_window height s Hh Hn Hi) as (Hv & Hs & He).
  unfold draw_game_list.
  pose proof (endIdx_le_size height s) as Hle.
  pose proof (startIdx_nonneg height s) as Hs0.
  destruct (draw_rows_in_bounds s (Z.to_nat (endIdx height s - startIdx height s))
              (startIdx height s) Hs0) as (rows & E & Hl & Hk); [lia|].
  destruct (Hk (Z.to_nat (g_SelectedGameIndex s - startIdx height s))) as (g & G & R); [lia|].
  exists rows, g, (Z.to_nat (g_SelectedGameIndex s - startIdx height s)).
  split; [exact E|].
  replace (Z.to_nat (startIdx height s) +
           Z.to_nat (g_SelectedGameIndex s - startIdx height s))%nat
    with (Z.to_nat (g_SelectedGameIndex s)) in G by lia.
  split; [exact G|]. split; [|lia].
  rewrite R. do 2 f_equal. apply Z.eqb_eq. lia.
Qed.

Lemma the_selected_game_is_drawn_witness :
  exists rows g k,
    draw_game_list 1080 sample_start = Some rows /\
    nth_error rows k = Some {| row_text := name g; row_selected := true |}.
Proof.
  destruct (the_selected_game_is_drawn 1080 sample_start) as (rows & g & k & E & _ & R & _).
  - lia.
  - vm_compute. congruence.
  - split; vm_compute; congruence.
  - exists rows, g, k. split; [exact E|exact R].
Defined.

(** ** Exit and restart *)

Lemma load_saved_file e s0 v paths :
  config_opens e = true -> config_ini s0 = Some (config_text v paths) ->
  fits_int (language_index v) -> fits_int (region_index v) ->
  fits_int (memory_layout_mode v) -> Forall storable paths ->
  let loaded := LoadSettings e s0 in
  language_index (values loaded) = language_index v /\
  region_index (values loaded) = region_index v /\
  custom_rtc_enabled (values loaded) = custom_rtc_enabled v /\
  use_multi_core (values loaded) = use_multi_core v /\
  memory_layout_mode (values loaded) = memory_layout_mode v /\
  g_UserGamePaths loaded = paths.
Proof.
  intros He Ef Fl Fr Fm Sp loaded.
  assert (Np : Forall (fun p => ~ In 10 p) paths).
  { eapply Forall_impl; [|exact Sp]. intros p [H _]. exact H. }
  assert (El : loaded = fold_left load_line (config_lines v paths) (set_user_game_paths [] s0)).
  { subst loaded. unfold LoadSettings, open_config. rewrite He, Ef.
    unfold config_text. rewrite getlines_of_lines by now apply config_lines_no_newline.
    reflexivity. }
  unfold config_lines in El. rewrite fold_left_app in El. cbn [fold_left] in El.
  change (load_line ?x (L "[System]")) with x in El.
  rewrite load_Language, load_Region, load_CustomRTC, load_MultiCore, load_MemoryLayout
    in El by assumption.
  change (load_line ?x (L "")) with x in El.
  change (load_line ?x (L "[Paths]")) with x in El.
  match type of El with _ = fold_left _ _ ?s1 =>
    destruct (load_GamePaths paths s1 Sp) as [Ep Ev] end.
  cbv zeta in Ep, Ev. rewrite <- El in Ep, Ev. rewrite Ev, Ep.
  cbn. repeat split; reflexivity.
Qed.

(** X29.  Closing the window saves the settings and asks the loop to
    quit; a process started afterwards, that opens the file, loads the
    language, region, custom-clock flag, multicore flag and memory layout
    that were in memory at the close and the search paths the save left:
    in strictly ascending order of paths, each of them one of the paths
    there were, with a path equal to every path there was among them.  Its
    start-up scan returns when every status it asks for is read, and then
    the process starts with these settings and paths and has searched
    every one of these paths that exists, under its spelling or an equal
    one.  The settings' values are [int]s and the paths have no line feed
    in them and no blank at either end. *)
Theorem settings_survive_exit_and_restart :
  forall (e e' : Env) (s : State) (v0 : SettingsValues),
    config_opens e = true -> config_opens e' = true ->
    fits_int (language_index (values s)) -> fits_int (region_index (values s)) ->
    fits_int (memory_layout_mode (values s)) ->
    Forall storable (g_UserGamePaths s) ->
    let closed := WindowProc e WM_DESTROY s in
    let loaded := LoadSettings e' (initial_state v0 (config_ini (globals closed))) in
    quit_posted closed = true /\
    language_index (values loaded) = language_index (values s) /\
    region_index (values loaded) = region_index (values s) /\
    custom_rtc_enabled (values loaded) = custom_rtc_enabled (values s) /\
    use_multi_core (values loaded) = use_multi_core (values s) /\
    memory_layout_mode (values loaded) = memory_layout_mode (values s) /\
    g_UserGamePaths loaded = g_UserGamePaths (globals closed) /\
    StronglySorted path_lt (g_UserGamePaths loaded) /\
    (forall p, In p (g_UserGamePaths loaded) -> In p (g_UserGamePaths s)) /\
    (forall p, In p (g_UserGamePaths s) ->
               exists q, In q (g_UserGamePaths loaded) /\ path_eq q p) /\
    (statuses_known e' ->
       exists next, startup e' v0 (config_ini (globals closed)) = Done tt next []) /\
    (forall next log,
       startup e' v0 (config_ini (globals closed)) = Done tt next log ->
       values next = values loaded /\ g_UserGamePaths next = g_UserGamePaths loaded /\
       exists paths,
         search_paths e' loaded = Some paths /\
         g_Games next = flat_map (scan_root e') paths /\
         forall p, In p (g_UserGamePaths loaded) -> fs_exists e' p = Some true ->
                   exists q, In q paths /\ path_eq q p).
Proof.
  intros e e' s v0 He He' Fl Fr Fm Fp closed loaded.
  split; [reflexivity|].
  set (paths := unique (sort_paths (g_UserGamePaths s))).
  assert (Sp : Forall storable paths).
  { apply Forall_forall. intros p Hp. apply saved_paths_incl in Hp.
    exact (proj1 (Forall_forall _ _) Fp p Hp). }
  assert (Ef : config_ini (globals closed) = Some (config_text (values s) paths)).
  { unfold closed, WindowProc. cbn [globals]. unfold SaveSettings. rewrite He. reflexivity. }
  assert (Em : g_UserGamePaths (globals closed) = paths).
  { unfold closed, WindowProc. cbn [globals]. unfold SaveSettings. rewrite He. reflexivity. }
  set (fresh := initial_state v0 (config_ini (globals closed))) in *.
  assert (Ec : config_ini fresh = Some (config_text (values s) paths)) by exact Ef.
  destruct (load_saved_file e' fresh (values s) paths He' Ec Fl Fr Fm Sp)
    as (L1 & L2 & L3 & L4 & L5 & L6).
  fold loaded in L1, L2, L3, L4, L5, L6.
  split; [exact L1|]. split; [exact L2|]. split; [exact L3|]. split; [exact L4|].
  split; [exact L5|]. split; [congruence|]. rewrite L6.
  split; [apply unique_sorted, sort_paths_sorted|].
  split; [intros p; apply saved_paths_incl|].
  split; [intros p; apply saved_paths_cover|].
  split.
  - intros K. unfold startup. fold fresh. fold loaded.
    destruct (ScanGames_known e' loaded K) as (ps & _ & H). eauto.
  - intros next log H. unfold startup in H. fold fresh in H. fold loaded in H.
    destruct (ScanGames_Done e' loaded next log H) as (ps & E & -> & _ & _).
    split; [reflexivity|]. split; [exact L6|].
    exists ps. split; [exact E|]. split; [reflexivity|].
    intros p Hp Hx.
    destruct (search_paths_parts e' loaded ps E) as (users & drives & -> & _ & _ & Hc & _).
    rewrite L6 in Hc. destruct (Hc p Hp Hx) as (q & Hq & Eq).
    exists q. split; [|exact Eq].
    destruct Hq as [<-|Hq]; [now left|right; apply in_or_app; now left].
Qed.

Lemma settings_survive_exit_and_restart_witness :
  let e := tick 0 0 sample_tree None in
  exists next,
    startup e default_values
      (config_ini (globals (WindowProc e WM_DESTROY sample_settings))) = Done tt next [] /\
    use_multi_core (values next) = true /\ memory_layout_mode (values next) = 1 /\
    g_UserGamePaths next = [L "C:\My Games"; L "E:\Roms"].
Proof.
  intros e.
  destruct (settings_survive_exit_and_restart e e sample_settings default_values)
    as (_ & _ & _ & _ & Hm & Hl & Hp & _ & _ & _ & Hk & Hn);
    try reflexivity; try (vm_compute; split; discriminate).
  - repeat constructor; try (vm_compute; intuition discriminate).
  - destruct Hk as (next & H).
    + intros p. unfold e, tick, fs_at, fs_of.
      destruct (wstring_eqb p (L "D:\Games")); discriminate.
    + exists next. split; [exact H|].
      destruct (Hn next [] H) as (Ev & Eu & _). rewrite Ev, Eu, Hm, Hl, Hp.
      repeat split.
Defined.

(** ** Values that are no numbers *)

Lemma wtoi_no_number val :
  (forall c r, val = c :: r ->
     is_space c = false /\ is_digit c = false /\ c <> 43 /\ c <> 45) ->
  _wtoi val = 0.
Proof.
  intros H. unfold _wtoi. destruct val as [|c r]; [reflexivity|].
  destruct (H c r eq_refl) as (Hs & Hd & Hp & Hm).
  cbn [drop_space]. rewrite Hs.
  rewrite (proj2 (Z.eqb_neq _ _) Hm), (proj2 (Z.eqb_neq _ _) Hp).
  cbn [wtoi_digits]. rewrite Hd. reflexivity.
Qed.

(** X30.  A value that is not a number is not skipped: when the text
    after the equals sign is empty or starts with a character that is no
    digit, sign or white space, the line stores 0 in the language, the
    region and the memory layout and switches the custom clock and the
    multicore flag off. *)
Theorem value_that_is_no_number_loads_as_zero :
  forall (s : State) (val : wstring),
    Trim val = val ->
    (forall c r, val = c :: r ->
       is_space c = false /\ is_digit c = false /\ c <> 43 /\ c <> 45) ->
    load_line s (L "Language=" ++ val) = set_values (with_language 0 (values s)) s /\
    load_line s (L "Region=" ++ val) = set_values (with_region 0 (values s)) s /\
    load_line s (L "MemoryLayout=" ++ val) = set_values (with_memory_layout 0 (values s)) s /\
    load_line s (L "CustomRTC=" ++ val) = set_values (with_custom_rtc false (values s)) s /\
    load_line s (L "MultiCore=" ++ val) = set_values (with_multi_core false (values s)) s.
Proof.
  intros s val Ht Hv. pose proof (wtoi_no_number val Hv) as W.
  repeat split.
  - change (L "Language=" ++ val) with (L "Language" ++ 61 :: val).
    rewrite load_line_key_value;
      [|reflexivity|exact Ht|vm_compute; intuition discriminate|vm_compute; discriminate].
    unfold assign_setting. change (wstring_eqb (L "Language") (L "Language")) with true.
    cbv iota. now rewrite W.
  - change (L "Region=" ++ val) with (L "Region" ++ 61 :: val).
    rewrite load_line_key_value;
      [|reflexivity|exact Ht|vm_compute; intuition discriminate|vm_compute; discriminate].
    unfold assign_setting.
    change (wstring_eqb (L "Region") (L "Language")) with false.
    change (wstring_eqb (L "Region") (L "Region")) with true.
    cbv iota. now rewrite W.
  - change (L "MemoryLayout=" ++ val) with (L "MemoryLayout" ++ 61 :: val).
    rewrite load_line_key_value;
      [|reflexivity|exact Ht|vm_compute; intuition discriminate|vm_compute; discriminate].
    unfold assign_setting.
    change (wstring_eqb (L "MemoryLayout") (L "Language")) with false.
    change (wstring_eqb (L "MemoryLayout") (L "Region")) with false.
    change (wstring_eqb (L "MemoryLayout") (L "CustomRTC")) with false.
    change (wstring_eqb (L "MemoryLayout") (L "MultiCore")) with false.
    change (wstring_eqb (L "MemoryLayout") (L "MemoryLayout")) with true.
    cbv iota. now rewrite W.
  - change (L "CustomRTC=" ++ val) with (L "CustomRTC" ++ 61 :: val).
    rewrite load_line_key_value;
      [|reflexivity|exact Ht|vm_compute; intuition discriminate|vm_compute; discriminate].
    unfold assign_setting.
    change (wstring_eqb (L "CustomRTC") (L "Language")) with false.
    change (wstring_eqb (L "CustomRTC") (L "Region")) with false.
    change (wstring_eqb (L "CustomRTC") (L "CustomRTC")) with true.
    cbv iota. now rewrite W.
  - change (L "MultiCore=" ++ val) with (L "MultiCore" ++ 61 :: val).
    rewrite load_line_key_value;
      [|reflexivity|exact Ht|vm_compute; intuition discriminate|vm_compute; discriminate].
    unfold assign_setting.
    change (wstring_eqb (L "MultiCore") (L "Language")) with false.
    change (wstring_eqb (L "MultiCore") (L "Region")) with false.
    change (wstring_eqb (L "MultiCore") (L "CustomRTC")) with false.
    change (wstring_eqb (L "MultiCore") (L "MultiCore")) with true.
    cbv iota. now rewrite W.
Qed.

Lemma value_that_is_no_number_loads_as_zero_witness :
  language_index (values (load_line sample_start (L "Language=German"))) = 0.
Proof.
  change (L "Language=German") with (L "Language=" ++ L "German").
  destruct (value_that_is_no_number_loads_as_zero sample_start (L "German")) as (E & _).
  - vm_compute. reflexivity.
  - intros c r H. injection H as <- _. vm_compute. repeat split; discriminate.
  - rewrite E. reflexivity.
Defined.

